(** * MBufChain: the chained page buffer behind sockets and channels

    A shallow embedding of [object/mbuf.cc] and [object/mbuf.h].

    - [size_t] and [uint32_t] values are integers in [Z]; every arithmetic
      step of the source is followed by the wrap-around of its C++ type.
    - An [MBuf] is a record of its [len_], its [pkt_len_] and the populated
      part of its [data_] array.  The bytes of [data_] beyond the populated
      part are uninitialised in the source and are not represented.
    - An [MBufList] is a [list MBuf], front first.
    - User memory, the physical page allocator and the page size live
      outside these two files.  A user pointer is a pair of oracles (does the
      copy at this offset and of this length succeed, and which byte is at
      this offset); the allocator is an oracle saying whether a request for
      [num] pages succeeds; [PAGE_SIZE] is a section variable.
    - Every call that leaves the chain (user copy, page allocation, page
      release) is recorded, in order, in the trace of the operation. *)

From Stdlib Require Import ZArith List Lia Bool.
From Stdlib Require Import Init.Byte.
Import ListNotations.
Local Open Scope Z_scope.

(** Split a conjunction into its parts, and nothing else. *)
Ltac split_ands := repeat match goal with |- _ /\ _ => split end.

(** ** Machine integers *)

Definition u32 (x : Z) : Z := x mod 2 ^ 32.
Definition u64 (x : Z) : Z := x mod 2 ^ 64.

(** ** Status codes ([zx_status_t] is a 32-bit signed integer; the values are
    those of Zircon's errors header) *)

Definition zx_status_t : Type := Z.
Definition ZX_OK : zx_status_t := 0.
Definition ZX_ERR_INVALID_ARGS : zx_status_t := -10.
Definition ZX_ERR_OUT_OF_RANGE : zx_status_t := -14.
Definition ZX_ERR_SHOULD_WAIT : zx_status_t := -22.

(** ** Outcomes of a modelled call *)

Inductive outcome (A : Type) : Type :=
| Done (a : A)
| Undefined      (* front() taken of an empty list *)
| OutOfFuel.     (* the bounded unrolling of a while loop was not enough *)
Arguments Done {A} a.
Arguments Undefined {A}.
Arguments OutOfFuel {A}.

(** A [while] loop, unrolled at most [fuel] times. *)
Fixpoint while_loop {S : Type} (fuel : nat) (cond : S -> bool) (body : S -> S)
  (s : S) : option S :=
  if cond s then
    match fuel with
    | O => None
    | Datatypes.S n => while_loop n cond body (body s)
    end
  else Some s.

(** ** Byte arrays *)

(** [store a off bs]: the array [a] after [bs] was written at offset [off]. *)
Definition store (a : list byte) (off : Z) (bs : list byte) : list byte :=
  firstn (Z.to_nat off) a ++ bs ++ skipn (Z.to_nat off + length bs) a.

(** [load a off n]: the [n] bytes of [a] from offset [off]. *)
Definition load (a : list byte) (off n : Z) : list byte :=
  firstn (Z.to_nat n) (skipn (Z.to_nat off) a).

(** ** User memory *)

(** [user_in_ptr<const char>]: [uin_status off count] is the status of
    copying [count] bytes from byte offset [off]; [uin_byte off] is the byte
    found there. *)
Record user_in_ptr : Type := mkUserIn {
  uin_status : Z -> Z -> zx_status_t;
  uin_byte : Z -> byte
}.

(** [user_out_ptr<char>]: [uout_status off count] is the status of copying
    [count] bytes to byte offset [off]. *)
Record user_out_ptr : Type := mkUserOut {
  uout_status : Z -> Z -> zx_status_t
}.

Definition user_bytes (src : user_in_ptr) (off count : Z) : list byte :=
  map (fun i => uin_byte src (off + Z.of_nat i)) (seq 0 (Z.to_nat count)).

(** [src.byte_offset(off).copy_array_from_user(dst, count)]: the status and,
    on success, the bytes that were copied. *)
Definition copy_array_from_user (src : user_in_ptr) (off count : Z)
  : zx_status_t * list byte :=
  let st := uin_status src off count in
  (st, if st =? ZX_OK then user_bytes src off count else []).

(** [dst.byte_offset(off).copy_array_to_user(src, count)]. *)
Definition copy_array_to_user (dst : user_out_ptr) (off count : Z) : zx_status_t :=
  uout_status dst off count.

(** ** Calls that leave the chain *)

Inductive event : Type :=
| EvAllocPages (num : Z) (ok : bool)
| EvFreeList (n : nat)
| EvCopyFromUser (off count : Z) (st : zx_status_t)
| EvCopyToUser (off count : Z) (st : zx_status_t).

Definition is_alloc (e : event) : bool :=
  match e with EvAllocPages _ _ => true | _ => false end.
Definition is_failed_alloc (e : event) : bool :=
  match e with EvAllocPages _ ok => negb ok | _ => false end.
Definition is_free (e : event) : bool :=
  match e with EvFreeList _ => true | _ => false end.
Definition is_failed_copy (e : event) : bool :=
  match e with
  | EvCopyFromUser _ _ st | EvCopyToUser _ _ st => negb (st =? ZX_OK)
  | _ => false
  end.

(** Pages taken from the allocator minus pages given back, over a trace. *)
Fixpoint pages_held (t : list event) : Z :=
  match t with
  | [] => 0
  | EvAllocPages num true :: t' => num + pages_held t'
  | EvFreeList n :: t' => pages_held t' - Z.of_nat n
  | _ :: t' => pages_held t'
  end.

(** ** MBuf and MBufChain *)

Record MBuf : Type := mkMBuf {
  len_ : Z;              (* uint32_t *)
  pkt_len_ : Z;          (* uint32_t *)
  data_ : list byte      (* the populated part of char data_[kPayloadSize] *)
}.

Record MBufChain : Type := mkChain {
  buffers_ : list MBuf;
  read_cursor_off_ : Z;  (* uint32_t *)
  size_ : Z              (* size_t *)
}.

(** [MBufChain() = default]. *)
Definition empty_chain : MBufChain := mkChain [] 0 0.

(** What an operation hands back: the chain after the call, the out
    parameter ([*written] or [*actual]), the status, the bytes that landed in
    the user's destination buffer (reads only) and the trace. *)
Record op_result : Type := mkResult {
  r_chain : MBufChain;
  r_count : Z;
  r_status : zx_status_t;
  r_user : list byte;
  r_trace : list event
}.

Definition front (l : list MBuf) : option MBuf := hd_error l.
Definition back (l : list MBuf) : option MBuf := hd_error (rev l).
Definition pop_back (l : list MBuf) : list MBuf := removelast l.

Definition sum_len (l : list MBuf) : Z := fold_right (fun b acc => len_ b + acc) 0 l.
Definition payload (l : list MBuf) : list byte := concat (map data_ l).

Section Chain.

(** The page size of the platform. *)
Variable PAGE_SIZE : Z.

Definition kHeaderSize : Z := (8 * 2) + (4 * 2) + 8.
Definition kPayloadSize : Z := PAGE_SIZE - kHeaderSize.
Definition kSizeMax : Z := 128 * kPayloadSize.

(** [static_assert(sizeof(MBuf) == PAGE_SIZE)] makes the payload non-empty;
    the second bound keeps every length of a chain inside [uint32_t]. *)
Definition page_size_ok : Prop := kHeaderSize < PAGE_SIZE /\ kSizeMax < 2 ^ 32.

Definition NumBuffersForPayload (payload : Z) : Z :=
  u64 (1 + u64 (payload - 1) / kPayloadSize).

Definition rem (b : MBuf) : Z := u64 (kPayloadSize - len_ b).

(** *** Accessors *)

Definition is_full (c : MBufChain) : bool := size_ c >=? kSizeMax.
Definition is_empty (c : MBufChain) : bool := size_ c =? 0.
Definition max_size : Z := kSizeMax.
Definition mbuf_payload_size : Z := kPayloadSize.

Definition size (c : MBufChain) (datagram : bool) : outcome Z :=
  if datagram && negb (size_ c =? 0) then
    match front (buffers_ c) with
    | Some b => Done (pkt_len_ b)
    | None => Undefined
    end
  else Done (size_ c).

(** *** AllocMBufs and FreeMBufs *)

(** [new (buf) MBuf(page)]: both lengths 0, nothing populated. *)
Definition fresh_mbuf : MBuf := mkMBuf 0 0 [].

Definition AllocMBufs (pmm : Z -> bool) (num : Z) : option (list MBuf) * event :=
  if pmm num then (Some (repeat fresh_mbuf (Z.to_nat num)), EvAllocPages num true)
  else (None, EvAllocPages num false).

Definition FreeMBufs (bufs : list MBuf) : event := EvFreeList (length bufs).

(** *** WriteDatagram *)

(** The [for (auto& buf : bufs)] loop: [None] when a copy failed. *)
Fixpoint wd_copy (src : user_in_ptr) (len : Z) (bufs : list MBuf) (pos : Z)
  : option (list MBuf) * list event :=
  match bufs with
  | [] => (Some [], [])
  | buf :: rest =>
      let copy_len := Z.min kPayloadSize (u64 (len - pos)) in
      let '(st, bytes) := copy_array_from_user src pos copy_len in
      let ev := EvCopyFromUser pos copy_len st in
      if negb (st =? ZX_OK) then (None, [ev])
      else
        let buf' := mkMBuf (u32 (len_ buf + u32 copy_len)) (pkt_len_ buf)
                           (store (data_ buf) 0 bytes) in
        let '(r, evs) := wd_copy src len rest (u64 (pos + copy_len)) in
        (option_map (cons buf') r, ev :: evs)
  end.

Definition WriteDatagram (pmm : Z -> bool) (src : user_in_ptr) (len : Z)
  (c : MBufChain) : outcome op_result :=
  if len =? 0 then Done (mkResult c 0 ZX_ERR_INVALID_ARGS [] [])
  else if len >? kSizeMax then Done (mkResult c 0 ZX_ERR_OUT_OF_RANGE [] [])
  else if u64 (len + size_ c) >? kSizeMax then
    Done (mkResult c 0 ZX_ERR_SHOULD_WAIT [] [])
  else
    match AllocMBufs pmm (NumBuffersForPayload len) with
    | (None, ev) => Done (mkResult c 0 ZX_ERR_SHOULD_WAIT [] [ev])
    | (Some bufs, ev) =>
        match wd_copy src len bufs 0 with
        | (None, evs) =>
            Done (mkResult c 0 ZX_ERR_INVALID_ARGS [] (ev :: evs ++ [FreeMBufs bufs]))
        | (Some bufs', evs) =>
            match bufs' with
            | [] => Undefined
            | b :: bs =>
                let b' := mkMBuf (len_ b) (u32 len) (data_ b) in
                Done (mkResult
                        (mkChain (buffers_ c ++ b' :: bs) (read_cursor_off_ c)
                                 (u64 (size_ c + len)))
                        len ZX_OK [] (ev :: evs))
            end
        end
    end.

(** *** WriteStream *)

(** The locals the [write_buffer] lambda captures by reference and updates:
    [pos], the chain's [size_], and the trace. *)
Record ws_state : Type := mkWs {
  ws_pos : Z;
  ws_size : Z;
  ws_trace : list event
}.

(** The [write_buffer] lambda; [len] is the capped length.  Returns the
    status, the updated locals and the updated buffer. *)
Definition write_buffer (src : user_in_ptr) (len : Z) (w : ws_state) (buf : MBuf)
  : zx_status_t * ws_state * MBuf :=
  let copy_len := Z.min (rem buf) (u64 (len - ws_pos w)) in
  let '(status, bytes) := copy_array_from_user src (ws_pos w) copy_len in
  let tr := ws_trace w ++ [EvCopyFromUser (ws_pos w) copy_len status] in
  if negb (status =? ZX_OK) then
    (status, mkWs (ws_pos w) (ws_size w) tr, buf)
  else
    (ZX_OK,
     mkWs (u64 (ws_pos w + copy_len)) (u64 (ws_size w + copy_len)) tr,
     mkMBuf (u32 (len_ buf + u32 copy_len)) (pkt_len_ buf)
            (store (data_ buf) (len_ buf) bytes)).

(** [while (!bufs->is_empty())]: fill the front of [bufs] and move it to the
    back of [buffers]; on a failed copy free what is left of [bufs]. *)
Fixpoint ws_fill (src : user_in_ptr) (len : Z) (bufs : list MBuf) (w : ws_state)
  (buffers : list MBuf) : zx_status_t * ws_state * list MBuf :=
  match bufs with
  | [] => (ZX_OK, w, buffers)
  | b :: rest =>
      let '(status, w', b') := write_buffer src len w b in
      if negb (status =? ZX_OK) then
        (status,
         mkWs (ws_pos w') (ws_size w') (ws_trace w' ++ [FreeMBufs bufs]),
         buffers)
      else ws_fill src len rest w' (buffers ++ [b'])
  end.

(** "If there's space available in the write buffer, go there first." *)
Definition ws_tail (src : user_in_ptr) (len : Z) (c : MBufChain)
  : zx_status_t * ws_state * list MBuf :=
  let w0 := mkWs 0 (size_ c) [] in
  match back (buffers_ c) with
  | Some tail =>
      if rem tail >? 0 then
        let '(st, w, tail') := write_buffer src len w0 tail in
        (st, w, pop_back (buffers_ c) ++ [tail'])
      else (ZX_OK, w0, buffers_ c)
  | None => (ZX_OK, w0, buffers_ c)
  end.

(** "See if we need to allocate additional buffers." *)
Definition ws_alloc (pmm : Z -> bool) (src : user_in_ptr) (len : Z)
  (w1 : ws_state) (buffers1 : list MBuf) : zx_status_t * ws_state * list MBuf :=
  if negb (ws_pos w1 =? len) then
    match AllocMBufs pmm (NumBuffersForPayload (u64 (len - ws_pos w1))) with
    | (Some bufs, ev) =>
        ws_fill src len bufs
                (mkWs (ws_pos w1) (ws_size w1) (ws_trace w1 ++ [ev])) buffers1
    | (None, ev) =>
        (ZX_OK, mkWs (ws_pos w1) (ws_size w1) (ws_trace w1 ++ [ev]), buffers1)
    end
  else (ZX_OK, w1, buffers1).

Definition WriteStream (pmm : Z -> bool) (src : user_in_ptr) (len0 : Z)
  (c : MBufChain) : op_result :=
  (* Cap len by the max we are allowed to write. *)
  let len := Z.min (u64 (kSizeMax - size_ c)) len0 in
  let '(status, w1, buffers1) := ws_tail src len c in
  if negb (status =? ZX_OK) then
    mkResult (mkChain buffers1 (read_cursor_off_ c) (ws_size w1))
             (ws_pos w1) status [] (ws_trace w1)
  else
    let '(status2, w2, buffers2) := ws_alloc pmm src len w1 buffers1 in
    let c' := mkChain buffers2 (read_cursor_off_ c) (ws_size w2) in
    if negb (status2 =? ZX_OK) then
      mkResult c' (ws_pos w2) status2 [] (ws_trace w2)
    else if ws_pos w2 =? 0 then
      mkResult c' (ws_pos w2) ZX_ERR_SHOULD_WAIT [] (ws_trace w2)
    else
      mkResult c' (ws_pos w2) ZX_OK [] (ws_trace w2).

(** *** ReadHelper, Read and Peek *)

(** The state the read loop works on: the chain's [buffers_] and [size_],
    and the locals [pos], [iter] (as a position in [buffers_]), [read_off],
    [free_list], [status]; then the user's buffer and the trace. *)
Record rh_state : Type := mkRh {
  rh_buffers : list MBuf;
  rh_size : Z;
  rh_pos : Z;
  rh_iter : nat;
  rh_read_off : Z;
  rh_free_list : list MBuf;
  rh_status : zx_status_t;
  rh_user : list byte;
  rh_trace : list event
}.

(** [pos < len && iter != chain->buffers_.end() && status == ZX_OK]. *)
Definition rh_cond (len : Z) (s : rh_state) : bool :=
  (rh_pos s <? len) && (rh_iter s <? length (rh_buffers s))%nat
  && (rh_status s =? ZX_OK).

(** The loop body; [is_const] is [ktl::is_const<T>::value]. *)
Definition rh_body (is_const datagram : bool) (dst : user_out_ptr) (len : Z)
  (s : rh_state) : rh_state :=
  match nth_error (rh_buffers s) (rh_iter s) with
  | None => s
  | Some cur =>
      let copy_len :=
        Z.min (u64 (u32 (len_ cur - rh_read_off s))) (u64 (len - rh_pos s)) in
      let status := copy_array_to_user dst (rh_pos s) copy_len in
      let copy_succeeded := status =? ZX_OK in
      let pos := if copy_succeeded then u64 (rh_pos s + copy_len) else rh_pos s in
      let user :=
        if copy_succeeded
        then store (rh_user s) (rh_pos s) (load (data_ cur) (rh_read_off s) copy_len)
        else rh_user s in
      let tr := rh_trace s ++ [EvCopyToUser (rh_pos s) copy_len status] in
      if is_const then
        mkRh (rh_buffers s) (rh_size s) pos (S (rh_iter s)) 0
             (rh_free_list s) status user tr
      else
        let read_off :=
          if copy_succeeded then u32 (rh_read_off s + u32 copy_len)
          else rh_read_off s in
        let size1 :=
          if copy_succeeded then u64 (rh_size s - copy_len) else rh_size s in
        if (read_off =? len_ cur) || datagram then
          let size2 :=
            if datagram then u64 (size1 - u32 (len_ cur - read_off)) else size1 in
          match rh_buffers s with
          | [] => s
          | b :: rest =>
              mkRh rest size2 pos 0 0 (b :: rh_free_list s) status user tr
          end
        else
          mkRh (rh_buffers s) size1 pos (rh_iter s) read_off
               (rh_free_list s) status user tr
  end.

(** [while (!buffers_.is_empty() && buffers_.front().pkt_len_ == 0)]: drop the
    body buffers left at the front.  Returns [buffers_], [size_], [read_off]
    and [free_list]. *)
Fixpoint rh_drain (buffers : list MBuf) (size : Z) (read_off : Z)
  (free_list : list MBuf) : list MBuf * Z * Z * list MBuf :=
  match buffers with
  | cur :: rest =>
      if pkt_len_ cur =? 0 then
        rh_drain rest (u64 (size - u32 (len_ cur - read_off))) 0 (cur :: free_list)
      else (buffers, size, read_off, free_list)
  | [] => (buffers, size, read_off, free_list)
  end.

Definition ReadHelper (is_const : bool) (chain : MBufChain) (dst : user_out_ptr)
  (len0 : Z) (datagram : bool) : outcome op_result :=
  if size_ chain =? 0 then Done (mkResult chain 0 ZX_OK [] [])
  else
    let clamped : outcome Z :=
      if datagram then
        match front (buffers_ chain) with
        | Some b => Done (if len0 >? pkt_len_ b then pkt_len_ b else len0)
        | None => Undefined
        end
      else Done len0 in
    match clamped with
    | Undefined => Undefined
    | OutOfFuel => OutOfFuel
    | Done len =>
        let s0 := mkRh (buffers_ chain) (size_ chain) 0 0 (read_cursor_off_ chain)
                       [] ZX_OK [] [] in
        match while_loop (length (buffers_ chain)) (rh_cond len)
                         (rh_body is_const datagram dst len) s0 with
        | None => OutOfFuel
        | Some s =>
            (* Drain any leftover mbufs in the datagram packet. *)
            let '(buffers, size1, read_off, free_list) :=
              if negb is_const && datagram
              then rh_drain (rh_buffers s) (rh_size s) (rh_read_off s) (rh_free_list s)
              else (rh_buffers s, rh_size s, rh_read_off s, rh_free_list s) in
            let tr :=
              if negb is_const && negb (length free_list =? 0)%nat
              then rh_trace s ++ [FreeMBufs free_list]
              else rh_trace s in
            (* update_cursor runs when the function is left. *)
            let cursor :=
              if negb is_const then read_off else read_cursor_off_ chain in
            Done (mkResult (mkChain buffers cursor size1) (rh_pos s) (rh_status s)
                           (rh_user s) tr)
        end
    end.

Definition Read (c : MBufChain) (dst : user_out_ptr) (len : Z) (datagram : bool)
  : outcome op_result := ReadHelper false c dst len datagram.

Definition Peek (c : MBufChain) (dst : user_out_ptr) (len : Z) (datagram : bool)
  : outcome op_result := ReadHelper true c dst len datagram.

(** *** Sequences of public operations *)

Inductive op : Type :=
| OpWriteStream (pmm : Z -> bool) (src : user_in_ptr) (len : Z)
| OpWriteDatagram (pmm : Z -> bool) (src : user_in_ptr) (len : Z)
| OpRead (dst : user_out_ptr) (len : Z) (datagram : bool)
| OpPeek (dst : user_out_ptr) (len : Z) (datagram : bool).

(** The length argument is a [size_t]. *)
Definition op_len (o : op) : Z :=
  match o with
  | OpWriteStream _ _ len | OpWriteDatagram _ _ len
  | OpRead _ len _ | OpPeek _ len _ => len
  end.

Definition step (o : op) (c : MBufChain) : outcome op_result :=
  match o with
  | OpWriteStream pmm src len => Done (WriteStream pmm src len c)
  | OpWriteDatagram pmm src len => WriteDatagram pmm src len c
  | OpRead dst len datagram => Read c dst len datagram
  | OpPeek dst len datagram => Peek c dst len datagram
  end.

(** The results of the operations of [ops], run in order from [c]. *)
Fixpoint run (ops : list op) (c : MBufChain) : outcome (list op_result) :=
  match ops with
  | [] => Done []
  | o :: rest =>
      match step o c with
      | Done r =>
          match run rest (r_chain r) with
          | Done rs => Done (r :: rs)
          | Undefined => Undefined
          | OutOfFuel => OutOfFuel
          end
      | Undefined => Undefined
      | OutOfFuel => OutOfFuel
      end
  end.

(** ** Invariants *)

(** A buffer of a chain holds at least one byte, at most a payload, and
    [len_] counts the populated bytes of [data_]. *)
Definition cell_ok (b : MBuf) : Prop :=
  0 < len_ b <= kPayloadSize /\ len_ b = Z.of_nat (length (data_ b)).

Definition head_len (l : list MBuf) : Z :=
  match l with [] => 0 | b :: _ => len_ b end.

(** The buffers [b], the read cursor [ro] and the byte count [sz] fit
    together: the buffers are well formed, the cursor is inside the front
    buffer, [sz] counts the unread bytes and does not exceed the capacity. *)
Definition cursor_inv (b : list MBuf) (ro sz : Z) : Prop :=
  Forall cell_ok b
  /\ 0 <= ro
  /\ (b = [] -> ro = 0)
  /\ (b <> [] -> ro < head_len b)
  /\ sz = sum_len b - ro
  /\ sz <= kSizeMax.

(** What every public operation keeps. *)
Definition chain_inv (c : MBufChain) : Prop :=
  cursor_inv (buffers_ c) (read_cursor_off_ c) (size_ c).

(** The invariant of the loop of a consuming read. *)
Definition read_inv (s : rh_state) : Prop :=
  cursor_inv (rh_buffers s) (rh_read_off s) (rh_size s)
  /\ rh_iter s = O
  /\ 0 <= rh_pos s.

(** The bytes copied in by the successful user copies of a trace. *)
Fixpoint copied_in (t : list event) : Z :=
  match t with
  | [] => 0
  | EvCopyFromUser _ count st :: t' =>
      (if st =? ZX_OK then count else 0) + copied_in t'
  | _ :: t' => copied_in t'
  end.

(** A trace with exactly one failed user copy: the copy of [count] bytes at
    offset [off], refused with status [st], after which only the release of
    unused buffers may follow. *)
Definition fails_at (t : list event) (off count : Z) (st : zx_status_t) : Prop :=
  exists t1 t2,
    t = t1 ++ EvCopyFromUser off count st :: t2
    /\ st <> ZX_OK
    /\ existsb is_failed_copy t1 = false
    /\ (t2 = [] \/ exists n, t2 = [EvFreeList n]).

(** *** Datagram mode *)

(** The buffers [h :: t] hold the datagram [d]: [h] carries its length, the
    body buffers carry 0, and the payloads concatenate to [d]. *)
Definition frame_ok (d : list byte) (h : MBuf) (t : list MBuf) : Prop :=
  pkt_len_ h = Z.of_nat (length d)
  /\ d <> []
  /\ Forall (fun b => pkt_len_ b = 0) t
  /\ Forall cell_ok (h :: t)
  /\ payload (h :: t) = d.

(** The buffers of a chain hold the datagrams [ds], oldest first. *)
Inductive dgram_cells : list (list byte) -> list MBuf -> Prop :=
| dgram_nil : dgram_cells [] []
| dgram_cons d ds h t rest :
    frame_ok d h t -> dgram_cells ds rest ->
    dgram_cells (d :: ds) (h :: t ++ rest).

(** A chain in datagram mode holding the written datagrams [ds]. *)
Definition dgram_chain (c : MBufChain) (ds : list (list byte)) : Prop :=
  dgram_cells ds (buffers_ c)
  /\ read_cursor_off_ c = 0
  /\ size_ c = Z.of_nat (length (concat ds))
  /\ size_ c <= kSizeMax.

(** [k] buffers are what [r] bytes need: all full but the last, which holds
    at least one byte. *)
Definition fill_fits (k : nat) (r : Z) : Prop :=
  (k = O /\ r = 0)
  \/ (k <> O /\ (Z.of_nat k - 1) * kPayloadSize < r <= Z.of_nat k * kPayloadSize).

(** The invariant of the loop of a datagram read that consumes the
    datagram [d], held by the buffers [frame] and followed by the buffers
    [rest]: [done] buffers of the frame were unlinked, [todo] are still at
    the front of the chain, and the user's buffer holds the first [pos] bytes
    of [d]. *)
Definition dgram_read_inv (d : list byte) (frame rest : list MBuf)
  (size0 len : Z) (s : rh_state) : Prop :=
  exists done todo,
    frame = done ++ todo
    /\ rh_buffers s = todo ++ rest
    /\ rh_iter s = O
    /\ rh_read_off s = 0
    /\ rh_size s = size0 - sum_len done
    /\ rh_free_list s = rev done
    /\ 0 <= rh_pos s <= len
    /\ rh_user s = firstn (Z.to_nat (rh_pos s)) d
    /\ (rh_status s = ZX_OK -> rh_pos s = Z.min len (sum_len done))
    /\ (done = [] -> rh_pos s = 0 /\ rh_status s = ZX_OK)
    /\ pages_held (rh_trace s) = 0.

(** The length argument of an operation is a [size_t]. *)
Definition op_ok (o : op) : Prop := 0 <= op_len o < 2 ^ 64.

(** The chain after the last of the results [rs] of a run from [c0]. *)
Definition final_chain (c0 : MBufChain) (rs : list op_result) : MBufChain :=
  last (map r_chain rs) c0.

(** [a] is a prefix of [b]. *)
Definition prefix_of (a b : list byte) : Prop := exists rest, b = a ++ rest.

(** ** What a chain holds and gives back *)

(** The bytes of a chain that were not read yet, oldest first. *)
Definition unread (c : MBufChain) : list byte :=
  skipn (Z.to_nat (read_cursor_off_ c)) (payload (buffers_ c)).

(** [~MBufChain()]: [FreeMBufs(ktl::move(buffers_))]. *)
Definition MBufChain_dtor (c : MBufChain) : list event := [FreeMBufs (buffers_ c)].

(** The trace of a whole run. *)
Definition run_trace (rs : list op_result) : list event := concat (map r_trace rs).

(** The length a read works with: [len] capped by the [pkt_len_] of the
    front buffer when [datagram] is set. *)
Definition capped_len (c : MBufChain) (len : Z) (datagram : bool) : Z :=
  if datagram then
    match front (buffers_ c) with
    | Some b => if len >? pkt_len_ b then pkt_len_ b else len
    | None => len
    end
  else len.

(** The status of a read is [ZX_OK] or the status a copy to [dst] returned. *)
Definition status_from (dst : user_out_ptr) (st : zx_status_t) : Prop :=
  st = ZX_OK \/ exists off count, st = uout_status dst off count /\ st <> ZX_OK.

(** Every buffer but the last is full. *)
Fixpoint packed (l : list MBuf) : Prop :=
  match l with
  | [] => True
  | [_] => True
  | b :: (_ :: _) as rest => len_ b = kPayloadSize /\ packed rest
  end.

(** A buffer with no room left. *)
Definition full (b : MBuf) : Prop := len_ b = kPayloadSize.

(** An operation of a chain used in stream mode: anything but a datagram
    write. *)
Definition stream_op (o : op) : Prop :=
  match o with OpWriteDatagram _ _ _ => False | _ => True end.

(** A chain written in stream mode: the invariant, every buffer but the last
    full, and no [pkt_len_] set. *)
Definition stream_inv (c : MBufChain) : Prop :=
  chain_inv c /\ packed (buffers_ c) /\ Forall (fun b => pkt_len_ b = 0) (buffers_ c).

(** ** ZirconPhysmemReader::PhysToPtr ([lib/acpi_lite/zircon.cc])

    The reader keeps a list of read-only mappings of physical memory and
    answers from it when it can.  The kernel address space is outside these
    files: its answers are oracles, and every call to it is recorded.  The
    page rounding macros and [InRange] are outside these files too, and are
    an argument here.  The call runs under [lock_]; what is modelled is the
    body between taking and releasing it. *)

Definition ZX_ERR_NO_MEMORY : zx_status_t := -4.

(** [ROUNDDOWN_PAGE_SIZE], [ROUNDUP_PAGE_SIZE] and [InRange], whatever
    they compute. *)
Record kernel_macros : Type := mkMacros {
  ROUNDDOWN_PAGE_SIZE : Z -> Z;
  ROUNDUP_PAGE_SIZE : Z -> Z;
  InRange : Z -> Z -> Z -> Z -> bool
}.

(** A [VmMapping], as far as [PhysToPtr] looks at it: [base()] and [size()]. *)
Record VmMapping : Type := mkVmMapping { vm_base : Z; vm_size : Z }.

Record vm_env : Type := mkVmEnv {
  (* arch_aspace.Query(vaddr, &map_paddr, &mmu_flags): status and map_paddr *)
  env_query : Z -> zx_status_t * Z;
  (* new (&ac) Mapping(): ac.check() *)
  env_new_mapping : bool;
  (* VmObjectPhysical::Create(paddr_base, size, &vmo) *)
  env_vmo_create : Z -> Z -> zx_status_t;
  (* RootVmar()->CreateVmMapping(0, size, ...): an error, or mapping and base *)
  env_create_mapping : Z -> zx_status_t + VmMapping * Z;
  (* map_result->mapping->MapRange(0, size, true, false) *)
  env_map_range : VmMapping -> Z -> zx_status_t
}.

Inductive vm_event : Type :=
| VmQuery (vaddr : Z)
| VmNewMapping (ok : bool)
| VmoCreate (paddr size : Z)
| VmCreateMapping (size : Z)
| VmMapRange (m : VmMapping) (size : Z)
| VmDestroy (m : VmMapping).

Definition is_vm_create (e : vm_event) : bool :=
  match e with
  | VmNewMapping _ | VmoCreate _ _ | VmCreateMapping _ | VmMapRange _ _
  | VmDestroy _ => true
  | VmQuery _ => false
  end.

(** What a call hands back: the [zx::result], the reader's [mappings_]
    afterwards, and the trace. *)
Record phys_result : Type := mkPhys {
  p_value : zx_status_t + Z;
  p_mappings : list VmMapping;
  p_trace : list vm_event
}.

(** "Search existing mappings": [None] when the loop ran to its end. *)
Fixpoint search_mappings (K : kernel_macros) (env : vm_env)
  (paddr_base size phys : Z) (ms : list VmMapping)
  : option (zx_status_t + Z) * list vm_event :=
  match ms with
  | [] => (None, [])
  | m :: rest =>
      let '(status, map_paddr) := env_query env (vm_base m) in
      if negb (status =? ZX_OK) then (Some (inl status), [VmQuery (vm_base m)])
      else if InRange K paddr_base size map_paddr (u64 (map_paddr + vm_size m)) then
        let offset := u64 (phys - map_paddr) in
        (Some (inr (u64 (vm_base m + offset))), [VmQuery (vm_base m)])
      else
        let '(r, evs) := search_mappings K env paddr_base size phys rest in
        (r, VmQuery (vm_base m) :: evs)
  end.

Definition PhysToPtr (K : kernel_macros) (env : vm_env)
  (mappings_ : list VmMapping) (phys length : Z) : phys_result :=
  (* We don't support the 0 physical address or 0-length ranges. *)
  if (length =? 0) || (phys =? 0) then mkPhys (inl ZX_ERR_INVALID_ARGS) mappings_ []
  else
    (* add_overflow(phys, length - 1, &phys_end) *)
    let sum := phys + u64 (length - 1) in
    if sum >=? 2 ^ 64 then mkPhys (inl ZX_ERR_OUT_OF_RANGE) mappings_ []
    else
      let phys_end := sum in
      (* Convert to a page aligned base and size. *)
      let paddr_base := ROUNDDOWN_PAGE_SIZE K phys in
      let size := u64 (ROUNDUP_PAGE_SIZE K phys_end - paddr_base) in
      match search_mappings K env paddr_base size phys mappings_ with
      | (Some r, evs) => mkPhys r mappings_ evs
      | (None, evs) =>
          (* Need to create a new mapping to cover this range. *)
          if negb (env_new_mapping env) then
            mkPhys (inl ZX_ERR_NO_MEMORY) mappings_ (evs ++ [VmNewMapping false])
          else
            let status := env_vmo_create env paddr_base size in
            let tr1 := evs ++ [VmNewMapping true; VmoCreate paddr_base size] in
            if negb (status =? ZX_OK) then mkPhys (inl status) mappings_ tr1
            else
              match env_create_mapping env size with
              | inl err => mkPhys (inl err) mappings_ (tr1 ++ [VmCreateMapping size])
              | inr (mapping, base) =>
                  let status2 := env_map_range env mapping size in
                  let tr2 := tr1 ++ [VmCreateMapping size; VmMapRange mapping size] in
                  if negb (status2 =? ZX_OK) then
                    mkPhys (inl status2) mappings_ (tr2 ++ [VmDestroy mapping])
                  else
                    let offset := u64 (phys - paddr_base) in
                    mkPhys (inr (u64 (base + offset))) (mapping :: mappings_) tr2
              end
      end.

(** ** Inputs for the concrete runs *)

(** An allocator that always has pages, and one that has none. *)
Definition pmm_plenty : Z -> bool := fun _ => true.
Definition pmm_exhausted : Z -> bool := fun _ => false.

(** A readable user buffer full of the byte [b]. *)
Definition user_src (b : byte) : user_in_ptr := mkUserIn (fun _ _ => ZX_OK) (fun _ => b).

(** A user buffer of which only the first [n] bytes are mapped. *)
Definition user_src_mapped (n : Z) (b : byte) : user_in_ptr :=
  mkUserIn (fun off count => if off + count >? n then ZX_ERR_INVALID_ARGS else ZX_OK)
           (fun _ => b).

(** A user buffer that is not mapped at all: even an empty copy is refused. *)
Definition user_src_bad : user_in_ptr :=
  mkUserIn (fun _ _ => ZX_ERR_INVALID_ARGS) (fun _ => x00).

Definition user_dst : user_out_ptr := mkUserOut (fun _ _ => ZX_OK).
Definition user_dst_bad : user_out_ptr := mkUserOut (fun _ _ => ZX_ERR_INVALID_ARGS).

(** The chain after [WriteDatagram("AAA", 3)] on an empty chain, and after
    [WriteDatagram("BBBBB", 5)] on that one. *)
Definition chain_A : MBufChain := mkChain [mkMBuf 3 3 [x41; x41; x41]] 0 3.
Definition chain_AB : MBufChain :=
  mkChain [mkMBuf 3 3 [x41; x41; x41]; mkMBuf 5 5 [x42; x42; x42; x42; x42]] 0 8.

(** The chain after [WriteStream("hello", 5)] on an empty chain. *)
Definition chain_hello : MBufChain :=
  mkChain [mkMBuf 5 0 [x68; x65; x6c; x6c; x6f]] 0 5.

(** A run that mixes the four operations. *)
Definition sample_ops : list op :=
  [OpWriteDatagram pmm_plenty (user_src x41) 3;
   OpWriteStream pmm_plenty (user_src x42) 5000;
   OpPeek user_dst 10 false;
   OpRead user_dst_bad 2 true;
   OpWriteStream pmm_exhausted (user_src_mapped 10 x42) 600000;
   OpRead user_dst 6000 false;
   OpWriteDatagram pmm_plenty user_src_bad 7].

(** A run without datagram writes. *)
Definition stream_ops : list op :=
  [OpWriteStream pmm_plenty (user_src x42) 5000;
   OpRead user_dst 10 false;
   OpWriteStream pmm_plenty (user_src_mapped 4000 x41) 9000;
   OpPeek user_dst_bad 100 false;
   OpWriteStream pmm_exhausted (user_src x41) 600000;
   OpRead user_dst 6000 false;
   OpRead user_dst 1 true].

(** Page rounding to 4 KiB pages and a range check, for the concrete runs of
    [PhysToPtr]. *)
Definition sample_macros : kernel_macros :=
  mkMacros (fun x => x / 4096 * 4096)
           (fun x => (x + 4095) / 4096 * 4096)
           (fun offset len lo hi => (lo <=? offset) && (offset + len <=? hi)).

(** Two mappings: one page at physical 0x10000 seen at 0xffff000000, and four
    pages at physical 0x20000 seen at 0xffff100000. *)
Definition mapping_1 : VmMapping := mkVmMapping 1099494850560 4096.
Definition mapping_2 : VmMapping := mkVmMapping 1099495899136 16384.

Definition sample_env : vm_env :=
  mkVmEnv (fun vaddr => if vaddr =? 1099494850560 then (ZX_OK, 65536)
                        else if vaddr =? 1099495899136 then (ZX_OK, 131072)
                        else (ZX_ERR_INVALID_ARGS, 0))
          true
          (fun _ _ => ZX_OK)
          (fun size => inr (mkVmMapping 1099496947712 size, 1099496947712))
          (fun _ _ => ZX_OK).

(** ** Basic facts *)

Hypothesis Hpage : page_size_ok.

Lemma u32_small (x : Z) : 0 <= x < 2 ^ 32 -> u32 x = x.
Proof. intros; unfold u32; apply Z.mod_small; assumption. Qed.

Lemma u64_small (x : Z) : 0 <= x < 2 ^ 64 -> u64 x = x.
Proof. intros; unfold u64; apply Z.mod_small; assumption. Qed.

Lemma kPayloadSize_pos : 0 < kPayloadSize.
Proof. destruct Hpage; unfold kPayloadSize; lia. Qed.

Lemma kPayloadSize_u32 : kPayloadSize < 2 ^ 32.
Proof. destruct Hpage as [H1 H2]; unfold kSizeMax, kPayloadSize in *; lia. Qed.

Lemma kSizeMax_u32 : kSizeMax < 2 ^ 32.
Proof. destruct Hpage; assumption. Qed.

Lemma kSizeMax_pos : 0 < kSizeMax.
Proof. pose proof kPayloadSize_pos; unfold kSizeMax; lia. Qed.

Lemma sum_len_app (a b : list MBuf) : sum_len (a ++ b) = sum_len a + sum_len b.
Proof. induction a as [|x a IH]; simpl; [reflexivity | rewrite IH; lia]. Qed.

Lemma sum_len_cons (b : MBuf) (l : list MBuf) : sum_len (b :: l) = len_ b + sum_len l.
Proof. reflexivity. Qed.

Lemma payload_app (a b : list MBuf) : payload (a ++ b) = payload a ++ payload b.
Proof. unfold payload; rewrite map_app, concat_app; reflexivity. Qed.

Lemma pages_held_app (a b : list event) :
  pages_held (a ++ b) = pages_held a + pages_held b.
Proof.
  induction a as [|e a IH]; simpl; [reflexivity|].
  destruct e as [num [|]|n|off count st|off count st]; rewrite IH; lia.
Qed.

Lemma copied_in_app (a b : list event) :
  copied_in (a ++ b) = copied_in a + copied_in b.
Proof.
  induction a as [|e a IH]; simpl; [reflexivity|].
  destruct e; rewrite IH; lia.
Qed.

Lemma seq_from (s n : nat) : seq s n = map (fun i => (s + i)%nat) (seq 0 n).
Proof.
  revert s; induction n as [|n IH]; intros s; simpl; [reflexivity|].
  rewrite Nat.add_0_r; f_equal.
  rewrite (IH (S s)), (IH 1%nat), map_map.
  apply map_ext; intros i; lia.
Qed.

Lemma user_bytes_length (src : user_in_ptr) (off n : Z) :
  length (user_bytes src off n) = Z.to_nat n.
Proof. unfold user_bytes; rewrite length_map, length_seq; reflexivity. Qed.

Lemma user_bytes_app (src : user_in_ptr) (off a b : Z) :
  0 <= a -> 0 <= b ->
  user_bytes src off (a + b) = user_bytes src off a ++ user_bytes src (off + a) b.
Proof.
  intros Ha Hb; unfold user_bytes.
  rewrite Z2Nat.inj_add by assumption.
  rewrite seq_app, map_app; f_equal.
  rewrite (seq_from (0 + Z.to_nat a)), map_map.
  apply map_ext; intros i.
  f_equal; lia.
Qed.

Lemma user_bytes_0 (src : user_in_ptr) (off : Z) : user_bytes src off 0 = [].
Proof. reflexivity. Qed.

Lemma store_append (a bs : list byte) (off : Z) :
  off = Z.of_nat (length a) -> store a off bs = a ++ bs.
Proof.
  intros ->; unfold store.
  rewrite Nat2Z.id, firstn_all, skipn_all2 by lia.
  rewrite app_nil_r; reflexivity.
Qed.

Lemma sum_len_payload (l : list MBuf) :
  Forall cell_ok l -> sum_len l = Z.of_nat (length (payload l)).
Proof.
  induction 1 as [|b l [_ Hb] _ IH]; simpl; [reflexivity|].
  unfold payload in *; simpl; rewrite length_app; lia.
Qed.

Lemma sum_len_nonneg (l : list MBuf) : Forall cell_ok l -> 0 <= sum_len l.
Proof. intros H; rewrite sum_len_payload by assumption; lia. Qed.

Lemma NumBuffersForPayload_fits (r : Z) :
  0 < r < 2 ^ 64 ->
  NumBuffersForPayload r = 1 + (r - 1) / kPayloadSize
  /\ fill_fits (Z.to_nat (NumBuffersForPayload r)) r.
Proof.
  intros Hr; pose proof kPayloadSize_pos as HP.
  assert (Hq : 0 <= (r - 1) / kPayloadSize <= r - 1).
  { split; [apply Z.div_pos; lia|].
    apply Z.div_le_upper_bound; [lia|]. nia. }
  assert (E : NumBuffersForPayload r = 1 + (r - 1) / kPayloadSize).
  { unfold NumBuffersForPayload.
    rewrite (u64_small (r - 1)) by lia. apply u64_small; lia. }
  split; [exact E|].
  right; rewrite E; split; [lia|].
  rewrite Z2Nat.id by lia.
  pose proof (Z.mul_div_le (r - 1) kPayloadSize HP).
  pose proof (Z.mul_succ_div_gt (r - 1) kPayloadSize HP).
  lia.
Qed.

(** ** WriteDatagram *)

Lemma wd_copy_length (src : user_in_ptr) (len : Z) (bufs : list MBuf) :
  forall pos bufs' evs,
    wd_copy src len bufs pos = (Some bufs', evs) -> length bufs' = length bufs.
Proof.
  induction bufs as [|b bufs IH]; intros pos bufs' evs; simpl.
  - intros H; inversion H; reflexivity.
  - unfold copy_array_from_user.
    destruct (negb (uin_status src pos _ =? ZX_OK)); [discriminate|].
    destruct (wd_copy src len bufs _) as [[r|] evs'] eqn:E; simpl; [|discriminate].
    intros H; inversion H; subst; simpl.
    f_equal; eapply IH; eassumption.
Qed.

Lemma wd_copy_spec (src : user_in_ptr) (len : Z) :
  len < 2 ^ 64 ->
  forall (k : nat) (pos : Z),
    0 <= pos -> fill_fits k (len - pos) ->
    match wd_copy src len (repeat fresh_mbuf k) pos with
    | (Some bufs, evs) =>
        Forall cell_ok bufs
        /\ Forall (fun b => pkt_len_ b = 0) bufs
        /\ payload bufs = user_bytes src pos (len - pos)
        /\ pages_held evs = 0
    | (None, evs) => pages_held evs = 0
    end.
Proof.
  intros Hlen; pose proof kPayloadSize_pos as HP; pose proof kPayloadSize_u32 as HP32.
  induction k as [|k IH]; intros pos Hpos Hfit.
  - destruct Hfit as [[_ Hr]|[Hk _]]; [|congruence].
    simpl; rewrite Hr; repeat split; constructor.
  - destruct Hfit as [[Hk _]|[_ Hr]]; [discriminate|].
    rewrite Nat2Z.inj_succ in Hr.
    simpl. rewrite (u64_small (len - pos)) by lia.
    set (n := Z.min kPayloadSize (len - pos)).
    assert (Hn : 0 < n <= kPayloadSize) by (unfold n; lia).
    unfold copy_array_from_user.
    destruct (uin_status src pos n =? ZX_OK) eqn:Est; simpl; [|reflexivity].
    rewrite (u64_small (pos + n)) by (unfold n; lia).
    assert (Hfit' : fill_fits k (len - (pos + n))).
    { destruct k as [|k'].
      - left; split; [reflexivity | unfold n; lia].
      - right; split; [discriminate|]. unfold n; lia. }
    specialize (IH (pos + n) ltac:(lia) Hfit').
    destruct (wd_copy src len (repeat fresh_mbuf k) (pos + n)) as [[bufs|] evs];
      simpl; [|exact IH].
    destruct IH as (Hok & Hpkt & Hpay & Hheld).
    rewrite ?Z.add_0_l, !(u32_small n) by lia.
    rewrite store_append by reflexivity. simpl.
    repeat split.
    + constructor; [|exact Hok].
      split; simpl; [lia|].
      rewrite user_bytes_length; lia.
    + constructor; [reflexivity | exact Hpkt].
    + unfold payload in *; simpl; rewrite Hpay.
      replace (len - pos) with (n + (len - (pos + n))) by lia.
      rewrite user_bytes_app by (unfold n; lia).
      repeat f_equal; lia.
    + exact Hheld.
Qed.

(** The three checks that precede the allocation. *)
Lemma WriteDatagram_checks (pmm : Z -> bool) (src : user_in_ptr) (len : Z)
  (c : MBufChain) :
  0 <= len < 2 ^ 64 -> 0 <= size_ c <= kSizeMax ->
  (len = 0 ->
   WriteDatagram pmm src len c = Done (mkResult c 0 ZX_ERR_INVALID_ARGS [] []))
  /\ (len <> 0 -> len > kSizeMax ->
      WriteDatagram pmm src len c = Done (mkResult c 0 ZX_ERR_OUT_OF_RANGE [] []))
  /\ (len <> 0 -> len <= kSizeMax -> len + size_ c > kSizeMax ->
      WriteDatagram pmm src len c = Done (mkResult c 0 ZX_ERR_SHOULD_WAIT [] [])).
Proof.
  intros Hlen Hsz; pose proof kSizeMax_u32 as HM.
  unfold WriteDatagram; repeat split.
  - intros ->; reflexivity.
  - intros H0 Hgt.
    destruct (len =? 0) eqn:E0; [apply Z.eqb_eq in E0; contradiction|].
    destruct (len >? kSizeMax) eqn:E1; [reflexivity|].
    rewrite Z.gtb_ltb in E1; apply Z.ltb_ge in E1; lia.
  - intros H0 Hle Hgt.
    destruct (len =? 0) eqn:E0; [apply Z.eqb_eq in E0; contradiction|].
    destruct (len >? kSizeMax) eqn:E1;
      [rewrite Z.gtb_ltb in E1; apply Z.ltb_lt in E1; lia|].
    rewrite u64_small by lia.
    destruct (len + size_ c >? kSizeMax) eqn:E2; [reflexivity|].
    rewrite Z.gtb_ltb in E2; apply Z.ltb_ge in E2; lia.
Qed.

(** A datagram write returns, and a refused one leaves the chain as it was
    and every page it took is given back. *)
Lemma WriteDatagram_total (pmm : Z -> bool) (src : user_in_ptr) (len : Z)
  (c : MBufChain) :
  0 <= len < 2 ^ 64 ->
  exists r,
    WriteDatagram pmm src len c = Done r
    /\ (r_status r <> ZX_OK ->
        r_chain r = c /\ r_count r = 0 /\ pages_held (r_trace r) = 0).
Proof.
  intros Hlen; pose proof kSizeMax_u32 as HM.
  unfold WriteDatagram.
  destruct (len =? 0) eqn:E0; [eexists; split; [reflexivity | simpl; auto]|].
  destruct (len >? kSizeMax) eqn:E1; [eexists; split; [reflexivity | simpl; auto]|].
  destruct (u64 (len + size_ c) >? kSizeMax);
    [eexists; split; [reflexivity | simpl; auto]|].
  apply Z.eqb_neq in E0.
  rewrite Z.gtb_ltb in E1; apply Z.ltb_ge in E1.
  destruct (NumBuffersForPayload_fits len ltac:(lia)) as [Enum Hfit].
  set (num := NumBuffersForPayload len) in *.
  assert (Hnum : 1 <= num).
  { rewrite Enum. pose proof kPayloadSize_pos.
    assert (0 <= (len - 1) / kPayloadSize) by (apply Z.div_pos; lia). lia. }
  unfold AllocMBufs.
  destruct (pmm num); [|eexists; split; [reflexivity | simpl; auto]].
  destruct (wd_copy src len (repeat fresh_mbuf (Z.to_nat num)) 0)
    as [[bufs'|] evs] eqn:Ecopy.
  - pose proof (wd_copy_length _ _ _ _ _ _ Ecopy) as Hl.
    rewrite repeat_length in Hl.
    destruct bufs' as [|b bs]; [simpl in Hl; lia|].
    eexists; split; [reflexivity|]. simpl; intros H; congruence.
  - eexists; split; [reflexivity|]. simpl; intros _.
    repeat split.
    pose proof (wd_copy_spec src len (proj2 Hlen) (Z.to_nat num) 0 ltac:(lia)) as Hs.
    rewrite Z.sub_0_r in Hs. specialize (Hs Hfit). rewrite Ecopy in Hs.
    rewrite pages_held_app, Hs; simpl.
    rewrite repeat_length, Z2Nat.id by lia. lia.
Qed.

Lemma dgram_cells_app (ds : list (list byte)) (cells : list MBuf)
  (d : list byte) (h : MBuf) (t : list MBuf) :
  dgram_cells ds cells -> frame_ok d h t ->
  dgram_cells (ds ++ [d]) (cells ++ h :: t).
Proof.
  intros Hds Hf; induction Hds as [|d0 ds0 h0 t0 rest Hf0 _ IH]; simpl.
  - rewrite <- (app_nil_r t) at 1. constructor; [exact Hf | constructor].
  - rewrite <- app_assoc. constructor; assumption.
Qed.

(** A successful datagram write appends the datagram it was given. *)
Lemma WriteDatagram_dgram_chain (pmm : Z -> bool) (src : user_in_ptr) (len : Z)
  (c : MBufChain) (ds : list (list byte)) (r : op_result) :
  dgram_chain c ds -> 0 <= len < 2 ^ 64 ->
  WriteDatagram pmm src len c = Done r -> r_status r = ZX_OK ->
  dgram_chain (r_chain r) (ds ++ [user_bytes src 0 len]) /\ r_count r = len.
Proof.
  intros (Hcells & Hoff & Hsize & Hmax) Hlen; pose proof kSizeMax_u32 as HM.
  unfold WriteDatagram.
  destruct (len =? 0) eqn:E0; [intros H; inversion H; subst; discriminate|].
  destruct (len >? kSizeMax) eqn:E1; [intros H; inversion H; subst; discriminate|].
  destruct (u64 (len + size_ c) >? kSizeMax) eqn:E2;
    [intros H; inversion H; subst; discriminate|].
  apply Z.eqb_neq in E0.
  rewrite Z.gtb_ltb in E1; apply Z.ltb_ge in E1.
  rewrite u64_small in E2 by lia.
  rewrite Z.gtb_ltb in E2; apply Z.ltb_ge in E2.
  destruct (NumBuffersForPayload_fits len ltac:(lia)) as [Enum Hfit].
  unfold AllocMBufs.
  destruct (pmm _); [|intros H; inversion H; subst; discriminate].
  pose proof (wd_copy_spec src len (proj2 Hlen)
                (Z.to_nat (NumBuffersForPayload len)) 0 ltac:(lia)) as Hs.
  rewrite Z.sub_0_r in Hs. specialize (Hs Hfit).
  destruct (wd_copy src len _ 0) as [[bufs'|] evs];
    [|intros H; inversion H; subst; discriminate].
  destruct Hs as (Hok & Hpkt & Hpay & _).
  destruct bufs' as [|b bs]; [discriminate|].
  intros H _; inversion H; subst; clear H; simpl.
  split; [|reflexivity].
  assert (Hlenb : Z.of_nat (length (user_bytes src 0 len)) = len)
    by (rewrite user_bytes_length; lia).
  repeat split; simpl.
  - apply dgram_cells_app; [exact Hcells|].
    inversion Hok; subst. inversion Hpkt; subst.
    repeat split; simpl.
    + rewrite u32_small by lia. lia.
    + intros Hnil; rewrite Hnil in Hlenb; simpl in Hlenb; lia.
    + assumption.
    + constructor; assumption.
    + exact Hpay.
  - exact Hoff.
  - rewrite u64_small by lia.
    rewrite concat_app, length_app; simpl. rewrite app_nil_r. lia.
  - rewrite u64_small by lia. lia.
Qed.

(** ** WriteStream *)

Lemma write_buffer_eq (src : user_in_ptr) (len : Z) (w : ws_state) (buf : MBuf) :
  0 <= len_ buf <= kPayloadSize ->
  len_ buf = Z.of_nat (length (data_ buf)) ->
  0 <= ws_pos w <= len -> len < 2 ^ 64 ->
  0 <= ws_size w -> ws_size w + (len - ws_pos w) <= kSizeMax ->
  let n := Z.min (kPayloadSize - len_ buf) (len - ws_pos w) in
  let st := uin_status src (ws_pos w) n in
  write_buffer src len w buf =
  if st =? ZX_OK then
    (ZX_OK,
     mkWs (ws_pos w + n) (ws_size w + n)
          (ws_trace w ++ [EvCopyFromUser (ws_pos w) n st]),
     mkMBuf (len_ buf + n) (pkt_len_ buf) (data_ buf ++ user_bytes src (ws_pos w) n))
  else
    (st, mkWs (ws_pos w) (ws_size w)
              (ws_trace w ++ [EvCopyFromUser (ws_pos w) n st]), buf).
Proof.
  intros Hb Hdata Hpos Hlen Hsz Hcap n st.
  pose proof kPayloadSize_u32 as HP32; pose proof kSizeMax_u32 as HM.
  unfold write_buffer, rem, copy_array_from_user.
  rewrite (u64_small (kPayloadSize - len_ buf)), (u64_small (len - ws_pos w)) by lia.
  fold n; fold st.
  destruct (st =? ZX_OK) eqn:Est; simpl; [|reflexivity].
  assert (Hn : 0 <= n <= kPayloadSize - len_ buf) by (unfold n; lia).
  rewrite (u32_small n), (u32_small (len_ buf + n)) by lia.
  rewrite (u64_small (ws_pos w + n)), (u64_small (ws_size w + n)) by (unfold n; lia).
  rewrite store_append by assumption.
  reflexivity.
Qed.

Lemma existsb_failed_copy_app (a b : list event) :
  existsb is_failed_copy (a ++ b)
  = existsb is_failed_copy a || existsb is_failed_copy b.
Proof. apply existsb_app. Qed.

Lemma list_back_case (l : list MBuf) :
  l = [] \/ exists init t, l = init ++ [t].
Proof.
  induction l as [|x l _] using rev_ind; [left; reflexivity|].
  right; exists l, x; reflexivity.
Qed.

Lemma back_snoc (init : list MBuf) (t : MBuf) : back (init ++ [t]) = Some t.
Proof. unfold back; rewrite rev_app_distr; reflexivity. Qed.

Lemma pop_back_snoc (init : list MBuf) (t : MBuf) : pop_back (init ++ [t]) = init.
Proof. apply removelast_last. Qed.

Lemma head_len_snoc_le (init : list MBuf) (t t' : MBuf) :
  len_ t <= len_ t' -> head_len (init ++ [t]) <= head_len (init ++ [t']).
Proof. destruct init; simpl; lia. Qed.

Lemma head_len_app_le (a b : list MBuf) :
  Forall cell_ok b -> head_len a <= head_len (a ++ b).
Proof.
  destruct a; simpl; [|lia].
  intros H; destruct H as [|x b [Hx _] _]; simpl; lia.
Qed.

(** What the loop over freshly allocated buffers does, from a state where
    [k] empty buffers are what the rest of the request needs. *)
Lemma ws_fill_spec (src : user_in_ptr) (len : Z) :
  len < 2 ^ 64 ->
  forall (k : nat) (w : ws_state) (buffers : list MBuf),
    0 <= ws_pos w -> fill_fits k (len - ws_pos w) ->
    0 <= ws_size w -> ws_size w + (len - ws_pos w) <= kSizeMax ->
    existsb is_failed_copy (ws_trace w) = false ->
    match ws_fill src len (repeat fresh_mbuf k) w buffers with
    | (status, w', buffers') =>
        let n := ws_pos w' - ws_pos w in
        exists new,
          buffers' = buffers ++ new
          /\ Forall cell_ok new
          /\ Forall (fun b => pkt_len_ b = 0) new
          /\ sum_len new = n
          /\ payload new = user_bytes src (ws_pos w) n
          /\ 0 <= n <= len - ws_pos w
          /\ ws_size w' = ws_size w + n
          /\ copied_in (ws_trace w') = copied_in (ws_trace w) + n
          /\ pages_held (ws_trace w')
             = pages_held (ws_trace w) + Z.of_nat (length new) - Z.of_nat k
          /\ existsb is_failed_alloc (ws_trace w')
             = existsb is_failed_alloc (ws_trace w)
          /\ (status = ZX_OK ->
              ws_pos w' = len /\ existsb is_failed_copy (ws_trace w') = false)
          /\ (status <> ZX_OK ->
              exists count, fails_at (ws_trace w') (ws_pos w') count status)
    end.
Proof.
  intros Hlen; pose proof kPayloadSize_pos as HP; pose proof kPayloadSize_u32 as HP32.
  induction k as [|k IH]; intros w buffers Hpos Hfit Hsz Hcap Hnf.
  - destruct Hfit as [[_ Hr]|[Hk _]]; [|congruence].
    simpl. exists []. rewrite app_nil_r, Z.sub_diag.
    repeat split; try constructor; simpl; try lia; try assumption;
      try (intros; congruence).
  - destruct Hfit as [[Hk _]|[_ Hr]]; [discriminate|].
    rewrite Nat2Z.inj_succ in Hr.
    cbn [repeat ws_fill].
    rewrite write_buffer_eq by (simpl; first [lia | reflexivity]).
    cbn [fresh_mbuf len_ pkt_len_ data_ app]. rewrite Z.sub_0_r, Z.add_0_l.
    set (n := Z.min kPayloadSize (len - ws_pos w)).
    assert (Hn : 0 < n <= kPayloadSize) by (unfold n; lia).
    set (st := uin_status src (ws_pos w) n).
    destruct (st =? ZX_OK) eqn:Est; cbn [negb].
    + apply Z.eqb_eq in Est.
      replace (ZX_OK =? ZX_OK) with true by reflexivity. cbn [negb].
      set (w1 := mkWs (ws_pos w + n) (ws_size w + n)
                      (ws_trace w ++ [EvCopyFromUser (ws_pos w) n st])).
      set (b1 := mkMBuf n 0 (user_bytes src (ws_pos w) n)).
      assert (Hfit' : fill_fits k (len - ws_pos w1)).
      { simpl. destruct k as [|k'].
        - left; split; [reflexivity | unfold n; lia].
        - right; split; [discriminate|]. unfold n; lia. }
      specialize (IH w1 (buffers ++ [b1])
                     ltac:(simpl; lia) Hfit' ltac:(simpl; lia)
                     ltac:(simpl; unfold n; lia)).
      assert (Hnf1 : existsb is_failed_copy (ws_trace w1) = false).
      { simpl. rewrite existsb_failed_copy_app, Hnf; simpl.
        rewrite Est; reflexivity. }
      specialize (IH Hnf1).
      destruct (ws_fill src len (repeat fresh_mbuf k) w1 (buffers ++ [b1]))
        as [[status w'] buffers'].
      destruct IH as (new & Hb & Hok & Hpkt & Hsum & Hpay & Hrange & Hsize
                      & Hcopied & Hheld & Halloc & Hsucc & Hfail).
      simpl in Hsum, Hpay, Hrange, Hsize, Hcopied, Hheld, Halloc.
      exists (b1 :: new).
      rewrite copied_in_app in Hcopied; simpl in Hcopied; rewrite Est in Hcopied.
      rewrite pages_held_app in Hheld; simpl in Hheld.
      rewrite existsb_app in Halloc; simpl in Halloc.
      rewrite orb_false_r in Halloc.
      repeat split.
      * rewrite Hb, <- app_assoc; reflexivity.
      * constructor; [|exact Hok].
        split; simpl; [lia | rewrite user_bytes_length; lia].
      * constructor; [reflexivity | exact Hpkt].
      * simpl. change (fold_right (fun b acc => len_ b + acc) 0 new) with (sum_len new).
        lia.
      * unfold payload in *; simpl. rewrite Hpay.
        replace (ws_pos w' - ws_pos w) with (n + (ws_pos w' - (ws_pos w + n))) by lia.
        rewrite user_bytes_app by lia. reflexivity.
      * lia.
      * lia.
      * lia.
      * replace (ZX_OK =? ZX_OK) with true in Hcopied by reflexivity. lia.
      * simpl length. lia.
      * exact Halloc.
      * apply Hsucc; assumption.
      * apply Hsucc; assumption.
      * exact Hfail.
    + assert (Hst : st <> ZX_OK) by (apply Z.eqb_neq; exact Est).
      rewrite Est. cbn [negb fst snd ws_pos ws_size ws_trace].
      exists []. rewrite app_nil_r, Z.sub_diag.
      rewrite !copied_in_app, !pages_held_app, !existsb_app.
      cbn [copied_in pages_held existsb is_failed_alloc FreeMBufs length].
      rewrite Est, repeat_length, !orb_false_r.
      split_ands; try constructor; try lia; try reflexivity.
      intros _. exists n.
      exists (ws_trace w), [EvFreeList (S (length (repeat fresh_mbuf k)))].
      split_ands.
      * rewrite <- app_assoc; reflexivity.
      * exact Hst.
      * exact Hnf.
      * right; eexists; reflexivity.
Qed.

Lemma chain_inv_size_nonneg (c : MBufChain) : chain_inv c -> 0 <= size_ c.
Proof.
  intros (Hok & Hro & Hnil & Hhd & Hsz & _).
  destruct (buffers_ c) as [|b l] eqn:E.
  - rewrite Hsz, Hnil by reflexivity. simpl; lia.
  - specialize (Hhd ltac:(discriminate)). simpl in Hhd.
    inversion Hok; subst.
    pose proof (sum_len_nonneg l ltac:(assumption)).
    rewrite Hsz; simpl. change (fold_right _ 0 l) with (sum_len l). lia.
Qed.

Lemma fails_at_existsb (t : list event) (off count : Z) (st : zx_status_t) :
  fails_at t off count st -> existsb is_failed_copy t = true.
Proof.
  intros (t1 & t2 & -> & Hst & _ & _).
  rewrite existsb_app; simpl.
  apply Z.eqb_neq in Hst; rewrite Hst; simpl.
  apply orb_true_r.
Qed.

(** The write into the tail buffer. *)
Lemma ws_tail_spec (src : user_in_ptr) (len : Z) (c : MBufChain) :
  Forall cell_ok (buffers_ c) -> 0 <= size_ c ->
  0 <= len < 2 ^ 64 -> size_ c + len <= kSizeMax ->
  match ws_tail src len c with
  | (status, w1, b1) =>
      let n := ws_pos w1 in
      0 <= n <= len
      /\ ws_size w1 = size_ c + n
      /\ sum_len b1 = sum_len (buffers_ c) + n
      /\ payload b1 = payload (buffers_ c) ++ user_bytes src 0 n
      /\ Forall cell_ok b1
      /\ head_len (buffers_ c) <= head_len b1
      /\ length b1 = length (buffers_ c)
      /\ copied_in (ws_trace w1) = n
      /\ pages_held (ws_trace w1) = 0
      /\ existsb is_failed_alloc (ws_trace w1) = false
      /\ (status = ZX_OK -> existsb is_failed_copy (ws_trace w1) = false)
      /\ (status <> ZX_OK -> exists count, fails_at (ws_trace w1) n count status)
  end.
Proof.
  intros Hok Hsz Hlen Hcap.
  pose proof kPayloadSize_pos as HP; pose proof kPayloadSize_u32 as HP32.
  assert (Hidle :
    let n := 0 in
    0 <= n <= len
    /\ size_ c = size_ c + n
    /\ sum_len (buffers_ c) = sum_len (buffers_ c) + n
    /\ payload (buffers_ c) = payload (buffers_ c) ++ user_bytes src 0 n
    /\ Forall cell_ok (buffers_ c)
    /\ head_len (buffers_ c) <= head_len (buffers_ c)
    /\ length (buffers_ c) = length (buffers_ c)
    /\ copied_in [] = n
    /\ pages_held [] = 0
    /\ existsb is_failed_alloc [] = false
    /\ (ZX_OK = ZX_OK -> existsb is_failed_copy [] = false)
    /\ (ZX_OK <> ZX_OK -> exists count, fails_at [] n count ZX_OK)).
  { simpl. rewrite app_nil_r.
    split_ands; try lia; try reflexivity; try assumption. }
  unfold ws_tail.
  destruct c as [b ro sz]; cbn [buffers_ size_ read_cursor_off_] in *.
  destruct (list_back_case b) as [E | (init & t & E)]; subst b.
  - exact Hidle.
  - rewrite back_snoc.
    assert (Ht : cell_ok t).
    { apply Forall_app in Hok. destruct Hok as [_ Hok].
      inversion Hok; assumption. }
    destruct Ht as [Htlen Htdata].
    unfold rem at 1. rewrite u64_small by lia.
    destruct (kPayloadSize - len_ t >? 0) eqn:Erem; [|exact Hidle].
    rewrite write_buffer_eq by (simpl; lia).
    cbn [ws_pos ws_size ws_trace app]. rewrite Z.sub_0_r.
    set (n := Z.min (kPayloadSize - len_ t) len).
    set (st := uin_status src 0 n).
    assert (Hn : 0 <= n <= len) by (unfold n; lia).
    rewrite pop_back_snoc.
    destruct (st =? ZX_OK) eqn:Est; cbn [ws_pos ws_size ws_trace].
    + rewrite !sum_len_app, !payload_app, !length_app.
      unfold payload; simpl. rewrite Est, !app_nil_r.
      split_ands; try lia; try reflexivity.
      * rewrite <- app_assoc; reflexivity.
      * apply Forall_app in Hok. destruct Hok as [Hinit _].
        apply Forall_app; split; [exact Hinit|].
        constructor; [|constructor].
        split; simpl; [unfold n; lia|].
        rewrite length_app, user_bytes_length. lia.
      * apply head_len_snoc_le; simpl; lia.
    + assert (Hst : st <> ZX_OK) by (apply Z.eqb_neq; exact Est).
      simpl. rewrite Est, app_nil_r.
      split_ands; try lia; try reflexivity; try assumption.
      intros _. exists n, [], []. split_ands; auto.
Qed.

(** The allocation of further buffers and their filling. *)
Lemma ws_alloc_spec (pmm : Z -> bool) (src : user_in_ptr) (len : Z)
  (w1 : ws_state) (b1 : list MBuf) :
  len < 2 ^ 64 -> 0 <= ws_pos w1 <= len ->
  0 <= ws_size w1 -> ws_size w1 + (len - ws_pos w1) <= kSizeMax ->
  existsb is_failed_copy (ws_trace w1) = false ->
  match ws_alloc pmm src len w1 b1 with
  | (status, w2, b2) =>
      let n := ws_pos w2 - ws_pos w1 in
      exists new,
        b2 = b1 ++ new
        /\ Forall cell_ok new
        /\ sum_len new = n
        /\ payload new = user_bytes src (ws_pos w1) n
        /\ 0 <= n <= len - ws_pos w1
        /\ ws_size w2 = ws_size w1 + n
        /\ copied_in (ws_trace w2) = copied_in (ws_trace w1) + n
        /\ pages_held (ws_trace w2)
           = pages_held (ws_trace w1) + Z.of_nat (length new)
        /\ (status = ZX_OK ->
            existsb is_failed_copy (ws_trace w2) = false
            /\ (existsb is_failed_alloc (ws_trace w2) = false -> ws_pos w2 = len))
        /\ (status <> ZX_OK ->
            exists count, fails_at (ws_trace w2) (ws_pos w2) count status)
  end.
Proof.
  intros Hlen Hpos Hsz Hcap Hnf.
  unfold ws_alloc.
  destruct (ws_pos w1 =? len) eqn:Epos; cbn [negb].
  - apply Z.eqb_eq in Epos.
    exists []. rewrite app_nil_r, Z.sub_diag.
    split_ands; try constructor; simpl; try lia; try assumption;
      try (intros; congruence).
  - apply Z.eqb_neq in Epos.
    rewrite (u64_small (len - ws_pos w1)) by lia.
    destruct (NumBuffersForPayload_fits (len - ws_pos w1) ltac:(lia)) as [Enum Hfit].
    set (num := NumBuffersForPayload (len - ws_pos w1)) in *.
    assert (Hnum : 0 <= num).
    { rewrite Enum. pose proof kPayloadSize_pos.
      assert (0 <= (len - ws_pos w1 - 1) / kPayloadSize) by (apply Z.div_pos; lia).
      lia. }
    unfold AllocMBufs.
    destruct (pmm num).
    + set (w := mkWs (ws_pos w1) (ws_size w1) (ws_trace w1 ++ [EvAllocPages num true])).
      pose proof (ws_fill_spec src len Hlen (Z.to_nat num) w b1) as Hs.
      cbn [w ws_pos ws_size ws_trace] in Hs.
      specialize (Hs ltac:(lia) Hfit Hsz Hcap).
      rewrite existsb_app in Hs; simpl in Hs. rewrite Hnf in Hs.
      specialize (Hs eq_refl).
      destruct (ws_fill src len (repeat fresh_mbuf (Z.to_nat num)) w b1)
        as [[status w2] b2].
      destruct Hs as (new & Hb & Hok & _ & Hsum & Hpay & Hrange & Hsize
                      & Hcopied & Hheld & Halloc & Hsucc & Hfail).
      rewrite copied_in_app in Hcopied; simpl in Hcopied.
      rewrite pages_held_app in Hheld; simpl in Hheld.
      rewrite Z2Nat.id in Hheld by assumption.
      exists new.
      split_ands; try assumption; try lia.
      intros Hst; destruct (Hsucc Hst) as [Hp Hc].
      split; [exact Hc | intros _; exact Hp].
    + exists []. rewrite app_nil_r, Z.sub_diag.
      cbn [ws_pos ws_size ws_trace].
      rewrite copied_in_app, pages_held_app, !existsb_app. simpl.
      rewrite Hnf, orb_true_r.
      split_ands; try constructor; try lia; try reflexivity;
        try (intros; congruence).
Qed.

(** What a stream write does to a chain that satisfies the invariant. *)
Lemma WriteStream_spec (pmm : Z -> bool) (src : user_in_ptr) (len0 : Z)
  (c : MBufChain) :
  chain_inv c -> 0 <= len0 < 2 ^ 64 ->
  let r := WriteStream pmm src len0 c in
  let len := Z.min (kSizeMax - size_ c) len0 in
  let w := r_count r in
  0 <= w <= len
  /\ size_ (r_chain r) = size_ c + w
  /\ read_cursor_off_ (r_chain r) = read_cursor_off_ c
  /\ sum_len (buffers_ (r_chain r)) = sum_len (buffers_ c) + w
  /\ payload (buffers_ (r_chain r)) = payload (buffers_ c) ++ user_bytes src 0 w
  /\ Forall cell_ok (buffers_ (r_chain r))
  /\ head_len (buffers_ c) <= head_len (buffers_ (r_chain r))
  /\ (length (buffers_ c) <= length (buffers_ (r_chain r)))%nat
  /\ copied_in (r_trace r) = w
  /\ pages_held (r_trace r)
     = Z.of_nat (length (buffers_ (r_chain r))) - Z.of_nat (length (buffers_ c))
  /\ r_user r = []
  /\ ((existsb is_failed_copy (r_trace r) = false
       /\ r_status r = (if w =? 0 then ZX_ERR_SHOULD_WAIT else ZX_OK)
       /\ (existsb is_failed_alloc (r_trace r) = false -> w = len))
      \/ (exists count, fails_at (r_trace r) w count (r_status r))).
Proof.
  intros Hinv Hlen0.
  pose proof (chain_inv_size_nonneg c Hinv) as Hsz.
  destruct Hinv as (Hok & Hro & Hnil & Hhd & Hsize & Hmax).
  pose proof kSizeMax_u32 as HM.
  unfold WriteStream.
  rewrite (u64_small (kSizeMax - size_ c)) by lia.
  set (len := Z.min (kSizeMax - size_ c) len0).
  assert (Hlen : 0 <= len < 2 ^ 64) by (unfold len; lia).
  pose proof (ws_tail_spec src len c Hok Hsz Hlen ltac:(unfold len; lia)) as H1.
  destruct (ws_tail src len c) as [[status w1] b1].
  cbv zeta in H1.
  destruct H1 as (Hn1 & Hsz1 & Hsum1 & Hpay1 & Hok1 & Hhd1 & Hlen1 & Hcp1
                  & Hheld1 & Hfa1 & Hsucc1 & Hfail1).
  destruct (status =? ZX_OK) eqn:Est; cbn [negb].
  - apply Z.eqb_eq in Est. specialize (Hsucc1 Est).
    pose proof (ws_alloc_spec pmm src len w1 b1 (proj2 Hlen) Hn1
                  ltac:(lia) ltac:(lia) Hsucc1) as H2.
    destruct (ws_alloc pmm src len w1 b1) as [[status2 w2] b2].
    cbv zeta in H2.
    destruct H2 as (new & Hb2 & Hok2 & Hsum2 & Hpay2 & Hn2 & Hsz2 & Hcp2
                    & Hheld2 & Hsucc2 & Hfail2).
    assert (Hcommon :
      forall st,
        (st = status2 \/ status2 = ZX_OK) ->
        let r := mkResult (mkChain b2 (read_cursor_off_ c) (ws_size w2))
                          (ws_pos w2) st [] (ws_trace w2) in
        let w := r_count r in
        0 <= w <= len
        /\ size_ (r_chain r) = size_ c + w
        /\ read_cursor_off_ (r_chain r) = read_cursor_off_ c
        /\ sum_len (buffers_ (r_chain r)) = sum_len (buffers_ c) + w
        /\ payload (buffers_ (r_chain r))
           = payload (buffers_ c) ++ user_bytes src 0 w
        /\ Forall cell_ok (buffers_ (r_chain r))
        /\ head_len (buffers_ c) <= head_len (buffers_ (r_chain r))
        /\ (length (buffers_ c) <= length (buffers_ (r_chain r)))%nat
        /\ copied_in (r_trace r) = w
        /\ pages_held (r_trace r)
           = Z.of_nat (length (buffers_ (r_chain r)))
             - Z.of_nat (length (buffers_ c))
        /\ r_user r = []).
    { intros st _; simpl. subst b2.
      rewrite sum_len_app, payload_app, length_app.
      split_ands; try lia; try reflexivity.
      - rewrite Hpay1, Hpay2, <- app_assoc. f_equal.
        replace (ws_pos w2) with (ws_pos w1 + (ws_pos w2 - ws_pos w1)) at 2 by lia.
        rewrite user_bytes_app by lia. reflexivity.
      - apply Forall_app; split; assumption.
      - pose proof (head_len_app_le b1 new Hok2). lia. }
    destruct (status2 =? ZX_OK) eqn:Est2; cbn [negb].
    + apply Z.eqb_eq in Est2. destruct (Hsucc2 Est2) as [Hnf2 Hfull].
      destruct (ws_pos w2 =? 0) eqn:E0.
      * pose proof (Hcommon ZX_ERR_SHOULD_WAIT (or_intror Est2)) as Hc.
        cbv zeta in Hc. cbn [r_chain r_count r_status r_user r_trace] in *.
        split_ands; try apply Hc.
        left; rewrite E0; split_ands; auto.
      * pose proof (Hcommon ZX_OK (or_intror Est2)) as Hc.
        cbv zeta in Hc. cbn [r_chain r_count r_status r_user r_trace] in *.
        split_ands; try apply Hc.
        left; rewrite E0; split_ands; auto.
    + apply Z.eqb_neq in Est2.
      pose proof (Hcommon status2 (or_introl eq_refl)) as Hc.
      cbv zeta in Hc. cbn [r_chain r_count r_status r_user r_trace] in *.
      split_ands; try apply Hc.
      right; apply Hfail2; assumption.
  - apply Z.eqb_neq in Est. destruct (Hfail1 Est) as [count Hf].
    cbn [r_chain r_count r_status r_user r_trace buffers_ size_ read_cursor_off_].
    split_ands; try assumption; try lia; try reflexivity.
    right; exists count; exact Hf.
Qed.

(** A stream write keeps the invariant. *)
Lemma WriteStream_inv (pmm : Z -> bool) (src : user_in_ptr) (len : Z)
  (c : MBufChain) :
  chain_inv c -> 0 <= len < 2 ^ 64 ->
  chain_inv (r_chain (WriteStream pmm src len c)).
Proof.
  intros Hinv Hlen.
  pose proof (WriteStream_spec pmm src len c Hinv Hlen) as Hs.
  cbv zeta in Hs.
  destruct Hs as (Hw & Hsz & Hro & Hsum & _ & Hok & Hhd & Hlen' & _).
  pose proof (chain_inv_size_nonneg c Hinv) as Hnn.
  destruct Hinv as (_ & Hro0 & Hnil0 & Hhd0 & Hsize0 & Hmax0).
  set (c' := r_chain (WriteStream pmm src len c)) in *.
  unfold chain_inv, cursor_inv; split_ands.
  - exact Hok.
  - lia.
  - intros E. rewrite E in Hlen'. simpl in Hlen'.
    destruct (buffers_ c); [rewrite Hro; auto | simpl in Hlen'; lia].
  - intros Hne. rewrite Hro.
    destruct (buffers_ c) as [|b l] eqn:E.
    + rewrite Hnil0 by reflexivity.
      destruct (buffers_ c') as [|b' l'] eqn:E'; [congruence|].
      inversion Hok as [|? ? [Hb _] _]; subst. simpl; lia.
    + specialize (Hhd0 ltac:(discriminate)). lia.
  - lia.
  - lia.
Qed.

(** ** The read loop *)

Lemma while_loop_inv {S : Type} (I : S -> Prop) (m : S -> nat)
  (cond : S -> bool) (body : S -> S) :
  (forall s, I s -> cond s = true ->
             I (body s) /\ ((m (body s) < m s)%nat \/ cond (body s) = false)) ->
  (forall s, I s -> cond s = true -> (0 < m s)%nat) ->
  forall fuel s, I s -> (m s <= fuel)%nat ->
    exists s', while_loop fuel cond body s = Some s' /\ I s' /\ cond s' = false.
Proof.
  intros Hstep Hpos.
  induction fuel as [|fuel IH]; intros s Hs Hm; simpl.
  - destruct (cond s) eqn:Ec; [|exists s; auto].
    specialize (Hpos s Hs Ec); lia.
  - destruct (cond s) eqn:Ec; [|exists s; auto].
    destruct (Hstep s Hs Ec) as [Hb [Hlt | Hend]].
    + apply IH; [exact Hb | lia].
    + exists (body s). split; [|auto].
      destruct fuel; simpl; rewrite Hend; reflexivity.
Qed.

Lemma cursor_inv_size (b : list MBuf) (ro sz : Z) :
  cursor_inv b ro sz -> 0 <= sz /\ (sz = 0 <-> b = []).
Proof.
  intros (Hok & Hro & Hnil & Hhd & Hsz & _).
  destruct b as [|x l].
  - rewrite Hsz, Hnil by reflexivity. simpl; split; [lia | tauto].
  - specialize (Hhd ltac:(discriminate)). simpl in Hhd.
    inversion Hok; subst.
    pose proof (sum_len_nonneg l ltac:(assumption)).
    simpl. change (fold_right _ 0 l) with (sum_len l).
    split; [lia|]. split; [lia | discriminate].
Qed.

(** One pass of the body of a consuming read, with the wrap-arounds
    resolved. *)
Lemma rh_body_read_eq (datagram : bool) (dst : user_out_ptr) (len : Z)
  (s : rh_state) (b : MBuf) (rest : list MBuf) :
  rh_buffers s = b :: rest -> rh_iter s = O ->
  len_ b <= kPayloadSize -> 0 <= rh_read_off s < len_ b ->
  0 <= rh_pos s < len -> len < 2 ^ 64 ->
  len_ b - rh_read_off s <= rh_size s < 2 ^ 64 ->
  let ro := rh_read_off s in
  let n := Z.min (len_ b - ro) (len - rh_pos s) in
  let st := uout_status dst (rh_pos s) n in
  let tr := rh_trace s ++ [EvCopyToUser (rh_pos s) n st] in
  rh_body false datagram dst len s =
  if st =? ZX_OK then
    let user := store (rh_user s) (rh_pos s) (load (data_ b) ro n) in
    if (ro + n =? len_ b) || datagram then
      mkRh rest (rh_size s - (len_ b - ro)) (rh_pos s + n) 0 0
           (b :: rh_free_list s) st user tr
    else
      mkRh (b :: rest) (rh_size s - n) (rh_pos s + n) 0 (ro + n)
           (rh_free_list s) st user tr
  else
    if datagram then
      mkRh rest (rh_size s - (len_ b - ro)) (rh_pos s) 0 0
           (b :: rh_free_list s) st (rh_user s) tr
    else
      mkRh (b :: rest) (rh_size s) (rh_pos s) 0 ro
           (rh_free_list s) st (rh_user s) tr.
Proof.
  intros Hb Hit HbP Hro Hpos Hlen Hsz ro n st tr.
  pose proof kPayloadSize_u32 as HP32.
  unfold rh_body. rewrite Hb, Hit. cbn [nth_error].
  unfold copy_array_to_user.
  rewrite (u32_small (len_ b - rh_read_off s)) by lia.
  rewrite (u64_small (len_ b - rh_read_off s)) by lia.
  rewrite (u64_small (len - rh_pos s)) by lia.
  fold ro; fold n; fold st; fold tr.
  assert (Hn : 0 <= n <= len_ b - ro) by (unfold n, ro; lia).
  assert (Hn' : n <= len - rh_pos s) by (unfold n; lia).
  destruct (st =? ZX_OK) eqn:Est.
  - rewrite (u32_small n) by lia.
    rewrite (u32_small (ro + n)) by (unfold ro in *; lia).
    rewrite (u64_small (rh_pos s + n)) by lia.
    rewrite (u64_small (rh_size s - n)) by (unfold ro in *; lia).
    destruct (ro + n =? len_ b) eqn:Efull; cbn [orb].
    + apply Z.eqb_eq in Efull.
      rewrite (u32_small (len_ b - (ro + n))) by lia.
      rewrite (u64_small (rh_size s - n - (len_ b - (ro + n))))
        by (unfold ro in *; lia).
      destruct datagram; f_equal; lia.
    + destruct datagram; [|reflexivity].
      apply Z.eqb_neq in Efull.
      rewrite (u32_small (len_ b - (ro + n))) by lia.
      rewrite (u64_small (rh_size s - n - (len_ b - (ro + n))))
        by (unfold ro in *; lia).
      f_equal; lia.
  - assert (E : (ro =? len_ b) = false) by (apply Z.eqb_neq; unfold ro; lia).
    rewrite E; cbn [orb].
    destruct datagram; [|reflexivity].
    rewrite (u32_small (len_ b - ro)) by (unfold ro; lia).
    rewrite (u64_small (rh_size s - (len_ b - ro))) by (unfold ro in *; lia).
    reflexivity.
Qed.

Lemma cursor_inv_pop (b : MBuf) (rest : list MBuf) (ro sz : Z) :
  cursor_inv (b :: rest) ro sz -> cursor_inv rest 0 (sz - (len_ b - ro)).
Proof.
  intros (Hok & Hro & _ & Hhd & Hsz & Hmax).
  specialize (Hhd ltac:(discriminate)); simpl in Hhd.
  inversion Hok as [|? ? Hb Hrest]; subst.
  unfold cursor_inv; split_ands; auto; try lia.
  - intros Hne. destruct rest as [|x l]; [congruence|].
    inversion Hrest as [|? ? [Hx _] _]; subst. simpl; lia.
  - simpl. change (fold_right _ 0 rest) with (sum_len rest). lia.
Qed.

Lemma cursor_inv_advance (b : MBuf) (rest : list MBuf) (ro sz n : Z) :
  cursor_inv (b :: rest) ro sz -> 0 <= n -> ro + n < len_ b ->
  cursor_inv (b :: rest) (ro + n) (sz - n).
Proof.
  intros (Hok & Hro & _ & Hhd & Hsz & Hmax) Hn Hlt.
  unfold cursor_inv; split_ands; auto; try lia; discriminate.
Qed.

(** The body of a consuming read keeps the loop invariant and either drops
    the front buffer or ends the loop. *)
Lemma rh_body_read_step (datagram : bool) (dst : user_out_ptr) (len : Z)
  (s : rh_state) :
  len < 2 ^ 64 -> read_inv s -> rh_cond len s = true ->
  read_inv (rh_body false datagram dst len s)
  /\ ((length (rh_buffers (rh_body false datagram dst len s))
       < length (rh_buffers s))%nat
      \/ rh_cond len (rh_body false datagram dst len s) = false).
Proof.
  intros Hlen (Hinv & Hit & Hpos) Hcond.
  pose proof kSizeMax_u32 as HM.
  unfold rh_cond in Hcond.
  apply andb_prop in Hcond; destruct Hcond as [Hcond Hst].
  apply andb_prop in Hcond; destruct Hcond as [Hlt Hiter].
  apply Z.ltb_lt in Hlt. apply Nat.ltb_lt in Hiter. rewrite Hit in Hiter.
  destruct (rh_buffers s) as [|b rest] eqn:Eb; [simpl in Hiter; lia|].
  pose proof Hinv as (Hok & Hro & _ & Hhd & Hsz & Hmax).
  specialize (Hhd ltac:(discriminate)); simpl in Hhd.
  inversion Hok as [|? ? [HbP _] Hrest]; subst.
  pose proof (sum_len_nonneg rest Hrest) as Hsum.
  assert (Hsize : len_ b - rh_read_off s <= rh_size s < 2 ^ 64).
  { rewrite sum_len_cons in Hsz. lia. }
  rewrite (rh_body_read_eq datagram dst len s b rest) by (auto; lia).
  cbv zeta.
  set (n := Z.min (len_ b - rh_read_off s) (len - rh_pos s)).
  assert (Hn : 0 <= n <= len_ b - rh_read_off s) by (unfold n; lia).
  destruct (uout_status dst (rh_pos s) n =? ZX_OK) eqn:Est.
  - destruct ((rh_read_off s + n =? len_ b) || datagram) eqn:Epop.
    + split; [|left; simpl; lia].
      unfold read_inv; split_ands; cbn [rh_buffers rh_read_off rh_size rh_iter rh_pos];
        [apply (cursor_inv_pop b rest); exact Hinv | reflexivity | lia].
    + apply orb_false_elim in Epop; destruct Epop as [Efull _].
      apply Z.eqb_neq in Efull.
      split.
      * unfold read_inv; split_ands; cbn [rh_buffers rh_read_off rh_size rh_iter rh_pos];
          [apply cursor_inv_advance; [exact Hinv | lia | lia] | reflexivity | lia].
      * right. unfold rh_cond; cbn [rh_pos].
        replace (rh_pos s + n <? len) with false; [reflexivity|].
        symmetry; apply Z.ltb_ge. unfold n in *; lia.
  - destruct datagram.
    + split; [|left; simpl; lia].
      unfold read_inv; split_ands; cbn [rh_buffers rh_read_off rh_size rh_iter rh_pos];
        [apply (cursor_inv_pop b rest); exact Hinv | reflexivity | lia].
    + split.
      * unfold read_inv; split_ands; cbn [rh_buffers rh_read_off rh_size rh_iter rh_pos];
          [exact Hinv | reflexivity | lia].
      * right. unfold rh_cond; cbn [rh_status]. rewrite Est.
        apply andb_false_r.
Qed.

(** Dropping the body buffers keeps the buffers, cursor and count together. *)
Lemma rh_drain_inv (buffers : list MBuf) :
  forall size read_off free_list,
    cursor_inv buffers read_off size ->
    match rh_drain buffers size read_off free_list with
    | (buffers', size', read_off', _) => cursor_inv buffers' read_off' size'
    end.
Proof.
  pose proof kSizeMax_u32 as HM.
  induction buffers as [|cur rest IH]; intros size read_off free_list Hinv; simpl.
  - exact Hinv.
  - destruct (pkt_len_ cur =? 0); [|exact Hinv].
    pose proof Hinv as (Hok & Hro & _ & Hhd & Hsz & Hmax).
    specialize (Hhd ltac:(discriminate)); simpl in Hhd.
    inversion Hok as [|? ? [HbP _] Hrest]; subst.
    pose proof (sum_len_nonneg rest Hrest) as Hsum.
    pose proof kPayloadSize_u32.
    simpl in Hmax.
    change (fold_right (fun b acc => len_ b + acc) 0 rest) with (sum_len rest) in *.
    rewrite (u32_small (len_ cur - read_off)) by lia.
    rewrite u64_small by (simpl; lia).
    apply IH. apply (cursor_inv_pop cur rest). exact Hinv.
Qed.

(** The length a read works with is never more than the one it was given. *)
Lemma ReadHelper_clamp (c : MBufChain) (len0 : Z) (datagram : bool) :
  buffers_ c <> [] ->
  exists len,
    (if datagram then
       match front (buffers_ c) with
       | Some b => Done (if len0 >? pkt_len_ b then pkt_len_ b else len0)
       | None => Undefined
       end
     else Done len0) = Done len
    /\ len <= len0.
Proof.
  intros Hne. destruct datagram; [|exists len0; split; [reflexivity | lia]].
  destruct (buffers_ c) as [|b l]; [congruence|]. simpl.
  eexists; split; [reflexivity|].
  destruct (len0 >? pkt_len_ b) eqn:E; [|lia].
  rewrite Z.gtb_ltb in E; apply Z.ltb_lt in E; lia.
Qed.

(** A consuming read returns and keeps the invariant. *)
Lemma Read_inv (c : MBufChain) (dst : user_out_ptr) (len0 : Z) (datagram : bool) :
  chain_inv c -> len0 < 2 ^ 64 ->
  exists r, Read c dst len0 datagram = Done r /\ chain_inv (r_chain r).
Proof.
  intros Hinv Hlen0.
  unfold Read, ReadHelper.
  destruct (size_ c =? 0) eqn:E0; [eexists; split; [reflexivity | exact Hinv]|].
  apply Z.eqb_neq in E0.
  assert (Hne : buffers_ c <> []).
  { intros E. apply E0. apply (cursor_inv_size _ _ _ Hinv); exact E. }
  destruct (ReadHelper_clamp c len0 datagram Hne) as (len & -> & Hlen).
  destruct (while_loop_inv read_inv (fun s => length (rh_buffers s))
              (rh_cond len) (rh_body false datagram dst len)) with
    (fuel := length (buffers_ c))
    (s := mkRh (buffers_ c) (size_ c) 0 0 (read_cursor_off_ c) [] ZX_OK [] [])
    as (s & -> & (Hs & _ & _) & _).
  - intros s Hs Hc. apply rh_body_read_step; [lia | exact Hs | exact Hc].
  - intros s (_ & Hit & _) Hc. unfold rh_cond in Hc.
    apply andb_prop in Hc; destruct Hc as [Hc _].
    apply andb_prop in Hc; destruct Hc as [_ Hc].
    apply Nat.ltb_lt in Hc. lia.
  - unfold read_inv; simpl; split_ands; [exact Hinv | reflexivity | lia].
  - simpl; lia.
  - cbn [negb andb].
    destruct datagram.
    + pose proof (rh_drain_inv (rh_buffers s) (rh_size s) (rh_read_off s)
                               (rh_free_list s) Hs) as Hd.
      destruct (rh_drain (rh_buffers s) (rh_size s) (rh_read_off s) (rh_free_list s))
        as [[[buffers size1] read_off] free_list].
      eexists; split; [reflexivity | exact Hd].
    + eexists; split; [reflexivity | exact Hs].
Qed.

(** The invariant of the loop of a peek: the chain's buffers and count are
    those it started with, nothing was unlinked, and only user copies were
    made. *)
Lemma Peek_unchanged (c : MBufChain) (dst : user_out_ptr) (len0 : Z)
  (datagram : bool) :
  (size_ c <> 0 -> buffers_ c <> []) ->
  exists r,
    Peek c dst len0 datagram = Done r
    /\ r_chain r = c
    /\ existsb is_free (r_trace r) = false
    /\ existsb is_alloc (r_trace r) = false.
Proof.
  intros Hfront.
  unfold Peek, ReadHelper.
  destruct (size_ c =? 0) eqn:E0; [eexists; split_ands; reflexivity|].
  apply Z.eqb_neq in E0. specialize (Hfront E0).
  destruct (ReadHelper_clamp c len0 datagram Hfront) as (len & -> & _).
  set (I := fun s : rh_state =>
              rh_buffers s = buffers_ c /\ rh_size s = size_ c
              /\ existsb is_free (rh_trace s) = false
              /\ existsb is_alloc (rh_trace s) = false).
  destruct (while_loop_inv I (fun s => length (rh_buffers s) - rh_iter s)%nat
              (rh_cond len) (rh_body true datagram dst len)) with
    (fuel := length (buffers_ c))
    (s := mkRh (buffers_ c) (size_ c) 0 0 (read_cursor_off_ c) [] ZX_OK [] [])
    as (s & -> & (Hb & Hsz & Hfree & Halloc) & _).
  - intros s (Hb & Hsz & Hfree & Halloc) Hc. unfold rh_cond in Hc.
    apply andb_prop in Hc; destruct Hc as [Hc _].
    apply andb_prop in Hc; destruct Hc as [_ Hc].
    apply Nat.ltb_lt in Hc.
    unfold rh_body.
    destruct (nth_error (rh_buffers s) (rh_iter s)) as [cur|] eqn:En;
      [|apply nth_error_None in En; lia].
    cbn [rh_buffers rh_size rh_trace rh_iter].
    split; [|left; lia].
    unfold I; cbn [rh_buffers rh_size rh_trace].
    rewrite !existsb_app, Hfree, Halloc. auto.
  - intros s _ Hc. unfold rh_cond in Hc.
    apply andb_prop in Hc; destruct Hc as [Hc _].
    apply andb_prop in Hc; destruct Hc as [_ Hc].
    apply Nat.ltb_lt in Hc. lia.
  - unfold I; simpl; auto.
  - simpl; lia.
  - cbn [negb andb]. eexists; split; [reflexivity|].
    cbn [r_chain r_trace]. rewrite Hb, Hsz.
    destruct c; auto.
Qed.

(** A datagram write keeps the invariant. *)
Lemma WriteDatagram_inv (pmm : Z -> bool) (src : user_in_ptr) (len : Z)
  (c : MBufChain) :
  chain_inv c -> 0 <= len < 2 ^ 64 ->
  exists r, WriteDatagram pmm src len c = Done r /\ chain_inv (r_chain r).
Proof.
  intros Hinv Hlen.
  destruct (WriteDatagram_total pmm src len c Hlen) as (r & Hr & Hfail).
  exists r; split; [exact Hr|].
  destruct (Z.eq_dec (r_status r) ZX_OK) as [Hok | Hno];
    [|destruct (Hfail Hno) as (-> & _); exact Hinv].
  clear Hfail. revert Hr.
  pose proof (proj1 (cursor_inv_size _ _ _ Hinv)) as Hnn.
  pose proof kSizeMax_u32 as HM.
  unfold WriteDatagram.
  destruct (len =? 0) eqn:E0; [intros H; inversion H; subst; discriminate|].
  destruct (len >? kSizeMax) eqn:E1; [intros H; inversion H; subst; discriminate|].
  apply Z.eqb_neq in E0.
  rewrite Z.gtb_ltb in E1; apply Z.ltb_ge in E1.
  destruct Hinv as (Hcells & Hro & Hnil & Hhd & Hsz & Hmax).
  rewrite (u64_small (len + size_ c)) by lia.
  destruct (len + size_ c >? kSizeMax) eqn:E2;
    [intros H; inversion H; subst; discriminate|].
  rewrite Z.gtb_ltb in E2; apply Z.ltb_ge in E2.
  destruct (NumBuffersForPayload_fits len ltac:(lia)) as [Enum Hfit].
  unfold AllocMBufs.
  destruct (pmm _); [|intros H; inversion H; subst; discriminate].
  pose proof (wd_copy_spec src len (proj2 Hlen)
                (Z.to_nat (NumBuffersForPayload len)) 0 ltac:(lia)) as Hs.
  rewrite Z.sub_0_r in Hs. specialize (Hs Hfit).
  destruct (wd_copy src len _ 0) as [[bufs'|] evs];
    [|intros H; inversion H; subst; discriminate].
  destruct Hs as (Hok' & _ & Hpay & _).
  destruct bufs' as [|b bs]; [discriminate|].
  intros H; inversion H; subst; clear H.
  cbn [r_chain].
  set (b' := mkMBuf (len_ b) (u32 len) (data_ b)).
  assert (Hok2 : Forall cell_ok (b' :: bs)).
  { inversion Hok'; subst. constructor; assumption. }
  assert (Hsum : sum_len (b' :: bs) = len).
  { rewrite sum_len_payload by exact Hok2.
    change (payload (b' :: bs)) with (payload (b :: bs)).
    rewrite Hpay, user_bytes_length. lia. }
  unfold chain_inv, cursor_inv; cbn [buffers_ read_cursor_off_ size_].
  rewrite (u64_small (size_ c + len)) by lia.
  split_ands.
  - apply Forall_app; split; assumption.
  - exact Hro.
  - intros E. apply app_eq_nil in E. destruct E; discriminate.
  - intros _. destruct (buffers_ c) as [|x l] eqn:E.
    + rewrite Hnil by reflexivity. simpl.
      pose proof (Forall_inv Hok2) as [Hb _]. simpl in Hb; lia.
    + simpl. apply Hhd; discriminate.
  - rewrite sum_len_app, Hsum. lia.
  - lia.
Qed.

(** ** Sequences of operations *)

Lemma empty_chain_inv : chain_inv empty_chain.
Proof.
  pose proof kSizeMax_pos.
  unfold chain_inv, cursor_inv, empty_chain; simpl.
  split_ands; auto; try lia. congruence.
Qed.

Lemma step_inv (o : op) (c : MBufChain) :
  chain_inv c -> op_ok o ->
  exists r, step o c = Done r /\ chain_inv (r_chain r).
Proof.
  intros Hinv Hok. destruct o as [pmm src len|pmm src len|dst len dg|dst len dg];
    unfold op_ok in Hok; simpl in Hok; simpl.
  - eexists; split; [reflexivity|]. apply WriteStream_inv; assumption.
  - apply WriteDatagram_inv; assumption.
  - apply Read_inv; [assumption | lia].
  - destruct (Peek_unchanged c dst len dg) as (r & Hr & Hc & _).
    + intros Hne E. apply Hne. apply (cursor_inv_size _ _ _ Hinv); exact E.
    + exists r; split; [exact Hr | rewrite Hc; exact Hinv].
Qed.

Lemma run_inv (ops : list op) :
  forall c, chain_inv c -> Forall op_ok ops ->
  exists rs,
    run ops c = Done rs
    /\ length rs = length ops
    /\ Forall (fun r => chain_inv (r_chain r)) rs.
Proof.
  induction ops as [|o ops IH]; intros c Hinv Hok; simpl.
  - exists []; auto.
  - inversion Hok as [|? ? Ho Hops]; subst.
    destruct (step_inv o c Hinv Ho) as (r & -> & Hr).
    destruct (IH (r_chain r) Hr Hops) as (rs & -> & Hlen & Hall).
    exists (r :: rs); simpl; auto.
Qed.

Lemma final_chain_inv (c0 : MBufChain) (rs : list op_result) :
  chain_inv c0 -> Forall (fun r => chain_inv (r_chain r)) rs ->
  chain_inv (final_chain c0 rs).
Proof.
  intros H0 Hall; unfold final_chain.
  induction Hall as [|r rs Hr _ IH]; [exact H0|].
  simpl. destruct (map r_chain rs) eqn:E; [exact Hr | exact IH].
Qed.

(** ** Datagram reads *)

Lemma frame_ok_sum (d : list byte) (h : MBuf) (t : list MBuf) :
  frame_ok d h t -> sum_len (h :: t) = Z.of_nat (length d).
Proof.
  intros (_ & _ & _ & Hok & Hpay).
  rewrite sum_len_payload by exact Hok. rewrite Hpay; reflexivity.
Qed.

Lemma frame_ok_pkt_len (d : list byte) (h : MBuf) (t : list MBuf) :
  frame_ok d h t -> 0 < pkt_len_ h.
Proof.
  intros (Hpkt & Hne & _). rewrite Hpkt.
  destruct d; [congruence | simpl; lia].
Qed.

Lemma dgram_cells_facts (ds : list (list byte)) (cells : list MBuf) :
  dgram_cells ds cells ->
  Forall cell_ok cells
  /\ sum_len cells = Z.of_nat (length (concat ds))
  /\ (cells = [] \/ exists h l, cells = h :: l /\ pkt_len_ h <> 0).
Proof.
  induction 1 as [|d ds h t rest Hf _ (IHok & IHsum & _)].
  - split_ands; [constructor | reflexivity | left; reflexivity].
  - pose proof (frame_ok_sum d h t Hf) as Hsum.
    pose proof (frame_ok_pkt_len d h t Hf) as Hpkt.
    destruct Hf as (_ & _ & _ & Hok & _).
    split_ands.
    + change (h :: t ++ rest) with ((h :: t) ++ rest).
      apply Forall_app; split; assumption.
    + change (h :: t ++ rest) with ((h :: t) ++ rest).
      rewrite sum_len_app, Hsum, IHsum. simpl. rewrite length_app. lia.
    + right; exists h, (t ++ rest); split; [reflexivity | lia].
Qed.

(** The drain loop drops exactly the body buffers in front of the next
    datagram. *)
Lemma rh_drain_frame (rest : list MBuf) :
  (rest = [] \/ exists h l, rest = h :: l /\ pkt_len_ h <> 0) ->
  forall todo size free_list,
    Forall (fun b => pkt_len_ b = 0) todo -> Forall cell_ok todo ->
    sum_len todo <= size < 2 ^ 64 ->
    rh_drain (todo ++ rest) size 0 free_list
    = (rest, size - sum_len todo, 0, rev todo ++ free_list).
Proof.
  intros Hrest; pose proof kPayloadSize_u32 as HP32.
  induction todo as [|cur todo IH]; intros size free_list Hpkt Hok Hsz.
  - simpl. rewrite Z.sub_0_r.
    destruct Hrest as [-> | (h & l & -> & Hh)]; [reflexivity|].
    simpl. apply Z.eqb_neq in Hh. rewrite Hh. reflexivity.
  - inversion Hpkt as [|? ? Hcur Hpkt']; subst.
    inversion Hok as [|? ? [Hlen _] Hok']; subst.
    pose proof (sum_len_nonneg todo Hok') as Hnn.
    rewrite sum_len_cons in *.
    simpl. rewrite Hcur. simpl.
    rewrite Z.sub_0_r, (u32_small (len_ cur)) by lia.
    rewrite (u64_small (size - len_ cur)) by lia.
    rewrite IH by (try assumption; lia).
    rewrite <- app_assoc. simpl. f_equal. f_equal. f_equal. lia.
Qed.

Lemma firstn_mid (A B C : list byte) (n : nat) :
  (n <= length B)%nat -> firstn (length A + n) (A ++ B ++ C) = A ++ firstn n B.
Proof.
  intros Hn.
  rewrite firstn_app, firstn_all2 by lia. f_equal.
  replace (length A + n - length A)%nat with n by lia.
  rewrite firstn_app.
  replace (n - length B)%nat with O by lia.
  simpl. apply app_nil_r.
Qed.

(** The body of a datagram read keeps [dgram_read_inv] and unlinks the front
    buffer. *)
Lemma rh_body_dgram_step (dst : user_out_ptr) (d : list byte)
  (frame rest : list MBuf) (size0 len : Z) (s : rh_state) :
  Forall cell_ok frame -> payload frame = d ->
  len <= Z.of_nat (length d) -> len < 2 ^ 64 ->
  Z.of_nat (length d) <= size0 < 2 ^ 64 ->
  dgram_read_inv d frame rest size0 len s -> rh_cond len s = true ->
  dgram_read_inv d frame rest size0 len (rh_body false true dst len s)
  /\ (length (rh_buffers (rh_body false true dst len s))
      < length (rh_buffers s))%nat.
Proof.
  intros Hok Hpay Hlend Hlen Hsize0
         (done & todo & Hfr & Hb & Hit & Hro & Hsz & Hfree & Hpos & Huser
          & Hst & Hdone & Hheld) Hcond.
  unfold rh_cond in Hcond.
  apply andb_prop in Hcond; destruct Hcond as [Hcond Est].
  apply andb_prop in Hcond; destruct Hcond as [Hlt _].
  apply Z.ltb_lt in Hlt. apply Z.eqb_eq in Est.
  specialize (Hst Est).
  assert (Hsumfr : sum_len frame = Z.of_nat (length d))
    by (rewrite sum_len_payload by exact Hok; rewrite Hpay; reflexivity).
  rewrite Hfr in Hok. apply Forall_app in Hok. destruct Hok as [Hokd Hokt].
  rewrite Hfr, sum_len_app in Hsumfr.
  pose proof (sum_len_nonneg done Hokd) as Hnnd.
  destruct todo as [|b todo]; [simpl in Hsumfr; lia|].
  inversion Hokt as [|? ? [Hblen Hbdata] Hokt']; subst x l.
  pose proof (sum_len_nonneg todo Hokt') as Hnnt.
  rewrite sum_len_cons in Hsumfr.
  assert (Epos : rh_pos s = sum_len done) by lia.
  rewrite (rh_body_read_eq true dst len s b (todo ++ rest))
    by (try assumption; try rewrite Hro; try lia; auto).
  cbv zeta. rewrite Hro, Z.sub_0_r, orb_true_r.
  set (n := Z.min (len_ b) (len - rh_pos s)).
  assert (Hn : 0 <= n <= len_ b) by (unfold n; lia).
  set (st := uout_status dst (rh_pos s) n).
  assert (Hfr' : frame = (done ++ [b]) ++ todo)
    by (rewrite <- app_assoc; exact Hfr).
  assert (Hsz' : rh_size s - len_ b = size0 - sum_len (done ++ [b])).
  { rewrite sum_len_app, sum_len_cons. simpl. lia. }
  assert (Hfree' : b :: rh_free_list s = rev (done ++ [b])).
  { rewrite rev_app_distr, Hfree. reflexivity. }
  assert (Hnnil : done ++ [b] = [] -> False).
  { intros E. apply app_eq_nil in E. destruct E; discriminate. }
  destruct (st =? ZX_OK) eqn:Est'.
  - split; [|simpl; rewrite Hb; simpl; lia].
    exists (done ++ [b]), todo.
    cbn [rh_buffers rh_iter rh_read_off rh_size rh_free_list rh_pos rh_user
         rh_status rh_trace].
    rewrite pages_held_app, Hheld.
    split_ands; auto; try lia.
    + rewrite store_append.
      2:{ rewrite Huser, length_firstn. lia. }
      rewrite Huser. unfold load. simpl skipn.
      rewrite <- Hpay, Hfr, payload_app.
      change (payload (b :: todo)) with (data_ b ++ payload todo).
      assert (El : Z.to_nat (rh_pos s) = length (payload done)).
      { rewrite Epos, sum_len_payload by exact Hokd. lia. }
      rewrite Z2Nat.inj_add by lia. rewrite El.
      rewrite firstn_mid by lia.
      rewrite firstn_app, firstn_all2 by lia.
      replace (length (payload done) - length (payload done))%nat with O by lia.
      simpl. rewrite app_nil_r. reflexivity.
    + intros E; exfalso; apply Hnnil; exact E.
  - split; [|simpl; rewrite Hb; simpl; lia].
    exists (done ++ [b]), todo.
    cbn [rh_buffers rh_iter rh_read_off rh_size rh_free_list rh_pos rh_user
         rh_status rh_trace].
    rewrite pages_held_app, Hheld.
    split_ands; auto; try lia.
    + intros E. apply Z.eqb_neq in Est'. congruence.
Qed.

Lemma empty_chain_dgram : dgram_chain empty_chain [].
Proof.
  pose proof kSizeMax_pos.
  unfold dgram_chain, empty_chain; simpl.
  split_ands; [constructor | reflexivity | reflexivity | lia].
Qed.

(** ** The properties of the chain *)

(** C4, for reads of at least one byte: on a chain in datagram mode that
    holds the written datagrams [d :: ds], oldest first, a read with
    [datagram = true] and [0 < len] hands the user a prefix of [d] (the first
    [len] bytes of it when the read succeeds), reports its length, and leaves
    a chain that holds exactly [ds]: the whole of [d] is unlinked, unread
    bytes included, and its buffers are given back, whether or not the copy
    to the user succeeded. *)
Theorem Read_datagram_framing (c : MBufChain) (dst : user_out_ptr) (len0 : Z)
  (d : list byte) (ds : list (list byte)) :
  dgram_chain c (d :: ds) -> 0 < len0 < 2 ^ 64 ->
  exists r,
    Read c dst len0 true = Done r
    /\ prefix_of (r_user r) d
    /\ r_count r = Z.of_nat (length (r_user r))
    /\ (r_status r = ZX_OK -> r_user r = firstn (Z.to_nat len0) d)
    /\ dgram_chain (r_chain r) ds
    /\ pages_held (r_trace r)
       = Z.of_nat (length (buffers_ (r_chain r))) - Z.of_nat (length (buffers_ c)).
Proof.
  intros (Hcells & Hoff & Hsize & Hmax) Hlen0.
  pose proof kSizeMax_u32 as HM.
  inversion Hcells as [|d' ds' h t rest Hf Hrest Ed Eb]; subst d' ds'.
  pose proof (frame_ok_sum d h t Hf) as Hsum.
  pose proof (frame_ok_pkt_len d h t Hf) as Hpkt0.
  pose proof Hf as (Hpkt & Hdne & Hbody & Hok & Hpay).
  destruct (dgram_cells_facts ds rest Hrest) as (Hokr & Hsumr & Hhead).
  simpl concat in Hsize. rewrite length_app in Hsize.
  unfold Read, ReadHelper. rewrite <- Eb. cbn [front hd_error].
  destruct (size_ c =? 0) eqn:E0; [apply Z.eqb_eq in E0; lia|].
  set (len := if len0 >? pkt_len_ h then pkt_len_ h else len0).
  assert (Elen : len = Z.min len0 (Z.of_nat (length d))).
  { unfold len. destruct (len0 >? pkt_len_ h) eqn:E.
    - rewrite Z.gtb_ltb in E; apply Z.ltb_lt in E. lia.
    - rewrite Z.gtb_ltb in E; apply Z.ltb_ge in E. lia. }
  clearbody len.
  set (s0 := mkRh (h :: t ++ rest) (size_ c) 0 0 (read_cursor_off_ c) [] ZX_OK [] []).
  destruct (while_loop_inv (dgram_read_inv d (h :: t) rest (size_ c) len)
              (fun s => length (rh_buffers s))
              (rh_cond len) (rh_body false true dst len)) with
    (fuel := length (h :: t ++ rest)) (s := s0)
    as (s & -> & (done & todo & Hfr & Hb & Hit & Hro & Hsz & Hfree & Hpos
                  & Huser & Hst & Hdone & Hheld) & Hend).
  - intros s Hs Hc.
    destruct (rh_body_dgram_step dst d (h :: t) rest (size_ c) len s Hok Hpay
                ltac:(lia) ltac:(lia) ltac:(lia) Hs Hc) as [H1 H2].
    split; [exact H1 | left; exact H2].
  - intros s _ Hc. unfold rh_cond in Hc.
    apply andb_prop in Hc; destruct Hc as [Hc _].
    apply andb_prop in Hc; destruct Hc as [_ Hc].
    apply Nat.ltb_lt in Hc. lia.
  - exists [], (h :: t). unfold s0; simpl.
    split_ands; auto; lia.
  - unfold s0; simpl; lia.
  - cbn [negb andb].
    (* the loop ran at least once *)
    assert (Hdne' : done <> []).
    { intros E. destruct (Hdone E) as [Hp0 Hs0]. subst done. simpl in Hfr.
      subst todo. unfold rh_cond in Hend. rewrite Hp0, Hs0, Hit, Hb in Hend.
      simpl in Hend.
      replace (0 <? len) with true in Hend by (symmetry; apply Z.ltb_lt; lia).
      discriminate. }
    destruct done as [|h' done']; [congruence|].
    simpl in Hfr. inversion Hfr; subst h'. subst t.
    apply Forall_app in Hbody. destruct Hbody as [_ Hbodyt].
    assert (Hokt : Forall cell_ok todo).
    { inversion Hok as [|? ? _ Hok']; subst.
      apply Forall_app in Hok'. tauto. }
    assert (Hokd : Forall cell_ok (h :: done')).
    { inversion Hok as [|? ? Hh Hok']; subst.
      apply Forall_app in Hok'. constructor; tauto. }
    change (h :: done' ++ todo) with ((h :: done') ++ todo) in Hsum.
    rewrite sum_len_app in Hsum.
    pose proof (sum_len_nonneg todo Hokt) as Hnnt.
    pose proof (sum_len_nonneg _ Hokd) as Hnnd.
    rewrite Hb, Hro.
    rewrite (rh_drain_frame rest Hhead) by (try assumption; lia).
    assert (Hfl : (length (rev todo ++ rh_free_list s) =? 0)%nat = false).
    { rewrite Hfree, length_app, !length_rev. simpl. apply Nat.eqb_neq. lia. }
    rewrite Hfl. cbn [negb].
    eexists; split; [reflexivity|].
    cbn [r_user r_count r_status r_chain r_trace buffers_].
    assert (Hposd : rh_pos s <= Z.of_nat (length d)) by lia.
    split_ands.
    + exists (skipn (Z.to_nat (rh_pos s)) d).
      rewrite Huser. symmetry; apply firstn_skipn.
    + rewrite Huser, length_firstn. lia.
    + intros Hs. specialize (Hst Hs). rewrite Huser.
      assert (Hfull : rh_pos s = len).
      { unfold rh_cond in Hend. rewrite Hs, Hit, Hb in Hend.
        replace (ZX_OK =? ZX_OK) with true in Hend by reflexivity.
        rewrite andb_true_r in Hend.
        apply andb_false_elim in Hend. destruct Hend as [Hend | Hend].
        - apply Z.ltb_ge in Hend. lia.
        - apply Nat.ltb_ge in Hend.
          destruct todo; [|simpl in Hend; lia].
          change (sum_len []) with 0 in Hsum. lia. }
      rewrite Hfull, Elen.
      destruct (Z.le_ge_cases len0 (Z.of_nat (length d))) as [Hle | Hge].
      * rewrite Z.min_l by lia. reflexivity.
      * rewrite Z.min_r by lia.
        rewrite Nat2Z.id, !firstn_all2 by lia. reflexivity.
    + unfold dgram_chain; cbn [buffers_ read_cursor_off_ size_].
      split_ands; [exact Hrest | reflexivity | lia | lia].
    + rewrite pages_held_app, Hheld. unfold FreeMBufs. cbn [pages_held].
      rewrite Hfree.
      repeat (rewrite length_app || rewrite length_rev || cbn [length rev]).
      lia.
Qed.

(** C1: a datagram write always returns, and when its status is not [ZX_OK]
    the chain it leaves is the chain it was given (buffers, their contents,
    read cursor and size), [*written] is 0, and every page taken during the
    call was given back. *)
Theorem WriteDatagram_failure_leaves_chain (pmm : Z -> bool)
  (src : user_in_ptr) (len : Z) (c : MBufChain) :
  0 <= len < 2 ^ 64 ->
  exists r,
    WriteDatagram pmm src len c = Done r
    /\ (r_status r <> ZX_OK ->
        r_chain r = c /\ r_count r = 0 /\ pages_held (r_trace r) = 0).
Proof. apply WriteDatagram_total. Qed.

(** C2: when a user copy fails during a stream write, the failed copy is the
    last one made and the one at offset [*written]; the status returned is
    the status of that copy; [*written] is the number of bytes brought in by
    the copies that succeeded; the chain's size, the lengths of its buffers
    and their contents have grown by exactly those bytes; and every page
    taken during the call that is not in the chain was given back. *)
Theorem WriteStream_fault_commits_prefix (pmm : Z -> bool) (src : user_in_ptr)
  (len : Z) (c : MBufChain) :
  chain_inv c -> 0 <= len < 2 ^ 64 ->
  let r := WriteStream pmm src len c in
  existsb is_failed_copy (r_trace r) = true ->
  (exists count, fails_at (r_trace r) (r_count r) count (r_status r))
  /\ r_count r = copied_in (r_trace r)
  /\ size_ (r_chain r) = size_ c + r_count r
  /\ sum_len (buffers_ (r_chain r)) = sum_len (buffers_ c) + r_count r
  /\ payload (buffers_ (r_chain r))
     = payload (buffers_ c) ++ user_bytes src 0 (r_count r)
  /\ read_cursor_off_ (r_chain r) = read_cursor_off_ c
  /\ pages_held (r_trace r)
     = Z.of_nat (length (buffers_ (r_chain r))) - Z.of_nat (length (buffers_ c)).
Proof.
  intros Hinv Hlen r Hfail.
  pose proof (WriteStream_spec pmm src len c Hinv Hlen) as Hs.
  cbv zeta in Hs. fold r in Hs.
  destruct Hs as (_ & Hsz & Hro & Hsum & Hpay & _ & _ & _ & Hcp & Hheld & _ & Hcase).
  destruct Hcase as [(Hnf & _) | Hf]; [congruence|].
  split_ands; auto.
Qed.

(** C3, as the code has it: when a stream write returns [ZX_OK] it wrote at
    least one byte and at most [min len (kSizeMax - size_)], and exactly that
    many when no page allocation failed; and when no user copy failed, it
    returns [ZX_ERR_SHOULD_WAIT] exactly when it wrote nothing. *)
Theorem WriteStream_result (pmm : Z -> bool) (src : user_in_ptr) (len : Z)
  (c : MBufChain) :
  chain_inv c -> 0 <= len < 2 ^ 64 ->
  let r := WriteStream pmm src len c in
  (r_status r = ZX_OK ->
   0 < r_count r <= Z.min len (kSizeMax - size_ c)
   /\ (existsb is_failed_alloc (r_trace r) = false ->
       r_count r = Z.min len (kSizeMax - size_ c)))
  /\ (existsb is_failed_copy (r_trace r) = false ->
      (r_status r = ZX_ERR_SHOULD_WAIT <-> r_count r = 0)).
Proof.
  intros Hinv Hlen r.
  pose proof (WriteStream_spec pmm src len c Hinv Hlen) as Hs.
  cbv zeta in Hs. fold r in Hs.
  destruct Hs as (Hw & _ & _ & _ & _ & _ & _ & _ & _ & _ & _ & Hcase).
  split.
  - intros Hok.
    destruct Hcase as [(_ & Hst & Hfull) | (count & Hf)].
    + destruct (r_count r =? 0) eqn:E0; [rewrite Hok in Hst; discriminate|].
      apply Z.eqb_neq in E0. split; [lia|].
      intros Hna. specialize (Hfull Hna). lia.
    + destruct Hf as (t1 & t2 & _ & Hne & _). congruence.
  - intros Hnf.
    destruct Hcase as [(_ & Hst & _) | (count & Hf)].
    + rewrite Hst. destruct (r_count r =? 0) eqn:E0.
      * apply Z.eqb_eq in E0. tauto.
      * apply Z.eqb_neq in E0. split; [discriminate | tauto].
    + apply fails_at_existsb in Hf. congruence.
Qed.

(** C5, as the code has it: in every run of public operations from the empty
    chain each operation returns and leaves [size_ <= kSizeMax]; from the
    chain such a run ends in, a stream write takes at most
    [min len (kSizeMax - size_)] bytes, and returns [ZX_ERR_SHOULD_WAIT] with
    nothing written when the chain is full and no user copy failed; and a
    datagram write with [len + size_ > kSizeMax] is refused whole, without a
    call to the allocator or to user memory: with [ZX_ERR_OUT_OF_RANGE] when
    [len > kSizeMax], with [ZX_ERR_SHOULD_WAIT] otherwise. *)
Theorem capacity_bound (ops : list op) :
  Forall op_ok ops ->
  exists rs,
    run ops empty_chain = Done rs
    /\ length rs = length ops
    /\ Forall (fun r => size_ (r_chain r) <= kSizeMax) rs
    /\ let c := final_chain empty_chain rs in
       (forall pmm src len,
           0 <= len < 2 ^ 64 ->
           let r := WriteStream pmm src len c in
           0 <= r_count r <= Z.min len (kSizeMax - size_ c)
           /\ size_ (r_chain r) = size_ c + r_count r
           /\ (size_ c = kSizeMax ->
               existsb is_failed_copy (r_trace r) = false ->
               r_count r = 0 /\ r_status r = ZX_ERR_SHOULD_WAIT))
       /\ (forall pmm src len,
              0 <= len < 2 ^ 64 -> len + size_ c > kSizeMax ->
              WriteDatagram pmm src len c
              = Done (mkResult c 0
                        (if len >? kSizeMax then ZX_ERR_OUT_OF_RANGE
                         else ZX_ERR_SHOULD_WAIT) [] [])).
Proof.
  intros Hops.
  destruct (run_inv ops empty_chain empty_chain_inv Hops) as (rs & Hrun & Hlen & Hall).
  exists rs. split_ands; try assumption.
  - eapply Forall_impl; [|exact Hall].
    intros r Hr. apply Hr.
  - pose proof (final_chain_inv empty_chain rs empty_chain_inv Hall) as Hc.
    set (c := final_chain empty_chain rs) in *.
    pose proof (proj1 (cursor_inv_size _ _ _ Hc)) as Hnn.
    assert (Hmax : size_ c <= kSizeMax) by apply Hc.
    split.
    + intros pmm src len Hl r.
      pose proof (WriteStream_spec pmm src len c Hc Hl) as Hs.
      cbv zeta in Hs. fold r in Hs.
      destruct Hs as (Hw & Hsz & _ & _ & _ & _ & _ & _ & _ & _ & _ & Hcase).
      split_ands; try lia.
      intros Hfull Hnf.
      assert (E : r_count r = 0) by lia.
      split; [exact E|].
      destruct Hcase as [(_ & Hst & _) | (count & Hf)].
      * rewrite Hst, E. reflexivity.
      * apply fails_at_existsb in Hf. congruence.
    + intros pmm src len Hl Hgt.
      destruct (WriteDatagram_checks pmm src len c Hl ltac:(lia)) as (_ & Hbig & Hwait).
      destruct (len >? kSizeMax) eqn:E.
      * rewrite Z.gtb_ltb in E; apply Z.ltb_lt in E. apply Hbig; lia.
      * rewrite Z.gtb_ltb in E; apply Z.ltb_ge in E. apply Hwait; lia.
Qed.

(** C6: in every run of public operations from the empty chain, each
    operation returns, whatever its status, and leaves a chain whose [size_]
    is the sum of the [len_] of its buffers minus [read_cursor_off_]. *)
Theorem size_counts_unread (ops : list op) :
  Forall op_ok ops ->
  exists rs,
    run ops empty_chain = Done rs
    /\ length rs = length ops
    /\ Forall (fun r =>
                 size_ (r_chain r)
                 = sum_len (buffers_ (r_chain r)) - read_cursor_off_ (r_chain r))
              rs.
Proof.
  intros Hops.
  destruct (run_inv ops empty_chain empty_chain_inv Hops) as (rs & Hrun & Hlen & Hall).
  exists rs. split_ands; try assumption.
  eapply Forall_impl; [|exact Hall].
  intros r Hr. apply Hr.
Qed.

(** C7: a peek returns (on any chain whose front buffer exists when [size_]
    is not 0) and the chain after it is the chain before it: no buffer is
    unlinked or freed, [size_] and [read_cursor_off_] keep their values,
    whatever the status of the user copies; a second peek with the same
    arguments therefore gives the same bytes, count, status and trace. *)
Theorem Peek_no_mutation (c : MBufChain) (dst : user_out_ptr) (len : Z)
  (datagram : bool) :
  (size_ c <> 0 -> buffers_ c <> []) ->
  exists r,
    Peek c dst len datagram = Done r
    /\ r_chain r = c
    /\ existsb is_free (r_trace r) = false
    /\ existsb is_alloc (r_trace r) = false
    /\ Peek (r_chain r) dst len datagram = Done r.
Proof.
  intros Hfront.
  destruct (Peek_unchanged c dst len datagram Hfront) as (r & Hr & Hc & Hf & Ha).
  exists r. split_ands; try assumption.
  rewrite Hc; exact Hr.
Qed.

(** C8: on a chain with [size_ <= kSizeMax] the checks of a datagram write
    come in this order and each returns at once, with [*written = 0], the
    chain as it was, and no call to the allocator or to user memory:
    [len == 0] gives [ZX_ERR_INVALID_ARGS]; otherwise [len > kSizeMax] gives
    [ZX_ERR_OUT_OF_RANGE]; otherwise [len + size_ > kSizeMax] gives
    [ZX_ERR_SHOULD_WAIT]. *)
Theorem WriteDatagram_pre_admission (pmm : Z -> bool) (src : user_in_ptr)
  (len : Z) (c : MBufChain) :
  0 <= len < 2 ^ 64 -> 0 <= size_ c <= kSizeMax ->
  (len = 0 ->
   WriteDatagram pmm src len c = Done (mkResult c 0 ZX_ERR_INVALID_ARGS [] []))
  /\ (len <> 0 -> len > kSizeMax ->
      WriteDatagram pmm src len c = Done (mkResult c 0 ZX_ERR_OUT_OF_RANGE [] []))
  /\ (len <> 0 -> len <= kSizeMax -> len + size_ c > kSizeMax ->
      WriteDatagram pmm src len c = Done (mkResult c 0 ZX_ERR_SHOULD_WAIT [] [])).
Proof. apply WriteDatagram_checks. Qed.

(** C9: on a chain that satisfies the invariant, [size(true)] is the
    [pkt_len_] of the front buffer when there is one and 0 when the chain is
    empty; it is 0 when every buffer has [pkt_len_ = 0] (stream mode); and
    [size(false)] is [size_], the number of unread bytes. *)
Theorem size_accessor (c : MBufChain) :
  chain_inv c ->
  (forall b l, buffers_ c = b :: l -> size c true = Done (pkt_len_ b))
  /\ (buffers_ c = [] -> size c true = Done 0)
  /\ (Forall (fun b => pkt_len_ b = 0) (buffers_ c) -> size c true = Done 0)
  /\ size c false = Done (size_ c)
  /\ size_ c = sum_len (buffers_ c) - read_cursor_off_ c.
Proof.
  intros Hinv.
  destruct (cursor_inv_size _ _ _ Hinv) as [_ Hempty].
  assert (Hcons : forall b l, buffers_ c = b :: l -> size c true = Done (pkt_len_ b)).
  { intros b l E. unfold size.
    destruct (size_ c =? 0) eqn:E0.
    - apply Z.eqb_eq in E0. apply Hempty in E0. congruence.
    - simpl. rewrite E. reflexivity. }
  assert (Hnil : buffers_ c = [] -> size c true = Done 0).
  { intros E. unfold size. apply Hempty in E. rewrite E. reflexivity. }
  split_ands; auto.
  - intros Hall. destruct (buffers_ c) as [|b l] eqn:E; [auto|].
    rewrite (Hcons b l eq_refl). inversion Hall; subst. congruence.
  - apply Hinv.
Qed.

(** C10: on a chain in datagram mode that holds at least one datagram, a
    read with [len = 0] and [datagram = true] returns [ZX_OK] with
    [*actual = 0], copies nothing, frees nothing, and leaves the chain as it
    was: the front datagram stays where it is. *)
Theorem Read_datagram_zero_len (c : MBufChain) (dst : user_out_ptr)
  (ds : list (list byte)) :
  dgram_chain c ds -> ds <> [] ->
  Read c dst 0 true = Done (mkResult c 0 ZX_OK [] []).
Proof.
  intros (Hcells & Hoff & Hsize & Hmax) Hne.
  inversion Hcells as [|d ds' h t rest Hf Hrest Ed Eb]; [congruence|]. subst ds.
  pose proof (frame_ok_pkt_len d h t Hf) as Hpkt.
  destruct Hf as (_ & Hdne & _).
  unfold Read, ReadHelper. rewrite <- Eb. cbn [front hd_error].
  destruct (size_ c =? 0) eqn:E0.
  - apply Z.eqb_eq in E0. simpl in Hsize. rewrite length_app in Hsize.
    destruct d; [congruence | simpl in Hsize; lia].
  - replace (0 >? pkt_len_ h) with false
      by (symmetry; rewrite Z.gtb_ltb; apply Z.ltb_ge; lia).
    cbn [length while_loop rh_cond rh_pos Z.ltb Z.compare andb negb].
    cbn [rh_drain rh_buffers rh_size rh_read_off rh_free_list].
    replace (pkt_len_ h =? 0) with false by (symmetry; apply Z.eqb_neq; lia).
    cbn [length Nat.eqb negb rh_trace rh_pos rh_status rh_user].
    rewrite Eb. destruct c; reflexivity.
Qed.

(** ** Further properties: what a read unlinks and gives back *)

Lemma skipn_S_tl {A : Type} (k : nat) (l : list A) : skipn (S k) l = tl (skipn k l).
Proof.
  revert l; induction k as [|k IH]; intros l.
  - destruct l; reflexivity.
  - destruct l; [reflexivity|]. simpl. apply (IH l).
Qed.

(** The body of a consuming read moves at most the front buffer to the free
    list, and calls neither the allocator nor [FreeMBufs]. *)
Lemma rh_body_ledger (datagram : bool) (dst : user_out_ptr) (len : Z)
  (s : rh_state) (b0 : list MBuf) :
  (exists k, rh_buffers s = skipn k b0) ->
  status_from dst (rh_status s) ->
  let s' := rh_body false datagram dst len s in
  (exists k, rh_buffers s' = skipn k b0)
  /\ (length (rh_buffers s') + length (rh_free_list s')
      = length (rh_buffers s) + length (rh_free_list s))%nat
  /\ pages_held (rh_trace s') = pages_held (rh_trace s)
  /\ existsb is_alloc (rh_trace s') = existsb is_alloc (rh_trace s)
  /\ status_from dst (rh_status s').
Proof.
  intros [k Hk] Hst. unfold rh_body.
  destruct (nth_error (rh_buffers s) (rh_iter s)) as [cur|]; [|cbv zeta; eauto 6].
  cbv zeta. unfold copy_array_to_user.
  set (n := Z.min _ _).
  assert (Hst' : status_from dst (uout_status dst (rh_pos s) n)).
  { unfold status_from.
    destruct (Z.eq_dec (uout_status dst (rh_pos s) n) ZX_OK); [left; assumption|].
    right; eauto. }
  destruct (_ || datagram).
  - destruct (rh_buffers s) as [|b rest] eqn:Eb.
    { rewrite Eb. split_ands; try reflexivity; try assumption. exists k; exact Hk. }
    cbn [rh_buffers rh_free_list rh_trace rh_status length].
    rewrite pages_held_app, existsb_app. simpl.
    split_ands; try lia; try assumption.
    + exists (S k). rewrite skipn_S_tl, <- Hk. reflexivity.
    + apply orb_false_r.
  - cbn [rh_buffers rh_free_list rh_trace rh_status].
    rewrite pages_held_app, existsb_app. simpl.
    split_ands; try lia; try assumption; eauto.
    apply orb_false_r.
Qed.

Lemma rh_drain_ledger (b0 : list MBuf) (buffers : list MBuf) :
  forall size read_off free_list,
    (exists k, buffers = skipn k b0) ->
    match rh_drain buffers size read_off free_list with
    | (buffers', _, _, free_list') =>
        (exists k, buffers' = skipn k b0)
        /\ (length buffers' + length free_list'
            = length buffers + length free_list)%nat
    end.
Proof.
  induction buffers as [|cur rest IH]; intros size read_off free_list [k Hk]; simpl.
  - split; [exists k; exact Hk | reflexivity].
  - destruct (pkt_len_ cur =? 0); [|split; [exists k; exact Hk | reflexivity]].
    specialize (IH (u64 (size - u32 (len_ cur - read_off))) 0 (cur :: free_list)).
    assert (Hk' : exists k', rest = skipn k' b0).
    { exists (S k). rewrite skipn_S_tl, <- Hk. reflexivity. }
    specialize (IH Hk').
    destruct (rh_drain rest _ 0 (cur :: free_list)) as [[[b' sz'] ro'] f'].
    destruct IH as [Hs Hl]. split; [exact Hs | simpl in Hl; lia].
Qed.

(** A consuming read, whatever its arguments: it returns, keeps the
    invariant, unlinks buffers from the front only and leaves the others as
    they were, gives back exactly the buffers it unlinked, never takes a
    page, and passes on the status of the failed copy. *)
Lemma Read_general (c : MBufChain) (dst : user_out_ptr) (len0 : Z) (datagram : bool) :
  chain_inv c -> len0 < 2 ^ 64 ->
  exists r,
    Read c dst len0 datagram = Done r
    /\ chain_inv (r_chain r)
    /\ (exists k, buffers_ (r_chain r) = skipn k (buffers_ c))
    /\ pages_held (r_trace r)
       = Z.of_nat (length (buffers_ (r_chain r))) - Z.of_nat (length (buffers_ c))
    /\ existsb is_alloc (r_trace r) = false
    /\ status_from dst (r_status r).
Proof.
  intros Hinv Hlen0.
  unfold Read, ReadHelper.
  destruct (size_ c =? 0) eqn:E0.
  { eexists; split; [reflexivity|]. simpl.
    split_ands; auto; try lia; [exists O; reflexivity | left; reflexivity]. }
  apply Z.eqb_neq in E0.
  assert (Hne : buffers_ c <> []).
  { intros E. apply E0. apply (cursor_inv_size _ _ _ Hinv); exact E. }
  destruct (ReadHelper_clamp c len0 datagram Hne) as (len & -> & Hlen).
  set (I := fun s : rh_state =>
              read_inv s
              /\ (exists k, rh_buffers s = skipn k (buffers_ c))
              /\ (length (rh_buffers s) + length (rh_free_list s)
                  = length (buffers_ c))%nat
              /\ pages_held (rh_trace s) = 0
              /\ existsb is_alloc (rh_trace s) = false
              /\ status_from dst (rh_status s)).
  destruct (while_loop_inv I (fun s => length (rh_buffers s))
              (rh_cond len) (rh_body false datagram dst len)) with
    (fuel := length (buffers_ c))
    (s := mkRh (buffers_ c) (size_ c) 0 0 (read_cursor_off_ c) [] ZX_OK [] [])
    as (s & -> & ((Hs & _ & _) & Hsuf & Hcnt & Hheld & Hna & Hst) & _).
  - intros s (Hs & Hsuf & Hcnt & Hheld & Hna & Hst) Hc.
    destruct (rh_body_read_step datagram dst len s ltac:(lia) Hs Hc) as [H1 H2].
    split; [|exact H2].
    pose proof (rh_body_ledger datagram dst len s (buffers_ c) Hsuf Hst) as Hl.
    cbv zeta in Hl. destruct Hl as (Hsuf' & Hcnt' & Hheld' & Hna' & Hst').
    unfold I. split_ands; auto; try lia; congruence.
  - intros s ((_ & Hit & _) & _) Hc. unfold rh_cond in Hc.
    apply andb_prop in Hc; destruct Hc as [Hc _].
    apply andb_prop in Hc; destruct Hc as [_ Hc].
    apply Nat.ltb_lt in Hc. lia.
  - unfold I, read_inv; simpl.
    split_ands; auto; try lia; [exists O; reflexivity | left; reflexivity].
  - simpl; lia.
  - cbn [negb andb].
    assert (Hfin :
      forall buffers size1 read_off free_list,
        cursor_inv buffers read_off size1 ->
        (exists k, buffers = skipn k (buffers_ c)) ->
        (length buffers + length free_list = length (buffers_ c))%nat ->
        let r := mkResult (mkChain buffers read_off size1) (rh_pos s) (rh_status s)
                   (rh_user s)
                   (if negb (length free_list =? 0)%nat
                    then rh_trace s ++ [FreeMBufs free_list] else rh_trace s) in
        chain_inv (r_chain r)
        /\ (exists k, buffers_ (r_chain r) = skipn k (buffers_ c))
        /\ pages_held (r_trace r)
           = Z.of_nat (length (buffers_ (r_chain r)))
             - Z.of_nat (length (buffers_ c))
        /\ existsb is_alloc (r_trace r) = false
        /\ status_from dst (r_status r)).
    { intros buffers size1 read_off free_list Hc Hk Hl. simpl.
      split_ands; auto.
      - destruct (length free_list =? 0)%nat eqn:Ef; cbn [negb].
        + apply Nat.eqb_eq in Ef. lia.
        + rewrite pages_held_app, Hheld. unfold FreeMBufs. simpl. lia.
      - destruct (length free_list =? 0)%nat; cbn [negb]; [exact Hna|].
        rewrite existsb_app, Hna. reflexivity. }
    destruct datagram.
    + pose proof (rh_drain_inv (rh_buffers s) (rh_size s) (rh_read_off s)
                               (rh_free_list s) Hs) as Hd.
      pose proof (rh_drain_ledger (buffers_ c) (rh_buffers s) (rh_size s)
                                  (rh_read_off s) (rh_free_list s) Hsuf) as Hd'.
      destruct (rh_drain (rh_buffers s) (rh_size s) (rh_read_off s) (rh_free_list s))
        as [[[buffers size1] read_off] free_list].
      destruct Hd' as [Hk Hl].
      eexists; split; [reflexivity|].
      apply Hfin; auto; lia.
    + eexists; split; [reflexivity|].
      apply Hfin; auto.
Qed.

(** ** Further properties: datagram writes *)

Lemma wd_copy_shape (src : user_in_ptr) (len : Z) :
  len < 2 ^ 64 ->
  forall (k : nat) (pos : Z),
    0 <= pos -> fill_fits k (len - pos) ->
    match wd_copy src len (repeat fresh_mbuf k) pos with
    | (Some bufs, evs) =>
        packed bufs
        /\ existsb is_failed_copy evs = false
        /\ existsb is_failed_alloc evs = false
    | (None, evs) =>
        existsb is_failed_copy evs = true
        /\ existsb is_failed_alloc evs = false
    end.
Proof.
  intros Hlen; pose proof kPayloadSize_pos as HP; pose proof kPayloadSize_u32 as HP32.
  induction k as [|k IH]; intros pos Hpos Hfit.
  - simpl. auto.
  - destruct Hfit as [[Hk _]|[_ Hr]]; [discriminate|].
    rewrite Nat2Z.inj_succ in Hr.
    simpl. rewrite (u64_small (len - pos)) by lia.
    set (n := Z.min kPayloadSize (len - pos)).
    assert (Hn : 0 < n <= kPayloadSize) by (unfold n; lia).
    unfold copy_array_from_user.
    destruct (uin_status src pos n =? ZX_OK) eqn:Est; simpl;
      [|rewrite Est; auto].
    rewrite (u64_small (pos + n)) by (unfold n; lia).
    assert (Hfit' : fill_fits k (len - (pos + n))).
    { destruct k as [|k'].
      - left; split; [reflexivity | unfold n; lia].
      - right; split; [discriminate|]. unfold n; lia. }
    specialize (IH (pos + n) ltac:(lia) Hfit').
    destruct (wd_copy src len (repeat fresh_mbuf k) (pos + n)) as [[bufs|] evs] eqn:E;
      simpl; rewrite Est; simpl; [|exact IH].
    destruct IH as (Hpk & Hnf & Hna).
    split_ands; auto.
    pose proof (wd_copy_length _ _ _ _ _ _ E) as Hl. rewrite repeat_length in Hl.
    destruct bufs as [|b2 bufs]; [exact I|].
    split; [|exact Hpk]. simpl.
    rewrite !(u32_small n) by lia.
    destruct k; [discriminate|]. rewrite Nat2Z.inj_succ in Hr. unfold n. lia.
Qed.

(** What a datagram write that returns [ZX_OK] has done. *)
Lemma WriteDatagram_ok_shape (pmm : Z -> bool) (src : user_in_ptr) (len : Z)
  (c : MBufChain) (r : op_result) :
  0 <= size_ c <= kSizeMax -> 0 <= len < 2 ^ 64 ->
  WriteDatagram pmm src len c = Done r -> r_status r = ZX_OK ->
  0 < len /\ len + size_ c <= kSizeMax
  /\ r_count r = len
  /\ size_ (r_chain r) = size_ c + len
  /\ read_cursor_off_ (r_chain r) = read_cursor_off_ c
  /\ existsb is_failed_alloc (r_trace r) = false
  /\ existsb is_failed_copy (r_trace r) = false
  /\ exists h t,
       buffers_ (r_chain r) = buffers_ c ++ h :: t
       /\ Z.of_nat (length (h :: t)) = NumBuffersForPayload len
       /\ pages_held (r_trace r) = Z.of_nat (length (h :: t))
       /\ Forall cell_ok (h :: t)
       /\ packed (h :: t)
       /\ payload (h :: t) = user_bytes src 0 len
       /\ pkt_len_ h = len
       /\ Forall (fun b => pkt_len_ b = 0) t.
Proof.
  intros Hsz Hlen; pose proof kSizeMax_u32 as HM.
  unfold WriteDatagram.
  destruct (len =? 0) eqn:E0; [intros H; inversion H; subst; discriminate|].
  destruct (len >? kSizeMax) eqn:E1; [intros H; inversion H; subst; discriminate|].
  apply Z.eqb_neq in E0.
  rewrite Z.gtb_ltb in E1; apply Z.ltb_ge in E1.
  rewrite (u64_small (len + size_ c)) by lia.
  destruct (len + size_ c >? kSizeMax) eqn:E2;
    [intros H; inversion H; subst; discriminate|].
  rewrite Z.gtb_ltb in E2; apply Z.ltb_ge in E2.
  destruct (NumBuffersForPayload_fits len ltac:(lia)) as [Enum Hfit].
  set (num := NumBuffersForPayload len) in *.
  assert (Hnum : 1 <= num).
  { rewrite Enum. pose proof kPayloadSize_pos.
    assert (0 <= (len - 1) / kPayloadSize) by (apply Z.div_pos; lia). lia. }
  unfold AllocMBufs.
  destruct (pmm num); [|intros H; inversion H; subst; discriminate].
  pose proof (wd_copy_spec src len (proj2 Hlen) (Z.to_nat num) 0 ltac:(lia)) as Hs.
  pose proof (wd_copy_shape src len (proj2 Hlen) (Z.to_nat num) 0 ltac:(lia)) as Hs2.
  rewrite Z.sub_0_r in Hs, Hs2. specialize (Hs Hfit). specialize (Hs2 Hfit).
  destruct (wd_copy src len _ 0) as [[bufs'|] evs] eqn:Ecopy;
    [|intros H; inversion H; subst; discriminate].
  pose proof (wd_copy_length _ _ _ _ _ _ Ecopy) as Hl. rewrite repeat_length in Hl.
  destruct Hs as (Hok & Hpkt & Hpay & Hheld).
  destruct Hs2 as (Hpk & Hnf & Hna).
  destruct bufs' as [|b bs]; [discriminate|].
  intros H _; inversion H; subst; clear H.
  cbn [r_chain r_count r_trace buffers_ size_ read_cursor_off_].
  rewrite (u64_small (size_ c + len)) by lia.
  split_ands; try lia; try reflexivity; try assumption.
  exists (mkMBuf (len_ b) (u32 len) (data_ b)), bs.
  inversion Hok as [|? ? Hb Hbs]; subst. inversion Hpkt; subst.
  split_ands; try assumption; try reflexivity.
  - simpl length in *. lia.
  - cbn [pages_held]. rewrite Hheld. simpl length in *. lia.
  - constructor; assumption.
  - simpl. apply u32_small; lia.
Qed.

(** Every status of a datagram write. *)
Lemma WriteDatagram_status (pmm : Z -> bool) (src : user_in_ptr) (len : Z)
  (c : MBufChain) :
  0 <= size_ c <= kSizeMax -> 0 <= len < 2 ^ 64 ->
  exists r,
    WriteDatagram pmm src len c = Done r
    /\ (r_status r = ZX_OK \/ r_status r = ZX_ERR_INVALID_ARGS
        \/ r_status r = ZX_ERR_OUT_OF_RANGE \/ r_status r = ZX_ERR_SHOULD_WAIT)
    /\ (existsb is_failed_copy (r_trace r) = true ->
        r_status r = ZX_ERR_INVALID_ARGS)
    /\ (existsb is_failed_alloc (r_trace r) = true ->
        r_status r = ZX_ERR_SHOULD_WAIT
        /\ existsb is_failed_copy (r_trace r) = false)
    /\ (r_status r = ZX_OK <->
        0 < len /\ len + size_ c <= kSizeMax
        /\ existsb is_failed_alloc (r_trace r) = false
        /\ existsb is_failed_copy (r_trace r) = false).
Proof.
  intros Hsz Hlen; pose proof kSizeMax_u32 as HM.
  unfold WriteDatagram.
  destruct (len =? 0) eqn:E0.
  { apply Z.eqb_eq in E0. eexists; split; [reflexivity|]. simpl.
    split_ands; auto; try discriminate.
    split; [discriminate | lia]. }
  destruct (len >? kSizeMax) eqn:E1.
  { rewrite Z.gtb_ltb in E1; apply Z.ltb_lt in E1.
    eexists; split; [reflexivity|]. simpl.
    split_ands; auto; try discriminate.
    split; [discriminate | lia]. }
  apply Z.eqb_neq in E0.
  rewrite Z.gtb_ltb in E1; apply Z.ltb_ge in E1.
  rewrite (u64_small (len + size_ c)) by lia.
  destruct (len + size_ c >? kSizeMax) eqn:E2.
  { rewrite Z.gtb_ltb in E2; apply Z.ltb_lt in E2.
    eexists; split; [reflexivity|]. simpl.
    split_ands; auto; try discriminate.
    split; [discriminate | lia]. }
  rewrite Z.gtb_ltb in E2; apply Z.ltb_ge in E2.
  destruct (NumBuffersForPayload_fits len ltac:(lia)) as [Enum Hfit].
  set (num := NumBuffersForPayload len) in *.
  assert (Hnum : 1 <= num).
  { rewrite Enum. pose proof kPayloadSize_pos.
    assert (0 <= (len - 1) / kPayloadSize) by (apply Z.div_pos; lia). lia. }
  unfold AllocMBufs.
  destruct (pmm num).
  - pose proof (wd_copy_shape src len (proj2 Hlen) (Z.to_nat num) 0 ltac:(lia)) as Hs2.
    rewrite Z.sub_0_r in Hs2. specialize (Hs2 Hfit).
    destruct (wd_copy src len _ 0) as [[bufs'|] evs] eqn:Ecopy.
    + pose proof (wd_copy_length _ _ _ _ _ _ Ecopy) as Hl. rewrite repeat_length in Hl.
      destruct Hs2 as (_ & Hnf & Hna).
      destruct bufs' as [|b bs]; [simpl in Hl; lia|].
      eexists; split; [reflexivity|]. simpl. rewrite Hnf, Hna.
      split_ands; auto; try discriminate.
      split; [intros _; split_ands; auto; lia | reflexivity].
    + destruct Hs2 as (Hf & Hna).
      eexists; split; [reflexivity|]. simpl.
      rewrite !existsb_app, Hf, Hna. simpl.
      split_ands; auto; try discriminate.
      split; [discriminate | intros (_ & _ & _ & H); discriminate].
  - eexists; split; [reflexivity|]. simpl.
    split_ands; auto; try discriminate.
    split; [discriminate | intros (_ & _ & H & _); discriminate].
Qed.

(** ** Further properties: the pages of a run *)

Lemma pages_held_quiet (t : list event) :
  existsb is_free t = false -> existsb is_alloc t = false -> pages_held t = 0.
Proof.
  induction t as [|e t IH]; simpl; [reflexivity|].
  destruct e as [num ok|n|off count st|off count st]; simpl;
    intros Hf Ha; try discriminate; apply IH; assumption.
Qed.

Lemma final_chain_cons (c : MBufChain) (r : op_result) (rs : list op_result) :
  final_chain c (r :: rs) = final_chain (r_chain r) rs.
Proof.
  unfold final_chain. simpl.
  destruct (map r_chain rs) as [|x l] eqn:E; [reflexivity|].
  clear E. revert x. induction l as [|y l IH]; intros x; [reflexivity|].
  simpl in *. apply IH.
Qed.

Lemma run_trace_cons (r : op_result) (rs : list op_result) :
  run_trace (r :: rs) = r_trace r ++ run_trace rs.
Proof. reflexivity. Qed.

(** Each operation returns, keeps the invariant, and holds on to exactly the
    pages of the buffers it added to the chain. *)
Lemma step_ledger (o : op) (c : MBufChain) :
  chain_inv c -> op_ok o ->
  exists r,
    step o c = Done r
    /\ chain_inv (r_chain r)
    /\ pages_held (r_trace r)
       = Z.of_nat (length (buffers_ (r_chain r))) - Z.of_nat (length (buffers_ c)).
Proof.
  intros Hinv Hok. destruct o as [pmm src len|pmm src len|dst len dg|dst len dg];
    unfold op_ok in Hok; simpl in Hok; simpl.
  - eexists; split; [reflexivity|]. split; [apply WriteStream_inv; assumption|].
    apply (WriteStream_spec pmm src len c Hinv Hok).
  - destruct (WriteDatagram_inv pmm src len c Hinv Hok) as (r & Hr & Hinv').
    exists r. split_ands; auto.
    destruct (WriteDatagram_total pmm src len c Hok) as (r' & Hr' & Hfail).
    rewrite Hr in Hr'. inversion Hr'; subst r'.
    destruct (Z.eq_dec (r_status r) ZX_OK) as [Hst | Hst].
    + pose proof (proj1 (cursor_inv_size _ _ _ Hinv)) as Hnn.
      assert (Hmax : size_ c <= kSizeMax) by apply Hinv.
      destruct (WriteDatagram_ok_shape pmm src len c r ltac:(lia) Hok Hr Hst)
        as (_ & _ & _ & _ & _ & _ & _ & h & t & Hb & _ & Hheld & _).
      rewrite Hheld, Hb, length_app. lia.
    + destruct (Hfail Hst) as (-> & _ & Hheld). rewrite Hheld. lia.
  - destruct (Read_general c dst len dg Hinv ltac:(lia))
      as (r & Hr & Hinv' & _ & Hheld & _).
    exists r; auto.
  - destruct (Peek_unchanged c dst len dg) as (r & Hr & Hc & Hf & Ha).
    + intros Hne E. apply Hne. apply (cursor_inv_size _ _ _ Hinv); exact E.
    + exists r. rewrite Hc. split_ands; auto.
      rewrite (pages_held_quiet _ Hf Ha). lia.
Qed.

Lemma run_ledger (ops : list op) :
  forall c, chain_inv c -> Forall op_ok ops ->
  exists rs,
    run ops c = Done rs
    /\ pages_held (run_trace rs)
       = Z.of_nat (length (buffers_ (final_chain c rs)))
         - Z.of_nat (length (buffers_ c)).
Proof.
  induction ops as [|o ops IH]; intros c Hinv Hok; simpl.
  - exists []; split; [reflexivity|]. unfold run_trace, final_chain; simpl. lia.
  - inversion Hok as [|? ? Ho Hops]; subst.
    destruct (step_ledger o c Hinv Ho) as (r & -> & Hr & Hheld).
    destruct (IH (r_chain r) Hr Hops) as (rs & -> & Hrs).
    exists (r :: rs); split; [reflexivity|].
    rewrite run_trace_cons, pages_held_app, final_chain_cons. lia.
Qed.

(** X1: over any run of public operations from the empty chain, the pages
    taken from the allocator and not yet given back are exactly the buffers
    linked in the chain at the end; when the chain is then destroyed, every
    page has been given back. *)
Theorem run_leaks_no_page (ops : list op) :
  Forall op_ok ops ->
  exists rs,
    run ops empty_chain = Done rs
    /\ pages_held (run_trace rs)
       = Z.of_nat (length (buffers_ (final_chain empty_chain rs)))
    /\ pages_held (run_trace rs ++ MBufChain_dtor (final_chain empty_chain rs)) = 0.
Proof.
  intros Hops.
  destruct (run_ledger ops empty_chain empty_chain_inv Hops) as (rs & Hrun & Hheld).
  exists rs. simpl in Hheld. split_ands; auto; [lia|].
  rewrite pages_held_app. unfold MBufChain_dtor, FreeMBufs. simpl. lia.
Qed.

(** ** Further properties: the bytes a peek and a read deliver *)

Lemma nth_error_skipn_cons {A : Type} (l : list A) :
  forall i b, nth_error l i = Some b -> skipn i l = b :: skipn (S i) l.
Proof.
  induction l as [|x l IH]; intros [|i] b H; simpl in *; try discriminate.
  - inversion H; reflexivity.
  - apply IH; exact H.
Qed.

Lemma firstn_plus {A : Type} (a b : nat) (l : list A) :
  firstn (a + b) l = firstn a l ++ firstn b (skipn a l).
Proof.
  revert l; induction a as [|a IH]; intros l; simpl; [reflexivity|].
  destruct l as [|x l]; simpl; [rewrite firstn_nil; reflexivity|].
  rewrite IH; reflexivity.
Qed.

Lemma skipn_app_small {A : Type} (n : nat) (a b : list A) :
  (n <= length a)%nat -> skipn n (a ++ b) = skipn n a ++ b.
Proof.
  intros H. rewrite skipn_app.
  replace (n - length a)%nat with O by lia. reflexivity.
Qed.

Lemma firstn_app_small {A : Type} (n : nat) (a b : list A) :
  (n <= length a)%nat -> firstn n (a ++ b) = firstn n a.
Proof.
  intros H. rewrite firstn_app.
  replace (n - length a)%nat with O by lia. simpl. apply app_nil_r.
Qed.

Lemma payload_cons (b : MBuf) (l : list MBuf) : payload (b :: l) = data_ b ++ payload l.
Proof. reflexivity. Qed.

Lemma unread_length (c : MBufChain) :
  chain_inv c -> Z.of_nat (length (unread c)) = size_ c.
Proof.
  intros Hinv. pose proof (proj1 (cursor_inv_size _ _ _ Hinv)) as Hnn.
  destruct Hinv as (Hok & Hro & _ & _ & Hsz & _).
  unfold unread. rewrite length_skipn.
  rewrite sum_len_payload in Hsz by exact Hok. lia.
Qed.

Lemma ReadHelper_clamp_eq (c : MBufChain) (len0 : Z) (datagram : bool) :
  buffers_ c <> [] ->
  (if datagram then
     match front (buffers_ c) with
     | Some b => Done (if len0 >? pkt_len_ b then pkt_len_ b else len0)
     | None => Undefined
     end
   else Done len0) = Done (capped_len c len0 datagram).
Proof.
  intros Hne. unfold capped_len. destruct datagram; [|reflexivity].
  destruct (buffers_ c); [congruence | reflexivity].
Qed.

(** One pass of the body of a peek, with the wrap-arounds resolved. *)
Lemma rh_body_peek_eq (datagram : bool) (dst : user_out_ptr) (len : Z)
  (s : rh_state) (b : MBuf) :
  nth_error (rh_buffers s) (rh_iter s) = Some b ->
  len_ b <= kPayloadSize -> 0 <= rh_read_off s <= len_ b ->
  0 <= rh_pos s < len -> len < 2 ^ 64 ->
  let ro := rh_read_off s in
  let n := Z.min (len_ b - ro) (len - rh_pos s) in
  let st := uout_status dst (rh_pos s) n in
  rh_body true datagram dst len s =
  mkRh (rh_buffers s) (rh_size s)
       (if st =? ZX_OK then rh_pos s + n else rh_pos s)
       (S (rh_iter s)) 0 (rh_free_list s) st
       (if st =? ZX_OK then store (rh_user s) (rh_pos s) (load (data_ b) ro n)
        else rh_user s)
       (rh_trace s ++ [EvCopyToUser (rh_pos s) n st]).
Proof.
  intros Hb HbP Hro Hpos Hlen ro n st.
  pose proof kPayloadSize_u32 as HP32.
  unfold rh_body. rewrite Hb. cbv zeta.
  unfold copy_array_to_user.
  rewrite (u32_small (len_ b - rh_read_off s)) by lia.
  rewrite (u64_small (len_ b - rh_read_off s)) by lia.
  rewrite (u64_small (len - rh_pos s)) by lia.
  fold ro; fold n; fold st.
  assert (Hn : 0 <= n <= len - rh_pos s) by (unfold n, ro; lia).
  rewrite (u64_small (rh_pos s + n)) by lia.
  reflexivity.
Qed.

(** The bytes a copy of [n] bytes takes from a buffer at offset [ro], when
    the rest of the chain from that offset on is [V]. *)
Lemma load_front (data rest V : list byte) (ro n : Z) :
  0 <= ro -> 0 <= n <= Z.of_nat (length data) - ro ->
  skipn (Z.to_nat ro) (data ++ rest) = V ->
  load data ro n = firstn (Z.to_nat n) V
  /\ (n = Z.of_nat (length data) - ro -> skipn (Z.to_nat n) V = rest).
Proof.
  intros Hro Hn HV. rewrite skipn_app_small in HV by lia. subst V.
  assert (Hl : length (skipn (Z.to_nat ro) data) = Z.to_nat (Z.of_nat (length data) - ro)).
  { rewrite length_skipn. lia. }
  split.
  - unfold load. rewrite firstn_app_small by lia. reflexivity.
  - intros En. rewrite skipn_app, skipn_all2 by lia.
    replace (Z.to_nat n - length (skipn (Z.to_nat ro) data))%nat with O by lia.
    reflexivity.
Qed.

(** A peek hands out the first unread bytes of the chain, as many as were
    asked for (after the datagram cap) or as there are. *)
Lemma Peek_content (c : MBufChain) (dst : user_out_ptr) (len0 : Z) (datagram : bool) :
  chain_inv c -> len0 < 2 ^ 64 -> 0 <= capped_len c len0 datagram ->
  exists r,
    Peek c dst len0 datagram = Done r
    /\ r_chain r = c
    /\ r_user r = firstn (Z.to_nat (r_count r)) (unread c)
    /\ 0 <= r_count r <= Z.min (capped_len c len0 datagram) (size_ c)
    /\ (r_status r = ZX_OK ->
        r_count r = Z.min (capped_len c len0 datagram) (size_ c))
    /\ status_from dst (r_status r).
Proof.
  intros Hinv Hlen0 Hcap.
  pose proof (unread_length c Hinv) as HU.
  pose proof (proj1 (cursor_inv_size _ _ _ Hinv)) as Hnn.
  unfold Peek, ReadHelper.
  destruct (size_ c =? 0) eqn:E0.
  { apply Z.eqb_eq in E0. eexists; split; [reflexivity|]. simpl.
    split_ands; auto; try lia; left; reflexivity. }
  apply Z.eqb_neq in E0.
  assert (Hne : buffers_ c <> []).
  { intros E. apply E0. apply (cursor_inv_size _ _ _ Hinv); exact E. }
  rewrite (ReadHelper_clamp_eq c len0 datagram Hne).
  assert (Hlen : capped_len c len0 datagram <= len0).
  { destruct (ReadHelper_clamp c len0 datagram Hne) as (l & Hl & Hle).
    rewrite (ReadHelper_clamp_eq c len0 datagram Hne) in Hl.
    inversion Hl; subst; exact Hle. }
  set (len := capped_len c len0 datagram) in *.
  set (U := unread c) in *.
  destruct Hinv as (Hok & Hro0 & _ & Hhd0 & Hsz0 & Hmax0).
  specialize (Hhd0 Hne).
  set (I := fun s : rh_state =>
              rh_buffers s = buffers_ c /\ rh_size s = size_ c
              /\ 0 <= rh_pos s <= len
              /\ rh_pos s <= Z.of_nat (length U)
              /\ rh_user s = firstn (Z.to_nat (rh_pos s)) U
              /\ status_from dst (rh_status s)
              /\ (rh_status s = ZX_OK -> rh_pos s < len ->
                  (rh_read_off s = 0
                   \/ (rh_iter s = O /\ rh_read_off s = read_cursor_off_ c))
                  /\ skipn (Z.to_nat (rh_read_off s))
                           (payload (skipn (rh_iter s) (buffers_ c)))
                     = skipn (Z.to_nat (rh_pos s)) U)).
  destruct (while_loop_inv I (fun s => length (rh_buffers s) - rh_iter s)%nat
              (rh_cond len) (rh_body true datagram dst len)) with
    (fuel := length (buffers_ c))
    (s := mkRh (buffers_ c) (size_ c) 0 0 (read_cursor_off_ c) [] ZX_OK [] [])
    as (s & -> & (Hb & Hsz & Hpos & HposU & Huser & Hst & Hcont) & Hend).
  - intros s (Hb & Hsz & Hpos & HposU & Huser & Hst & Hcont) Hc.
    unfold rh_cond in Hc.
    apply andb_prop in Hc; destruct Hc as [Hc Est].
    apply andb_prop in Hc; destruct Hc as [Hlt Hit].
    apply Z.ltb_lt in Hlt. apply Nat.ltb_lt in Hit. apply Z.eqb_eq in Est.
    destruct (Hcont Est Hlt) as [Hro HV].
    destruct (nth_error (rh_buffers s) (rh_iter s)) as [b|] eqn:En;
      [|apply nth_error_None in En; lia].
    assert (Hbok : cell_ok b).
    { rewrite Hb in En. apply nth_error_In in En.
      rewrite Forall_forall in Hok. apply Hok; exact En. }
    destruct Hbok as [HbP Hbdata].
    assert (Hrob : 0 <= rh_read_off s <= len_ b).
    { destruct Hro as [-> | [Hi ->]]; [lia|].
      rewrite Hb, Hi in En. destruct (buffers_ c) as [|x l]; [discriminate|].
      simpl in En. inversion En; subst. simpl in Hhd0. lia. }
    rewrite (rh_body_peek_eq datagram dst len s b En) by lia.
    cbv zeta.
    set (n := Z.min (len_ b - rh_read_off s) (len - rh_pos s)).
    assert (Hn : 0 <= n <= len_ b - rh_read_off s) by (unfold n; lia).
    split; [|left; cbn [rh_buffers rh_iter]; lia].
    rewrite Hb in En.
    rewrite (nth_error_skipn_cons _ _ _ En), payload_cons in HV.
    destruct (load_front (data_ b) (payload (skipn (S (rh_iter s)) (buffers_ c)))
                (skipn (Z.to_nat (rh_pos s)) U) (rh_read_off s) n
                ltac:(lia) ltac:(lia) HV) as [Hload Hrest].
    assert (HlenV : (Z.to_nat n <= length (skipn (Z.to_nat (rh_pos s)) U))%nat).
    { rewrite <- HV, length_skipn, length_app. lia. }
    rewrite length_skipn in HlenV.
    unfold I. cbn [rh_buffers rh_size rh_pos rh_user rh_status rh_read_off rh_iter].
    destruct (uout_status dst (rh_pos s) n =? ZX_OK) eqn:Est'.
    + split_ands; auto; try lia.
      * rewrite store_append by (rewrite Huser, length_firstn; lia).
        rewrite Hload, Huser, Z2Nat.inj_add by lia.
        symmetry; apply firstn_plus.
      * left; apply Z.eqb_eq; exact Est'.
      * intros _ Hlt'. split; [left; reflexivity|].
        change (Z.to_nat 0) with O. rewrite skipn_O.
        rewrite Z2Nat.inj_add, Nat.add_comm, <- skipn_skipn by lia.
        symmetry; apply Hrest. unfold n in *. lia.
    + apply Z.eqb_neq in Est'.
      split_ands; auto; try lia.
      right; eauto.
  - intros s _ Hc. unfold rh_cond in Hc.
    apply andb_prop in Hc; destruct Hc as [Hc _].
    apply andb_prop in Hc; destruct Hc as [_ Hc].
    apply Nat.ltb_lt in Hc. lia.
  - unfold I; cbn [rh_buffers rh_size rh_pos rh_user rh_status rh_read_off rh_iter].
    split_ands; auto; try lia; try (left; reflexivity).
  - simpl; lia.
  - cbn [negb andb]. eexists; split; [reflexivity|].
    cbn [r_chain r_count r_status r_user]. rewrite Hb, Hsz.
    split_ands; auto; try lia.
    + destruct c; reflexivity.
    + intros Est. unfold rh_cond in Hend. rewrite Est in Hend.
      replace (ZX_OK =? ZX_OK) with true in Hend by reflexivity.
      rewrite andb_true_r in Hend.
      apply andb_false_elim in Hend. destruct Hend as [Hend | Hend].
      * apply Z.ltb_ge in Hend. lia.
      * apply Nat.ltb_ge in Hend.
        destruct (Z.lt_ge_cases (rh_pos s) len) as [Hlt | Hge]; [|lia].
        destruct (Hcont Est Hlt) as [_ HV].
        rewrite Hb in Hend.
        rewrite (skipn_all2 (buffers_ c) Hend) in HV.
        unfold payload in HV. simpl in HV. rewrite skipn_nil in HV.
        symmetry in HV.
        assert (Hl : length (skipn (Z.to_nat (rh_pos s)) U) = O)
          by (rewrite HV; reflexivity).
        rewrite length_skipn in Hl. lia.
Qed.

(** A stream read hands out the first unread bytes of the chain, in order,
    and leaves the others. *)
Lemma Read_stream_content (c : MBufChain) (dst : user_out_ptr) (len : Z) :
  chain_inv c -> 0 <= len < 2 ^ 64 ->
  exists r,
    Read c dst len false = Done r
    /\ chain_inv (r_chain r)
    /\ r_user r = firstn (Z.to_nat (r_count r)) (unread c)
    /\ unread (r_chain r) = skipn (Z.to_nat (r_count r)) (unread c)
    /\ size_ (r_chain r) = size_ c - r_count r
    /\ 0 <= r_count r <= Z.min len (size_ c)
    /\ (r_status r = ZX_OK -> r_count r = Z.min len (size_ c))
    /\ status_from dst (r_status r).
Proof.
  intros Hinv Hlen.
  pose proof (unread_length c Hinv) as HU.
  pose proof (proj1 (cursor_inv_size _ _ _ Hinv)) as Hnn.
  unfold Read, ReadHelper.
  destruct (size_ c =? 0) eqn:E0.
  { apply Z.eqb_eq in E0. eexists; split; [reflexivity|]. simpl.
    split_ands; auto; try lia; left; reflexivity. }
  apply Z.eqb_neq in E0.
  set (U := unread c) in *.
  set (I := fun s : rh_state =>
              read_inv s
              /\ rh_pos s <= len
              /\ rh_size s = size_ c - rh_pos s
              /\ rh_user s = firstn (Z.to_nat (rh_pos s)) U
              /\ skipn (Z.to_nat (rh_read_off s)) (payload (rh_buffers s))
                 = skipn (Z.to_nat (rh_pos s)) U
              /\ status_from dst (rh_status s)).
  destruct (while_loop_inv I (fun s => length (rh_buffers s))
              (rh_cond len) (rh_body false false dst len)) with
    (fuel := length (buffers_ c))
    (s := mkRh (buffers_ c) (size_ c) 0 0 (read_cursor_off_ c) [] ZX_OK [] [])
    as (s & -> & ((Hs & Hit & Hpos0) & Hpos & Hsz & Huser & HV & Hst) & Hend).
  - intros s (Hs & Hpos & Hsz & Huser & HV & Hst) Hc.
    destruct (rh_body_read_step false dst len s ltac:(lia) Hs Hc) as [H1 H2].
    split; [|exact H2].
    unfold I. split; [exact H1|]. clear H1 H2.
    destruct Hs as (Hcur & Hit & Hpos0).
    pose proof (proj1 (cursor_inv_size _ _ _ Hcur)) as Hsznn.
    unfold rh_cond in Hc.
    apply andb_prop in Hc; destruct Hc as [Hc _].
    apply andb_prop in Hc; destruct Hc as [Hlt Hiter].
    apply Z.ltb_lt in Hlt. apply Nat.ltb_lt in Hiter. rewrite Hit in Hiter.
    destruct (rh_buffers s) as [|b rest] eqn:Eb; [simpl in Hiter; lia|].
    pose proof Hcur as (Hok & Hro & _ & Hhd & Hsize & Hmax).
    specialize (Hhd ltac:(discriminate)); simpl in Hhd.
    inversion Hok as [|? ? [HbP Hbdata] Hrest]; subst.
    pose proof (sum_len_nonneg rest Hrest) as Hsum.
    pose proof kSizeMax_u32 as HM.
    rewrite sum_len_cons in Hsize.
    rewrite (rh_body_read_eq false dst len s b rest) by (auto; lia).
    cbv zeta. rewrite orb_false_r.
    set (n := Z.min (len_ b - rh_read_off s) (len - rh_pos s)).
    assert (Hn : 0 <= n <= len_ b - rh_read_off s) by (unfold n; lia).
    rewrite payload_cons in HV.
    destruct (load_front (data_ b) (payload rest)
                (skipn (Z.to_nat (rh_pos s)) U) (rh_read_off s) n
                ltac:(lia) ltac:(lia) HV) as [Hload Hrest'].
    assert (HposU : rh_pos s <= Z.of_nat (length U)) by lia.
    destruct (uout_status dst (rh_pos s) n =? ZX_OK) eqn:Est.
    + assert (Huser' :
        store (rh_user s) (rh_pos s) (load (data_ b) (rh_read_off s) n)
        = firstn (Z.to_nat (rh_pos s + n)) U).
      { rewrite store_append by (rewrite Huser, length_firstn; lia).
        rewrite Hload, Huser, Z2Nat.inj_add by lia.
        symmetry; apply firstn_plus. }
      assert (Hst' : status_from dst (uout_status dst (rh_pos s) n))
        by (left; apply Z.eqb_eq; exact Est).
      destruct (rh_read_off s + n =? len_ b) eqn:Efull;
        cbn [rh_buffers rh_size rh_pos rh_user rh_status rh_read_off].
      * apply Z.eqb_eq in Efull.
        split_ands; auto; try lia.
        change (Z.to_nat 0) with O. rewrite skipn_O.
        rewrite Z2Nat.inj_add, Nat.add_comm, <- skipn_skipn by lia.
        symmetry; apply Hrest'. lia.
      * split_ands; auto; try lia.
        rewrite payload_cons, !Z2Nat.inj_add by lia.
        rewrite (Nat.add_comm (Z.to_nat (rh_read_off s))),
                (Nat.add_comm (Z.to_nat (rh_pos s))).
        rewrite <- !skipn_skipn. rewrite HV. reflexivity.
    + cbn [rh_buffers rh_size rh_pos rh_user rh_status rh_read_off].
      rewrite payload_cons.
      split_ands; auto; try lia.
      right. apply Z.eqb_neq in Est. eauto.
  - intros s ((_ & Hit & _) & _) Hc. unfold rh_cond in Hc.
    apply andb_prop in Hc; destruct Hc as [Hc _].
    apply andb_prop in Hc; destruct Hc as [_ Hc].
    apply Nat.ltb_lt in Hc. lia.
  - unfold I, read_inv;
      cbn [rh_buffers rh_size rh_pos rh_user rh_status rh_read_off rh_iter].
    split_ands; auto; try lia; try (left; reflexivity).
  - simpl; lia.
  - cbn [negb andb]. eexists; split; [reflexivity|].
    cbn [r_chain r_count r_status r_user buffers_ read_cursor_off_ size_].
    pose proof (proj1 (cursor_inv_size _ _ _ Hs)) as Hsznn.
    split_ands; auto; try lia.
    intros Est. unfold rh_cond in Hend. rewrite Est, Hit in Hend.
    replace (ZX_OK =? ZX_OK) with true in Hend by reflexivity.
    rewrite andb_true_r in Hend.
    apply andb_false_elim in Hend. destruct Hend as [Hend | Hend].
    + apply Z.ltb_ge in Hend. lia.
    + apply Nat.ltb_ge in Hend.
      assert (Eb : rh_buffers s = []) by (destruct (rh_buffers s); [reflexivity | simpl in Hend; lia]).
      pose proof (proj2 (proj2 (cursor_inv_size _ _ _ Hs)) Eb). lia.
Qed.

(** ** Further properties: datagrams in and out *)

(** A datagram read of at least one byte on a chain in datagram mode (the
    statement is that of [Read_datagram_framing], kept apart so that what
    follows does not rest on it). *)
Lemma Read_datagram_step (c : MBufChain) (dst : user_out_ptr) (len0 : Z)
  (d : list byte) (ds : list (list byte)) :
  dgram_chain c (d :: ds) -> 0 < len0 < 2 ^ 64 ->
  exists r,
    Read c dst len0 true = Done r
    /\ prefix_of (r_user r) d
    /\ r_count r = Z.of_nat (length (r_user r))
    /\ (r_status r = ZX_OK -> r_user r = firstn (Z.to_nat len0) d)
    /\ dgram_chain (r_chain r) ds
    /\ pages_held (r_trace r)
       = Z.of_nat (length (buffers_ (r_chain r))) - Z.of_nat (length (buffers_ c)).
Proof.
  intros (Hcells & Hoff & Hsize & Hmax) Hlen0.
  pose proof kSizeMax_u32 as HM.
  inversion Hcells as [|d' ds' h t rest Hf Hrest Ed Eb]; subst d' ds'.
  pose proof (frame_ok_sum d h t Hf) as Hsum.
  pose proof (frame_ok_pkt_len d h t Hf) as Hpkt0.
  pose proof Hf as (Hpkt & Hdne & Hbody & Hok & Hpay).
  destruct (dgram_cells_facts ds rest Hrest) as (Hokr & Hsumr & Hhead).
  simpl concat in Hsize. rewrite length_app in Hsize.
  unfold Read, ReadHelper. rewrite <- Eb. cbn [front hd_error].
  destruct (size_ c =? 0) eqn:E0; [apply Z.eqb_eq in E0; lia|].
  set (len := if len0 >? pkt_len_ h then pkt_len_ h else len0).
  assert (Elen : len = Z.min len0 (Z.of_nat (length d))).
  { unfold len. destruct (len0 >? pkt_len_ h) eqn:E.
    - rewrite Z.gtb_ltb in E; apply Z.ltb_lt in E. lia.
    - rewrite Z.gtb_ltb in E; apply Z.ltb_ge in E. lia. }
  clearbody len.
  set (s0 := mkRh (h :: t ++ rest) (size_ c) 0 0 (read_cursor_off_ c) [] ZX_OK [] []).
  destruct (while_loop_inv (dgram_read_inv d (h :: t) rest (size_ c) len)
              (fun s => length (rh_buffers s))
              (rh_cond len) (rh_body false true dst len)) with
    (fuel := length (h :: t ++ rest)) (s := s0)
    as (s & -> & (done & todo & Hfr & Hb & Hit & Hro & Hsz & Hfree & Hpos
                  & Huser & Hst & Hdone & Hheld) & Hend).
  - intros s Hs Hc.
    destruct (rh_body_dgram_step dst d (h :: t) rest (size_ c) len s Hok Hpay
                ltac:(lia) ltac:(lia) ltac:(lia) Hs Hc) as [H1 H2].
    split; [exact H1 | left; exact H2].
  - intros s _ Hc. unfold rh_cond in Hc.
    apply andb_prop in Hc; destruct Hc as [Hc _].
    apply andb_prop in Hc; destruct Hc as [_ Hc].
    apply Nat.ltb_lt in Hc. lia.
  - exists [], (h :: t). unfold s0; simpl.
    split_ands; auto; lia.
  - unfold s0; simpl; lia.
  - cbn [negb andb].
    (* the loop ran at least once *)
    assert (Hdne' : done <> []).
    { intros E. destruct (Hdone E) as [Hp0 Hs0]. subst done. simpl in Hfr.
      subst todo. unfold rh_cond in Hend. rewrite Hp0, Hs0, Hit, Hb in Hend.
      simpl in Hend.
      replace (0 <? len) with true in Hend by (symmetry; apply Z.ltb_lt; lia).
      discriminate. }
    destruct done as [|h' done']; [congruence|].
    simpl in Hfr. inversion Hfr; subst h'. subst t.
    apply Forall_app in Hbody. destruct Hbody as [_ Hbodyt].
    assert (Hokt : Forall cell_ok todo).
    { inversion Hok as [|? ? _ Hok']; subst.
      apply Forall_app in Hok'. tauto. }
    assert (Hokd : Forall cell_ok (h :: done')).
    { inversion Hok as [|? ? Hh Hok']; subst.
      apply Forall_app in Hok'. constructor; tauto. }
    change (h :: done' ++ todo) with ((h :: done') ++ todo) in Hsum.
    rewrite sum_len_app in Hsum.
    pose proof (sum_len_nonneg todo Hokt) as Hnnt.
    pose proof (sum_len_nonneg _ Hokd) as Hnnd.
    rewrite Hb, Hro.
    rewrite (rh_drain_frame rest Hhead) by (try assumption; lia).
    assert (Hfl : (length (rev todo ++ rh_free_list s) =? 0)%nat = false).
    { rewrite Hfree, length_app, !length_rev. simpl. apply Nat.eqb_neq. lia. }
    rewrite Hfl. cbn [negb].
    eexists; split; [reflexivity|].
    cbn [r_user r_count r_status r_chain r_trace buffers_].
    assert (Hposd : rh_pos s <= Z.of_nat (length d)) by lia.
    split_ands.
    + exists (skipn (Z.to_nat (rh_pos s)) d).
      rewrite Huser. symmetry; apply firstn_skipn.
    + rewrite Huser, length_firstn. lia.
    + intros Hs. specialize (Hst Hs). rewrite Huser.
      assert (Hfull : rh_pos s = len).
      { unfold rh_cond in Hend. rewrite Hs, Hit, Hb in Hend.
        replace (ZX_OK =? ZX_OK) with true in Hend by reflexivity.
        rewrite andb_true_r in Hend.
        apply andb_false_elim in Hend. destruct Hend as [Hend | Hend].
        - apply Z.ltb_ge in Hend. lia.
        - apply Nat.ltb_ge in Hend.
          destruct todo; [|simpl in Hend; lia].
          change (sum_len []) with 0 in Hsum. lia. }
      rewrite Hfull, Elen.
      destruct (Z.le_ge_cases len0 (Z.of_nat (length d))) as [Hle | Hge].
      * rewrite Z.min_l by lia. reflexivity.
      * rewrite Z.min_r by lia.
        rewrite Nat2Z.id, !firstn_all2 by lia. reflexivity.
    + unfold dgram_chain; cbn [buffers_ read_cursor_off_ size_].
      split_ands; [exact Hrest | reflexivity | lia | lia].
    + rewrite pages_held_app, Hheld. unfold FreeMBufs. cbn [pages_held].
      rewrite Hfree.
      repeat (rewrite length_app || rewrite length_rev || cbn [length rev]).
      lia.
Qed.

Lemma dgram_cells_payload (ds : list (list byte)) (cells : list MBuf) :
  dgram_cells ds cells -> payload cells = concat ds.
Proof.
  induction 1 as [|d ds h t rest Hf _ IH]; [reflexivity|].
  destruct Hf as (_ & _ & _ & _ & Hpay).
  change (h :: t ++ rest) with ((h :: t) ++ rest).
  rewrite payload_app, Hpay, IH. reflexivity.
Qed.

(** A chain in datagram mode satisfies the invariant, and its unread bytes
    are its datagrams one after the other. *)
Lemma dgram_chain_inv (c : MBufChain) (ds : list (list byte)) :
  dgram_chain c ds -> chain_inv c /\ unread c = concat ds.
Proof.
  intros (Hcells & Hoff & Hsize & Hmax).
  destruct (dgram_cells_facts ds _ Hcells) as (Hok & Hsum & Hhead).
  split.
  - unfold chain_inv, cursor_inv. rewrite Hoff.
    split_ands; auto; try lia.
    intros Hne. destruct Hhead as [E | (h & l & E & _)]; [congruence|].
    rewrite E in *. inversion Hok as [|? ? [Hh _] _]; subst. simpl; lia.
  - unfold unread. rewrite Hoff. simpl. apply dgram_cells_payload; exact Hcells.
Qed.

Lemma status_from_ok (dst : user_out_ptr) (st : zx_status_t) :
  (forall off count, uout_status dst off count = ZX_OK) ->
  status_from dst st -> st = ZX_OK.
Proof.
  intros Hgood [H | (off & count & H & Hne)]; [exact H|].
  rewrite H in Hne. rewrite Hgood in Hne. congruence.
Qed.

(** ** Further properties, stated *)

(** X2: a stream write, whatever its status, puts exactly the first
    [*written] bytes of the source behind the unread bytes of the chain, in
    order, and changes nothing of what was there. *)
Theorem WriteStream_appends_to_unread (pmm : Z -> bool) (src : user_in_ptr)
  (len : Z) (c : MBufChain) :
  chain_inv c -> 0 <= len < 2 ^ 64 ->
  let r := WriteStream pmm src len c in
  unread (r_chain r) = unread c ++ user_bytes src 0 (r_count r)
  /\ size_ (r_chain r) = size_ c + r_count r
  /\ 0 <= r_count r <= len.
Proof.
  intros Hinv Hlen r.
  pose proof (WriteStream_spec pmm src len c Hinv Hlen) as Hs.
  cbv zeta in Hs. fold r in Hs.
  destruct Hs as (Hw & Hsz & Hro & _ & Hpay & _).
  pose proof (proj1 (cursor_inv_size _ _ _ Hinv)) as Hnn.
  destruct Hinv as (Hok & Hro0 & _ & _ & Hsize & _).
  split_ands; try lia.
  unfold unread. rewrite Hro, Hpay.
  apply skipn_app_small.
  rewrite sum_len_payload in Hsize by exact Hok. lia.
Qed.

(** X3: a stream read ([datagram = false]) hands the user the first
    [*actual] unread bytes of the chain, in the order they were written,
    leaves the following ones unread, and lowers [size_] by [*actual]; when it
    returns [ZX_OK], [*actual] is [min len size_]; otherwise the status is
    the one the failed copy returned and [*actual] counts the bytes copied
    before it. *)
Theorem Read_stream_fifo (c : MBufChain) (dst : user_out_ptr) (len : Z) :
  chain_inv c -> 0 <= len < 2 ^ 64 ->
  exists r,
    Read c dst len false = Done r
    /\ r_user r = firstn (Z.to_nat (r_count r)) (unread c)
    /\ unread (r_chain r) = skipn (Z.to_nat (r_count r)) (unread c)
    /\ size_ (r_chain r) = size_ c - r_count r
    /\ 0 <= r_count r <= Z.min len (size_ c)
    /\ (r_status r = ZX_OK -> r_count r = Z.min len (size_ c))
    /\ status_from dst (r_status r).
Proof.
  intros Hinv Hlen.
  destruct (Read_stream_content c dst len Hinv Hlen) as (r & Hr & _ & H).
  exists r; split; [exact Hr | exact H].
Qed.

(** X4: a peek with [datagram = false] copies out the first [*actual] unread
    bytes of the chain, starting at the read cursor and crossing buffers, and
    [*actual] is [min len size_] when it returns [ZX_OK]; a failed copy ends
    it with the status of that copy and the bytes copied so far. *)
Theorem Peek_stream_content (c : MBufChain) (dst : user_out_ptr) (len : Z) :
  chain_inv c -> 0 <= len < 2 ^ 64 ->
  exists r,
    Peek c dst len false = Done r
    /\ r_user r = firstn (Z.to_nat (r_count r)) (unread c)
    /\ 0 <= r_count r <= Z.min len (size_ c)
    /\ (r_status r = ZX_OK -> r_count r = Z.min len (size_ c))
    /\ status_from dst (r_status r).
Proof.
  intros Hinv Hlen.
  destruct (Peek_content c dst len false Hinv ltac:(lia) ltac:(simpl; lia))
    as (r & Hr & _ & H).
  exists r; split; [exact Hr | exact H].
Qed.

(** X5: with a destination that accepts every copy, a peek and a stream read
    with the same length both return [ZX_OK] with the same count and the same
    bytes; the read then leaves the chain without them. *)
Theorem Peek_then_Read_agree (c : MBufChain) (dst : user_out_ptr) (len : Z) :
  chain_inv c -> 0 <= len < 2 ^ 64 ->
  (forall off count, uout_status dst off count = ZX_OK) ->
  exists p r,
    Peek c dst len false = Done p
    /\ Read c dst len false = Done r
    /\ r_status p = ZX_OK /\ r_status r = ZX_OK
    /\ r_count r = r_count p
    /\ r_user r = r_user p
    /\ unread c = r_user r ++ unread (r_chain r).
Proof.
  intros Hinv Hlen Hgood.
  destruct (Peek_content c dst len false Hinv ltac:(lia) ltac:(simpl; lia))
    as (p & Hp & _ & Hpu & _ & Hpc & Hps).
  destruct (Read_stream_content c dst len Hinv Hlen)
    as (r & Hr & _ & Hru & Hrest & _ & _ & Hrc & Hrs).
  apply (status_from_ok dst _ Hgood) in Hps.
  apply (status_from_ok dst _ Hgood) in Hrs.
  specialize (Hpc Hps). specialize (Hrc Hrs). simpl in Hpc.
  exists p, r. split_ands; auto; try congruence.
  rewrite Hru, Hrest. symmetry; apply firstn_skipn.
Qed.

(** X6: from the empty chain, a stream write of [len <= kSizeMax] bytes that
    meets no failed copy and no failed allocation, followed by a stream read
    of [len] bytes into a destination that accepts every copy, gives back
    exactly the bytes written and leaves the empty chain: no buffer linked,
    cursor and size 0. *)
Theorem stream_round_trip (pmm : Z -> bool) (src : user_in_ptr)
  (dst : user_out_ptr) (len : Z) :
  0 < len <= kSizeMax ->
  let w := WriteStream pmm src len empty_chain in
  existsb is_failed_copy (r_trace w) = false ->
  existsb is_failed_alloc (r_trace w) = false ->
  (forall off count, uout_status dst off count = ZX_OK) ->
  r_status w = ZX_OK /\ r_count w = len
  /\ exists r,
       Read (r_chain w) dst len false = Done r
       /\ r_status r = ZX_OK
       /\ r_count r = len
       /\ r_user r = user_bytes src 0 len
       /\ r_chain r = empty_chain.
Proof.
  intros Hlen w Hnf Hna Hgood.
  pose proof kSizeMax_u32 as HM.
  assert (Hl : 0 <= len < 2 ^ 64) by lia.
  pose proof (WriteStream_spec pmm src len empty_chain empty_chain_inv Hl) as Hs.
  cbv zeta in Hs. fold w in Hs.
  destruct Hs as (Hw & Hsz & Hro & _ & Hpay & _ & _ & _ & _ & _ & _ & Hcase).
  pose proof (WriteStream_inv pmm src len empty_chain empty_chain_inv Hl) as Hinv.
  fold w in Hinv. simpl in Hsz, Hro, Hpay, Hw.
  destruct Hcase as [(_ & Hst & Hfull) | (count & Hf)];
    [|apply fails_at_existsb in Hf; congruence].
  specialize (Hfull Hna). simpl in Hfull.
  assert (Ew : r_count w = len) by lia.
  rewrite Ew in *.
  replace (len =? 0) with false in Hst by (symmetry; apply Z.eqb_neq; lia).
  split_ands; auto.
  destruct (Read_stream_content (r_chain w) dst len Hinv Hl)
    as (r & Hr & Hinv' & Hru & _ & Hrsz & _ & Hrc & Hrs).
  apply (status_from_ok dst _ Hgood) in Hrs. specialize (Hrc Hrs).
  assert (Ec : r_count r = len) by lia.
  exists r. split_ands; auto.
  - rewrite Hru, Ec. unfold unread. rewrite Hro, Hpay. simpl.
    rewrite <- (user_bytes_length src 0 len) at 1. apply firstn_all.
  - destruct (cursor_inv_size _ _ _ Hinv') as [_ Hemp].
    assert (E0 : size_ (r_chain r) = 0) by lia.
    pose proof (proj1 Hemp E0) as Eb.
    destruct Hinv' as (_ & _ & Hnil & _).
    specialize (Hnil Eb).
    clear - E0 Eb Hnil.
    destruct (r_chain r) as [b ro sz]; simpl in *. subst. reflexivity.
Qed.

(** X7: a read with [datagram = true] on a chain whose buffers all carry
    [pkt_len_ = 0] (a chain written in stream mode) copies nothing, returns
    [ZX_OK] with [*actual = 0], and unlinks and frees every buffer: all the
    unread bytes are dropped and the chain is left empty. *)
Theorem Read_datagram_on_stream_drops_all (c : MBufChain) (dst : user_out_ptr)
  (len : Z) :
  chain_inv c -> Forall (fun b => pkt_len_ b = 0) (buffers_ c) ->
  size_ c <> 0 -> 0 <= len ->
  Read c dst len true
  = Done (mkResult empty_chain 0 ZX_OK [] [EvFreeList (length (buffers_ c))]).
Proof.
  intros Hinv Hpkt E0 Hlen.
  pose proof kSizeMax_u32 as HM. pose proof kPayloadSize_u32 as HP32.
  assert (Hne : buffers_ c <> []).
  { intros E. apply E0. apply (cursor_inv_size _ _ _ Hinv); exact E. }
  destruct Hinv as (Hok & Hro & _ & Hhd & Hsz & Hmax).
  specialize (Hhd Hne).
  unfold Read, ReadHelper.
  replace (size_ c =? 0) with false by (symmetry; apply Z.eqb_neq; exact E0).
  destruct (buffers_ c) as [|b rest] eqn:Eb; [congruence|].
  inversion Hpkt as [|? ? Hb Hrest]; subst.
  inversion Hok as [|? ? [HbP _] Hokr]; subst.
  pose proof (sum_len_nonneg rest Hokr) as Hnn.
  rewrite sum_len_cons in Hsz. simpl in Hhd.
  cbn [front hd_error]. rewrite Hb.
  assert (Ecap : (if len >? 0 then 0 else len) = 0).
  { destruct (len >? 0) eqn:E; [reflexivity|].
    rewrite Z.gtb_ltb in E; apply Z.ltb_ge in E. lia. }
  rewrite Ecap.
  cbn [length while_loop rh_cond rh_pos Z.ltb Z.compare andb negb].
  cbn [rh_drain rh_buffers rh_size rh_read_off rh_free_list].
  rewrite Hb. cbn [Z.eqb].
  rewrite (u32_small (len_ b - read_cursor_off_ c)) by lia.
  rewrite (u64_small (size_ c - (len_ b - read_cursor_off_ c))) by lia.
  pose proof (rh_drain_frame [] (or_introl eq_refl) rest
                (size_ c - (len_ b - read_cursor_off_ c)) [b] Hrest Hokr
                ltac:(lia)) as Hd.
  rewrite app_nil_r in Hd. rewrite Hd.
  assert (Hfl : (length (rev rest ++ [b]) =? 0)%nat = false).
  { rewrite length_app. simpl. apply Nat.eqb_neq. lia. }
  rewrite Hfl. cbn [negb rh_trace rh_pos rh_status rh_user app].
  unfold FreeMBufs, empty_chain.
  rewrite length_app, length_rev. simpl length.
  replace (length rest + 1)%nat with (S (length rest)) by lia.
  repeat f_equal. lia.
Qed.

(** X8: a datagram write that returns [ZX_OK] has linked, behind the buffers
    already there, exactly [NumBuffersForPayload len] new buffers, each one a
    page taken from the allocator during the call: all full but the last,
    holding the [len] bytes of the source in order, the first with
    [pkt_len_ = len] and the others with [pkt_len_ = 0]; [*written] is [len]
    and [size_] grew by [len]. *)
Theorem WriteDatagram_ok_layout (pmm : Z -> bool) (src : user_in_ptr) (len : Z)
  (c : MBufChain) (r : op_result) :
  0 <= size_ c <= kSizeMax -> 0 <= len < 2 ^ 64 ->
  WriteDatagram pmm src len c = Done r -> r_status r = ZX_OK ->
  0 < len /\ len + size_ c <= kSizeMax
  /\ r_count r = len
  /\ size_ (r_chain r) = size_ c + len
  /\ read_cursor_off_ (r_chain r) = read_cursor_off_ c
  /\ existsb is_failed_alloc (r_trace r) = false
  /\ existsb is_failed_copy (r_trace r) = false
  /\ exists h t,
       buffers_ (r_chain r) = buffers_ c ++ h :: t
       /\ Z.of_nat (length (h :: t)) = NumBuffersForPayload len
       /\ pages_held (r_trace r) = Z.of_nat (length (h :: t))
       /\ Forall cell_ok (h :: t)
       /\ packed (h :: t)
       /\ payload (h :: t) = user_bytes src 0 len
       /\ pkt_len_ h = len
       /\ Forall (fun b => pkt_len_ b = 0) t.
Proof. apply WriteDatagram_ok_shape. Qed.

(** X9: a datagram write returns one of four statuses and never the status
    of a user copy: a failed copy, whatever status it had, gives
    [ZX_ERR_INVALID_ARGS]; a failed allocation gives [ZX_ERR_SHOULD_WAIT]
    before any copy is tried; and [ZX_OK] is returned exactly when [len] is
    not 0, [len + size_] fits the capacity, and neither the allocation nor a
    copy failed. *)
Theorem WriteDatagram_statuses (pmm : Z -> bool) (src : user_in_ptr) (len : Z)
  (c : MBufChain) :
  0 <= size_ c <= kSizeMax -> 0 <= len < 2 ^ 64 ->
  exists r,
    WriteDatagram pmm src len c = Done r
    /\ (r_status r = ZX_OK \/ r_status r = ZX_ERR_INVALID_ARGS
        \/ r_status r = ZX_ERR_OUT_OF_RANGE \/ r_status r = ZX_ERR_SHOULD_WAIT)
    /\ (existsb is_failed_copy (r_trace r) = true ->
        r_status r = ZX_ERR_INVALID_ARGS)
    /\ (existsb is_failed_alloc (r_trace r) = true ->
        r_status r = ZX_ERR_SHOULD_WAIT
        /\ existsb is_failed_copy (r_trace r) = false)
    /\ (r_status r = ZX_OK <->
        0 < len /\ len + size_ c <= kSizeMax
        /\ existsb is_failed_alloc (r_trace r) = false
        /\ existsb is_failed_copy (r_trace r) = false).
Proof. apply WriteDatagram_status. Qed.

(** X10: a datagram write that returns [ZX_OK] on a chain holding the
    datagrams [ds] leaves a chain holding [ds] followed by the [len] bytes of
    the source: the new datagram is the last of the queue. *)
Theorem WriteDatagram_enqueues (pmm : Z -> bool) (src : user_in_ptr) (len : Z)
  (c : MBufChain) (ds : list (list byte)) (r : op_result) :
  dgram_chain c ds -> 0 <= len < 2 ^ 64 ->
  WriteDatagram pmm src len c = Done r -> r_status r = ZX_OK ->
  dgram_chain (r_chain r) (ds ++ [user_bytes src 0 len]).
Proof.
  intros Hd Hlen Hr Hst.
  apply (WriteDatagram_dgram_chain pmm src len c ds r Hd Hlen Hr Hst).
Qed.

Lemma firstn_min_length (len : Z) (d : list byte) :
  0 <= len ->
  firstn (Z.to_nat (Z.min len (Z.of_nat (length d)))) d = firstn (Z.to_nat len) d.
Proof.
  intros Hlen.
  destruct (Z.le_ge_cases len (Z.of_nat (length d))) as [Hle | Hge].
  - rewrite Z.min_l by lia. reflexivity.
  - rewrite Z.min_r by lia. rewrite Nat2Z.id, !firstn_all2 by lia. reflexivity.
Qed.

Lemma dgram_chain_capped (c : MBufChain) (d : list byte) (ds : list (list byte))
  (len : Z) :
  dgram_chain c (d :: ds) ->
  capped_len c len true = Z.min len (Z.of_nat (length d))
  /\ Z.of_nat (length d) <= size_ c.
Proof.
  intros (Hcells & _ & Hsize & _).
  inversion Hcells as [|d' ds' h t rest Hf Hrest Ed Eb]; subst.
  destruct Hf as (Hpkt & _).
  split.
  - unfold capped_len. rewrite <- Eb. simpl. rewrite Hpkt.
    destruct (len >? Z.of_nat (length d)) eqn:E.
    + rewrite Z.gtb_ltb in E; apply Z.ltb_lt in E. lia.
    + rewrite Z.gtb_ltb in E; apply Z.ltb_ge in E. lia.
  - simpl in Hsize. rewrite length_app in Hsize. lia.
Qed.

(** X11: on a chain in datagram mode whose oldest datagram is [d], a peek
    with [datagram = true] copies out a prefix of [d] and never a byte of the
    next datagram, however large [len] is; it is the first [len] bytes of [d]
    when the peek returns [ZX_OK]; and the chain is left as it was. *)
Theorem Peek_datagram_content (c : MBufChain) (dst : user_out_ptr) (len : Z)
  (d : list byte) (ds : list (list byte)) :
  dgram_chain c (d :: ds) -> 0 <= len < 2 ^ 64 ->
  exists p,
    Peek c dst len true = Done p
    /\ r_chain p = c
    /\ prefix_of (r_user p) d
    /\ r_count p = Z.of_nat (length (r_user p))
    /\ (r_status p = ZX_OK -> r_user p = firstn (Z.to_nat len) d).
Proof.
  intros Hd Hlen.
  destruct (dgram_chain_inv c _ Hd) as [Hinv HU].
  destruct (dgram_chain_capped c d ds len Hd) as [Hcap Hsz].
  destruct (Peek_content c dst len true Hinv ltac:(lia) ltac:(rewrite Hcap; lia))
    as (p & Hp & Hc & Hpu & Hpr & Hpc & _).
  rewrite Hcap in Hpr, Hpc. rewrite HU in Hpu. simpl concat in Hpu.
  assert (Hpu' : r_user p = firstn (Z.to_nat (r_count p)) d).
  { rewrite Hpu. apply firstn_app_small. lia. }
  exists p. split_ands; auto.
  - exists (skipn (Z.to_nat (r_count p)) d).
    rewrite Hpu'. symmetry; apply firstn_skipn.
  - rewrite Hpu', length_firstn. lia.
  - intros Hst. rewrite Hpu', (Hpc Hst).
    replace (Z.min (Z.min len (Z.of_nat (length d))) (size_ c))
      with (Z.min len (Z.of_nat (length d))) by lia.
    apply firstn_min_length; lia.
Qed.

(** X12: with a destination that accepts every copy and [len > 0], a peek
    and then a read with [datagram = true] both return [ZX_OK] with the same
    bytes, the first [len] of the oldest datagram; the read then leaves the
    chain holding the datagrams that followed. *)
Theorem Peek_then_Read_datagram_agree (c : MBufChain) (dst : user_out_ptr)
  (len : Z) (d : list byte) (ds : list (list byte)) :
  dgram_chain c (d :: ds) -> 0 < len < 2 ^ 64 ->
  (forall off count, uout_status dst off count = ZX_OK) ->
  exists p r,
    Peek c dst len true = Done p
    /\ Read (r_chain p) dst len true = Done r
    /\ r_status p = ZX_OK /\ r_status r = ZX_OK
    /\ r_user p = firstn (Z.to_nat len) d
    /\ r_user r = r_user p
    /\ r_count r = r_count p
    /\ dgram_chain (r_chain r) ds.
Proof.
  intros Hd Hlen Hgood.
  destruct (dgram_chain_inv c _ Hd) as [Hinv HU].
  destruct (dgram_chain_capped c d ds len Hd) as [Hcap Hsz].
  destruct (Peek_content c dst len true Hinv ltac:(lia) ltac:(rewrite Hcap; lia))
    as (p & Hp & Hc & Hpu & Hpr & Hpc & Hps).
  apply (status_from_ok dst _ Hgood) in Hps. specialize (Hpc Hps).
  rewrite Hcap in Hpc. rewrite HU in Hpu. simpl concat in Hpu.
  assert (Hpu' : r_user p = firstn (Z.to_nat len) d).
  { rewrite Hpu, Hpc, firstn_app_small by lia.
    replace (Z.min (Z.min len (Z.of_nat (length d))) (size_ c))
      with (Z.min len (Z.of_nat (length d))) by lia.
    apply firstn_min_length; lia. }
  destruct (Read_datagram_step c dst len d ds Hd Hlen)
    as (r & Hr & _ & Hrc & Hru & Hd' & _).
  destruct (Read_general c dst len true Hinv ltac:(lia))
    as (r' & Hr' & _ & _ & _ & _ & Hrs).
  rewrite Hr in Hr'. inversion Hr'; subst r'.
  apply (status_from_ok dst _ Hgood) in Hrs. specialize (Hru Hrs).
  assert (Eru : r_user r = r_user p) by congruence.
  assert (Ecnt : r_count r = r_count p).
  { rewrite Hrc, Eru, Hpu', length_firstn. lia. }
  exists p, r. rewrite Hc. split_ands; auto.
Qed.

Lemma dgram_chain_nil (c : MBufChain) : dgram_chain c [] -> c = empty_chain.
Proof.
  intros (Hcells & Hoff & Hsize & _). inversion Hcells as [E|]; subst.
  destruct c as [b ro sz]; simpl in *. subst. reflexivity.
Qed.

(** X13: reading a chain in datagram mode with [datagram = true] as many
    times as it holds datagrams, with [len > 0] and a destination that
    accepts every copy, returns [ZX_OK] each time and the datagrams in the
    order they were written, each cut to its first [len] bytes, and leaves
    the empty chain. *)
Theorem datagram_queue_drains (dst : user_out_ptr) (len : Z)
  (ds : list (list byte)) :
  0 < len < 2 ^ 64 ->
  (forall off count, uout_status dst off count = ZX_OK) ->
  forall c, dgram_chain c ds ->
  exists rs,
    run (repeat (OpRead dst len true) (length ds)) c = Done rs
    /\ map r_user rs = map (firstn (Z.to_nat len)) ds
    /\ Forall (fun r => r_status r = ZX_OK) rs
    /\ final_chain c rs = empty_chain.
Proof.
  intros Hlen Hgood.
  induction ds as [|d ds IH]; intros c Hd.
  - exists []. simpl. split_ands; auto.
    unfold final_chain; simpl. apply dgram_chain_nil; exact Hd.
  - destruct (dgram_chain_inv c _ Hd) as [Hinv _].
    destruct (Read_datagram_step c dst len d ds Hd Hlen)
      as (r & Hr & _ & _ & Hru & Hd' & _).
    destruct (Read_general c dst len true Hinv ltac:(lia))
      as (r' & Hr' & _ & _ & _ & _ & Hrs).
    rewrite Hr in Hr'. inversion Hr'; subst r'.
    apply (status_from_ok dst _ Hgood) in Hrs. specialize (Hru Hrs).
    destruct (IH (r_chain r) Hd') as (rs & Hrun & Hus & Hall & Hfin).
    exists (r :: rs).
    cbn [length repeat run step]. rewrite Hr, Hrun.
    split_ands; auto.
    + simpl. rewrite Hru, Hus. reflexivity.
    + rewrite final_chain_cons. exact Hfin.
Qed.

(** ** Further properties: the buffers of a stream *)

Lemma packed_tl (b : MBuf) (l : list MBuf) : packed (b :: l) -> packed l.
Proof. destruct l; simpl; [auto | tauto]. Qed.

Lemma packed_skipn (k : nat) : forall l, packed l -> packed (skipn k l).
Proof.
  induction k as [|k IH]; intros l H; [exact H|].
  destruct l as [|b l]; [exact H|]. simpl. apply IH. exact (packed_tl b l H).
Qed.

Lemma Forall_skipn_keep {A : Type} (P : A -> Prop) (k : nat) (l : list A) :
  Forall P l -> Forall P (skipn k l).
Proof.
  intros H. rewrite <- (firstn_skipn k l) in H.
  apply Forall_app in H. tauto.
Qed.

Lemma packed_snoc (init : list MBuf) (t : MBuf) :
  packed (init ++ [t]) <-> Forall full init.
Proof.
  induction init as [|b init IH]; simpl.
  - split; auto.
  - destruct (init ++ [t]) as [|x l] eqn:E.
    + destruct init; discriminate.
    + split.
      * intros [Hb Hp]. constructor; [exact Hb | apply IH; exact Hp].
      * intros H. inversion H; subst. split; [assumption | apply IH; assumption].
Qed.

Lemma full_packed (l : list MBuf) : Forall full l -> packed l.
Proof.
  induction 1 as [|b l Hb _ IH]; [exact I|].
  destruct l; [exact I | split; assumption].
Qed.

Lemma ws_tail_packed (src : user_in_ptr) (len : Z) (c : MBufChain) :
  Forall cell_ok (buffers_ c) -> packed (buffers_ c) -> 0 <= size_ c ->
  0 <= len < 2 ^ 64 -> size_ c + len <= kSizeMax ->
  match ws_tail src len c with
  | (status, w1, b1) =>
      packed b1
      /\ (Forall (fun b => pkt_len_ b = 0) (buffers_ c) ->
          Forall (fun b => pkt_len_ b = 0) b1)
      /\ (status = ZX_OK -> ws_pos w1 <> len -> Forall full b1)
  end.
Proof.
  intros Hok Hpk Hsz Hlen Hcap.
  pose proof kPayloadSize_pos as HP; pose proof kPayloadSize_u32 as HP32.
  unfold ws_tail.
  destruct c as [b ro sz]; cbn [buffers_ size_ read_cursor_off_] in *.
  destruct (list_back_case b) as [E | (init & t & E)]; subst b.
  - simpl. split_ands; auto.
  - rewrite back_snoc.
    assert (Ht : cell_ok t).
    { apply Forall_app in Hok. destruct Hok as [_ Hok].
      inversion Hok; assumption. }
    destruct Ht as [Htlen Htdata].
    pose proof (proj1 (packed_snoc init t) Hpk) as Hfull.
    unfold rem at 1. rewrite u64_small by lia.
    destruct (kPayloadSize - len_ t >? 0) eqn:Erem.
    + rewrite write_buffer_eq by (simpl; lia).
      cbn [ws_pos ws_size ws_trace app]. rewrite Z.sub_0_r.
      set (n := Z.min (kPayloadSize - len_ t) len).
      rewrite pop_back_snoc.
      destruct (uin_status src 0 n =? ZX_OK) eqn:Est; cbn [ws_pos].
      * split_ands.
        -- apply packed_snoc; exact Hfull.
        -- intros Hp. apply Forall_app in Hp. destruct Hp as [Hi Ht].
           apply Forall_app; split; [exact Hi|].
           inversion Ht; subst. constructor; [simpl; assumption | constructor].
        -- intros _ Hne. apply Forall_app; split; [exact Hfull|].
           constructor; [|constructor]. unfold full; simpl. unfold n in *. lia.
      * split_ands; auto.
        intros E. apply Z.eqb_neq in Est. congruence.
    + rewrite Z.gtb_ltb in Erem; apply Z.ltb_ge in Erem.
      split_ands; auto. intros _ _.
      apply Forall_app; split; [exact Hfull|].
      constructor; [unfold full; lia | constructor].
Qed.

Lemma ws_fill_packed (src : user_in_ptr) (len : Z) :
  len < 2 ^ 64 ->
  forall (k : nat) (w : ws_state) (buffers : list MBuf),
    0 <= ws_pos w -> fill_fits k (len - ws_pos w) ->
    0 <= ws_size w -> ws_size w + (len - ws_pos w) <= kSizeMax ->
    Forall full buffers ->
    match ws_fill src len (repeat fresh_mbuf k) w buffers with
    | (_, _, buffers') =>
        packed buffers'
        /\ (Forall (fun b => pkt_len_ b = 0) buffers ->
            Forall (fun b => pkt_len_ b = 0) buffers')
    end.
Proof.
  intros Hlen; pose proof kPayloadSize_pos as HP; pose proof kPayloadSize_u32 as HP32.
  induction k as [|k IH]; intros w buffers Hpos Hfit Hsz Hcap Hfull.
  - simpl. split; [apply full_packed; exact Hfull | auto].
  - destruct Hfit as [[Hk _]|[_ Hr]]; [discriminate|].
    rewrite Nat2Z.inj_succ in Hr.
    cbn [repeat ws_fill].
    rewrite write_buffer_eq by (simpl; first [lia | reflexivity]).
    cbn [fresh_mbuf len_ pkt_len_ data_ app]. rewrite Z.sub_0_r, Z.add_0_l.
    set (n := Z.min kPayloadSize (len - ws_pos w)).
    assert (Hn : 0 < n <= kPayloadSize) by (unfold n; lia).
    destruct (uin_status src (ws_pos w) n =? ZX_OK) eqn:Est; cbn [negb].
    + replace (ZX_OK =? ZX_OK) with true by reflexivity. cbn [negb].
      set (b1 := mkMBuf n 0 (user_bytes src (ws_pos w) n)).
      destruct k as [|k'].
      * simpl. split.
        -- apply packed_snoc; exact Hfull.
        -- intros Hp. apply Forall_app; split; [exact Hp|].
           constructor; [reflexivity | constructor].
      * rewrite Nat2Z.inj_succ in Hr.
        assert (En : n = kPayloadSize) by (unfold n; lia).
        match goal with
        | |- context [ws_fill src len _ ?w1 (buffers ++ [b1])] =>
            pose proof (IH w1 (buffers ++ [b1])) as IH'
        end.
        cbn [ws_pos ws_size] in IH'.
        assert (Hfit' : fill_fits (S k') (len - (ws_pos w + n))).
        { right; split; [discriminate|]. rewrite Nat2Z.inj_succ. lia. }
        specialize (IH' ltac:(lia) Hfit' ltac:(lia) ltac:(lia)).
        assert (Hfull' : Forall full (buffers ++ [b1])).
        { apply Forall_app; split; [exact Hfull|].
          constructor; [exact En | constructor]. }
        specialize (IH' Hfull').
        match goal with
        | |- context [ws_fill src len ?l ?w1 (buffers ++ [b1])] =>
            destruct (ws_fill src len l w1 (buffers ++ [b1])) as [[st' w'] buffers']
        end.
        destruct IH' as [Hp Hk]. split; [exact Hp|].
        intros H0. apply Hk. apply Forall_app; split; [exact H0|].
        constructor; [reflexivity | constructor].
    + rewrite Est. cbn [negb]. split; [apply full_packed; exact Hfull | auto].
Qed.

(** A stream write keeps the buffers packed and sets no [pkt_len_]. *)
Lemma WriteStream_packed (pmm : Z -> bool) (src : user_in_ptr) (len0 : Z)
  (c : MBufChain) :
  stream_inv c -> 0 <= len0 < 2 ^ 64 ->
  stream_inv (r_chain (WriteStream pmm src len0 c)).
Proof.
  intros (Hinv & Hpk & Hp0) Hlen0.
  split; [apply WriteStream_inv; assumption|].
  pose proof (chain_inv_size_nonneg c Hinv) as Hsz.
  pose proof kSizeMax_u32 as HM.
  pose proof Hinv as (Hok & _ & _ & _ & _ & Hmax).
  unfold WriteStream.
  rewrite (u64_small (kSizeMax - size_ c)) by lia.
  set (len := Z.min (kSizeMax - size_ c) len0).
  assert (Hlen : 0 <= len < 2 ^ 64) by (unfold len; lia).
  pose proof (ws_tail_spec src len c Hok Hsz Hlen ltac:(unfold len; lia)) as H1.
  pose proof (ws_tail_packed src len c Hok Hpk Hsz Hlen ltac:(unfold len; lia)) as P1.
  destruct (ws_tail src len c) as [[status w1] b1].
  cbv zeta in H1.
  destruct H1 as (Hn1 & Hsz1 & _ & _ & _ & _ & _ & _ & _ & _ & Hsucc1 & _).
  destruct P1 as (Hpk1 & Hp01 & Hfull1).
  destruct (status =? ZX_OK) eqn:Est; cbn [negb];
    [|cbn [r_chain buffers_]; auto].
  apply Z.eqb_eq in Est.
  assert (P2 : match ws_alloc pmm src len w1 b1 with
               | (_, _, b2) =>
                   packed b2
                   /\ (Forall (fun b => pkt_len_ b = 0) b1 ->
                       Forall (fun b => pkt_len_ b = 0) b2)
               end).
  { unfold ws_alloc.
    destruct (ws_pos w1 =? len) eqn:Epos; cbn [negb]; [auto|].
    apply Z.eqb_neq in Epos.
    rewrite (u64_small (len - ws_pos w1)) by lia.
    destruct (NumBuffersForPayload_fits (len - ws_pos w1) ltac:(lia)) as [_ Hfit].
    unfold AllocMBufs.
    destruct (pmm _); [|auto].
    apply (ws_fill_packed src len (proj2 Hlen)); cbn [ws_pos ws_size]; auto; lia. }
  destruct (ws_alloc pmm src len w1 b1) as [[status2 w2] b2].
  destruct P2 as [Hpk2 Hp02].
  destruct (negb (status2 =? ZX_OK)); [cbn [r_chain buffers_]; auto|].
  destruct (ws_pos w2 =? 0); cbn [r_chain buffers_]; auto.
Qed.

Lemma packed_sum (l : list MBuf) :
  Forall cell_ok l -> packed l -> l <> [] ->
  (Z.of_nat (length l) - 1) * kPayloadSize < sum_len l
  /\ sum_len l <= Z.of_nat (length l) * kPayloadSize.
Proof.
  induction l as [|b l IH]; intros Hok Hpk Hne; [congruence|].
  inversion Hok as [|? ? [Hb _] Hokl]; subst.
  rewrite sum_len_cons.
  destruct l as [|b2 l].
  - change (length [b]) with 1%nat. change (sum_len []) with 0. lia.
  - destruct Hpk as [Hfull Hpk].
    specialize (IH Hokl Hpk ltac:(discriminate)).
    change (length (b :: b2 :: l)) with (S (length (b2 :: l))).
    rewrite Nat2Z.inj_succ. lia.
Qed.

Lemma stream_step (o : op) (c : MBufChain) :
  stream_inv c -> op_ok o -> stream_op o ->
  exists r, step o c = Done r /\ stream_inv (r_chain r).
Proof.
  intros Hs Hok Hso.
  destruct o as [pmm src len|pmm src len|dst len dg|dst len dg];
    unfold op_ok in Hok; simpl in Hok; simpl in Hso |- *; [| contradiction | |].
  - eexists; split; [reflexivity|]. apply WriteStream_packed; assumption.
  - destruct Hs as (Hinv & Hpk & Hp0).
    destruct (Read_general c dst len dg Hinv ltac:(lia))
      as (r & Hr & Hinv' & (k & Hk) & _).
    exists r; split; [exact Hr|]. unfold stream_inv. rewrite Hk.
    split_ands; [exact Hinv' | apply packed_skipn; exact Hpk
                 | apply Forall_skipn_keep; exact Hp0].
  - destruct Hs as (Hinv & Hpk & Hp0).
    destruct (Peek_unchanged c dst len dg) as (r & Hr & Hc & _).
    + intros Hne E. apply Hne. apply (cursor_inv_size _ _ _ Hinv); exact E.
    + exists r; split; [exact Hr|]. rewrite Hc.
      unfold stream_inv; split_ands; assumption.
Qed.

Lemma stream_run (ops : list op) :
  forall c, stream_inv c -> Forall op_ok ops -> Forall stream_op ops ->
  exists rs,
    run ops c = Done rs /\ Forall (fun r => stream_inv (r_chain r)) rs.
Proof.
  induction ops as [|o ops IH]; intros c Hs Hok Hso; simpl.
  - exists []; auto.
  - inversion Hok as [|? ? Ho Hops]; subst.
    inversion Hso as [|? ? Hso1 Hsos]; subst.
    destruct (stream_step o c Hs Ho Hso1) as (r & -> & Hr).
    destruct (IH (r_chain r) Hr Hops Hsos) as (rs & -> & Hall).
    exists (r :: rs); auto.
Qed.

(** X14: in a run from the empty chain without datagram writes, after each
    operation every buffer of the chain but the last is full and none has
    [pkt_len_] set; so the chain links just the buffers its bytes need,
    counted from the start of the front buffer, and never more than 129. *)
Theorem stream_buffers_packed (ops : list op) :
  Forall op_ok ops -> Forall stream_op ops ->
  exists rs,
    run ops empty_chain = Done rs
    /\ Forall (fun r =>
                 let c := r_chain r in
                 let n := Z.of_nat (length (buffers_ c)) in
                 packed (buffers_ c)
                 /\ Forall (fun b => pkt_len_ b = 0) (buffers_ c)
                 /\ n <= 129
                 /\ (buffers_ c = []
                     \/ (n - 1) * kPayloadSize < size_ c + read_cursor_off_ c
                        <= n * kPayloadSize))
              rs.
Proof.
  intros Hok Hso.
  assert (H0 : stream_inv empty_chain).
  { split; [apply empty_chain_inv | split; [exact I | constructor]]. }
  destruct (stream_run ops empty_chain H0 Hok Hso) as (rs & Hrun & Hall).
  exists rs; split; [exact Hrun|].
  eapply Forall_impl; [|exact Hall].
  intros r (Hinv & Hpk & Hp0). cbv zeta.
  pose proof kPayloadSize_pos as HP.
  destruct Hinv as (Hcells & Hro & Hnil & Hhd & Hsz & Hmax).
  destruct (buffers_ (r_chain r)) as [|b l] eqn:Eb.
  - split_ands; auto. simpl; lia.
  - specialize (Hhd ltac:(discriminate)). simpl in Hhd.
    destruct (packed_sum (b :: l) Hcells Hpk ltac:(discriminate)) as [Hlo Hhi].
    pose proof (Forall_inv Hcells) as [Hb _].
    unfold kSizeMax in Hmax.
    split_ands; auto; [nia | right; lia].
Qed.

(** ** Further properties: accessors and sizes *)

(** X15: for a payload of at least one byte, [NumBuffersForPayload] is the
    number of buffers that hold it with all but the last full; for a payload
    of 0 the subtraction wraps and the result is not 0. *)
Theorem NumBuffersForPayload_ceiling (payload : Z) :
  0 <= payload < 2 ^ 64 ->
  let n := NumBuffersForPayload payload in
  (0 < payload ->
   1 <= n /\ (n - 1) * kPayloadSize < payload <= n * kPayloadSize)
  /\ (payload = 0 -> 1 < kPayloadSize ->
      n = 1 + (2 ^ 64 - 1) / kPayloadSize /\ 1 < n).
Proof.
  intros Hp n. pose proof kPayloadSize_pos as HP. pose proof kPayloadSize_u32 as HP32.
  split.
  - intros Hpos.
    destruct (NumBuffersForPayload_fits payload ltac:(lia)) as [En Hfit].
    fold n in En, Hfit.
    assert (Hq : 0 <= (payload - 1) / kPayloadSize) by (apply Z.div_pos; lia).
    destruct Hfit as [[_ H0] | [_ Hr]]; [lia|].
    rewrite Z2Nat.id in Hr by lia. lia.
  - intros E0 HP1. subst payload. unfold n, NumBuffersForPayload.
    change (u64 (0 - 1)) with (2 ^ 64 - 1).
    assert (Hq : 0 < (2 ^ 64 - 1) / kPayloadSize < 2 ^ 64 - 1).
    { split.
      - apply Z.div_str_pos. lia.
      - apply Z.div_lt; lia. }
    rewrite u64_small by lia. lia.
Qed.

(** X16: after each operation of a run from the empty chain, [is_empty]
    answers true exactly when the chain is the freshly made one (no buffer
    linked, cursor and size 0), and [is_full] exactly when [size_] is
    [kSizeMax]. *)
Theorem is_empty_is_full (ops : list op) :
  Forall op_ok ops ->
  exists rs,
    run ops empty_chain = Done rs
    /\ Forall (fun r =>
                 (is_empty (r_chain r) = true <-> r_chain r = empty_chain)
                 /\ (is_full (r_chain r) = true <-> size_ (r_chain r) = kSizeMax))
              rs.
Proof.
  intros Hops.
  destruct (run_inv ops empty_chain empty_chain_inv Hops) as (rs & Hrun & _ & Hall).
  exists rs; split; [exact Hrun|].
  eapply Forall_impl; [|exact Hall].
  intros r Hinv. split.
  - unfold is_empty. rewrite Z.eqb_eq.
    destruct (cursor_inv_size _ _ _ Hinv) as [_ Hemp].
    destruct Hinv as (_ & _ & Hnil & _).
    split.
    + intros E0. pose proof (proj1 Hemp E0) as Eb. specialize (Hnil Eb).
      clear - E0 Eb Hnil.
      destruct (r_chain r) as [b ro sz]; simpl in *. subst. reflexivity.
    + intros ->. reflexivity.
  - unfold is_full. rewrite Z.geb_le.
    assert (Hmax : size_ (r_chain r) <= kSizeMax) by apply Hinv.
    lia.
Qed.

(** ** Further properties: PhysToPtr *)

Lemma search_mappings_quiet (K : kernel_macros) (env : vm_env)
  (paddr_base size phys : Z) (ms : list VmMapping) :
  existsb is_vm_create (snd (search_mappings K env paddr_base size phys ms)) = false.
Proof.
  induction ms as [|m rest IH]; simpl; [reflexivity|].
  destruct (env_query env (vm_base m)) as [status map_paddr].
  destruct (negb (status =? ZX_OK)); [reflexivity|].
  destruct (InRange K _ _ _ _); [reflexivity|].
  destruct (search_mappings K env paddr_base size phys rest) as [r evs].
  simpl in *. exact IH.
Qed.

(** X17: [PhysToPtr] refuses a zero length or a zero address with
    [ZX_ERR_INVALID_ARGS], and a range whose last byte lies beyond the
    address space with [ZX_ERR_OUT_OF_RANGE]; in both cases before it looks
    at a mapping: [mappings_] is untouched and the address space is not
    called. *)
Theorem PhysToPtr_argument_checks (K : kernel_macros) (env : vm_env)
  (ms : list VmMapping) (phys length : Z) :
  0 <= phys < 2 ^ 64 -> 0 <= length < 2 ^ 64 ->
  (length = 0 \/ phys = 0 ->
   PhysToPtr K env ms phys length = mkPhys (inl ZX_ERR_INVALID_ARGS) ms [])
  /\ (length <> 0 -> phys <> 0 -> phys + (length - 1) >= 2 ^ 64 ->
      PhysToPtr K env ms phys length = mkPhys (inl ZX_ERR_OUT_OF_RANGE) ms []).
Proof.
  intros Hp Hl. unfold PhysToPtr. split.
  - intros [-> | ->]; [reflexivity|].
    rewrite orb_true_r. reflexivity.
  - intros Hl0 Hp0 Hov.
    replace (length =? 0) with false by (symmetry; apply Z.eqb_neq; exact Hl0).
    replace (phys =? 0) with false by (symmetry; apply Z.eqb_neq; exact Hp0).
    cbn [orb]. rewrite (u64_small (length - 1)) by lia.
    replace (phys + (length - 1) >=? 2 ^ 64) with true; [reflexivity|].
    symmetry. apply Z.geb_le. lia.
Qed.

(** X18: whatever the address space answers, a call of [PhysToPtr] that
    returns an error leaves [mappings_] as it was, and a mapping whose
    [MapRange] failed is destroyed before the call returns; a call that
    returns a pointer either made no creating call and left [mappings_] as it
    was, or pushed exactly one new mapping, mapped without error and not
    destroyed, at the front. *)
Theorem PhysToPtr_mappings_frame (K : kernel_macros) (env : vm_env)
  (ms : list VmMapping) (phys length : Z) :
  let r := PhysToPtr K env ms phys length in
  match p_value r with
  | inl st =>
      p_mappings r = ms
      /\ (forall m sz, In (VmMapRange m sz) (p_trace r) ->
          st = env_map_range env m sz /\ In (VmDestroy m) (p_trace r))
  | inr _ =>
      (p_mappings r = ms /\ existsb is_vm_create (p_trace r) = false)
      \/ (exists m sz,
            p_mappings r = m :: ms
            /\ In (VmMapRange m sz) (p_trace r)
            /\ env_map_range env m sz = ZX_OK
            /\ ~ In (VmDestroy m) (p_trace r))
  end.
Proof.
  unfold PhysToPtr.
  destruct ((length =? 0) || (phys =? 0));
    [simpl; split; [reflexivity | intros m sz []]|].
  destruct (phys + u64 (length - 1) >=? 2 ^ 64);
    [simpl; split; [reflexivity | intros m sz []]|].
  cbv zeta.
  set (paddr_base := ROUNDDOWN_PAGE_SIZE K phys).
  set (size := u64 (ROUNDUP_PAGE_SIZE K (phys + u64 (length - 1)) - paddr_base)).
  pose proof (search_mappings_quiet K env paddr_base size phys ms) as Hq.
  destruct (search_mappings K env paddr_base size phys ms) as [[res|] evs];
    simpl in Hq.
  - cbn [p_value p_mappings p_trace].
    assert (Hno : forall e, is_vm_create e = true -> ~ In e evs).
    { intros e He Hin.
      assert (existsb is_vm_create evs = true)
        by (apply existsb_exists; exists e; auto).
      congruence. }
    destruct res as [st | ptr].
    + split; [reflexivity|]. intros m sz Hin.
      exfalso. refine (Hno _ _ Hin); reflexivity.
    + left. auto.
  - assert (Hno : forall e, is_vm_create e = true -> ~ In e evs).
    { intros e He Hin.
      assert (existsb is_vm_create evs = true)
        by (apply existsb_exists; exists e; auto).
      congruence. }
    destruct (env_new_mapping env); cbn [negb].
    2:{ cbn [p_value p_mappings p_trace]. split; [reflexivity|].
        intros m sz Hin. apply in_app_or in Hin.
        destruct Hin as [Hin | [Hin | []]];
          [exfalso; refine (Hno _ _ Hin); reflexivity | discriminate]. }
    destruct (negb (env_vmo_create env paddr_base size =? ZX_OK)).
    { cbn [p_value p_mappings p_trace]. split; [reflexivity|].
      intros m sz Hin. apply in_app_or in Hin.
      destruct Hin as [Hin | [Hin | [Hin | []]]];
        [exfalso; refine (Hno _ _ Hin); reflexivity | discriminate | discriminate]. }
    destruct (env_create_mapping env size) as [err | [mapping base]].
    { cbn [p_value p_mappings p_trace]. split; [reflexivity|].
      intros m sz Hin. apply in_app_or in Hin.
      destruct Hin as [Hin | [Hin | []]]; [|discriminate].
      apply in_app_or in Hin.
      destruct Hin as [Hin | [Hin | [Hin | []]]];
        [exfalso; refine (Hno _ _ Hin); reflexivity | discriminate | discriminate]. }
    assert (Hin2 : forall m sz,
      In (VmMapRange m sz)
         ((evs ++ [VmNewMapping true; VmoCreate paddr_base size])
          ++ [VmCreateMapping size; VmMapRange mapping size]) ->
      m = mapping /\ sz = size).
    { intros m sz Hin. apply in_app_or in Hin.
      destruct Hin as [Hin | [Hin | [Hin | []]]].
      - apply in_app_or in Hin.
        destruct Hin as [Hin | [Hin | [Hin | []]]];
          [exfalso; refine (Hno _ _ Hin); reflexivity | discriminate | discriminate].
      - discriminate.
      - inversion Hin; auto. }
    destruct (env_map_range env mapping size =? ZX_OK) eqn:Est; cbn [negb].
    + cbn [p_value p_mappings p_trace]. right. exists mapping, size.
      apply Z.eqb_eq in Est.
      split_ands; auto.
      * apply in_or_app. right. right. left. reflexivity.
      * intros Hin. apply in_app_or in Hin.
        destruct Hin as [Hin | [Hin | [Hin | []]]]; try discriminate.
        apply in_app_or in Hin.
        destruct Hin as [Hin | [Hin | [Hin | []]]];
          [refine (Hno _ _ Hin); reflexivity | discriminate | discriminate].
    + cbn [p_value p_mappings p_trace]. split; [reflexivity|].
      intros m sz Hin. apply in_app_or in Hin.
      destruct Hin as [Hin | [Hin | []]]; [|discriminate].
      destruct (Hin2 m sz Hin) as [-> ->].
      split; [reflexivity|].
      apply in_or_app. right. left. reflexivity.
Qed.

(** X19: with valid arguments, when the mappings in front of [m] answer
    [Query] without error and do not contain the page range, and [m] does,
    [PhysToPtr] returns the address in [m] at the distance of [phys] from the
    physical address [m] maps, asks the address space for those mappings
    only, creates nothing and leaves [mappings_] as it was. *)
Theorem PhysToPtr_hit (K : kernel_macros) (env : vm_env)
  (pre post : list VmMapping) (m : VmMapping) (phys length map_paddr : Z) :
  0 < phys < 2 ^ 64 -> 0 < length < 2 ^ 64 -> phys + (length - 1) < 2 ^ 64 ->
  let paddr_base := ROUNDDOWN_PAGE_SIZE K phys in
  let size := u64 (ROUNDUP_PAGE_SIZE K (phys + (length - 1)) - paddr_base) in
  Forall (fun x =>
            exists pa, env_query env (vm_base x) = (ZX_OK, pa)
                       /\ InRange K paddr_base size pa (u64 (pa + vm_size x)) = false)
         pre ->
  env_query env (vm_base m) = (ZX_OK, map_paddr) ->
  InRange K paddr_base size map_paddr (u64 (map_paddr + vm_size m)) = true ->
  PhysToPtr K env (pre ++ m :: post) phys length
  = mkPhys (inr (u64 (vm_base m + u64 (phys - map_paddr))))
           (pre ++ m :: post)
           (map (fun x => VmQuery (vm_base x)) (pre ++ [m])).
Proof.
  intros Hp Hl Hov paddr_base size Hpre Hq Hin.
  unfold PhysToPtr.
  replace (length =? 0) with false by (symmetry; apply Z.eqb_neq; lia).
  replace (phys =? 0) with false by (symmetry; apply Z.eqb_neq; lia).
  cbn [orb]. rewrite (u64_small (length - 1)) by lia.
  replace (phys + (length - 1) >=? 2 ^ 64) with false
    by (symmetry; rewrite Z.geb_leb; apply Z.leb_gt; lia).
  cbv zeta. fold paddr_base. fold size.
  assert (Hs : search_mappings K env paddr_base size phys (pre ++ m :: post)
               = (Some (inr (u64 (vm_base m + u64 (phys - map_paddr)))),
                  map (fun x => VmQuery (vm_base x)) (pre ++ [m]))).
  { clear - Hpre Hq Hin.
    induction Hpre as [|x pre (pa & Hx & Hout) _ IH]; simpl.
    - rewrite Hq. simpl. rewrite Hin. reflexivity.
    - rewrite Hx. simpl. rewrite Hout, IH. reflexivity. }
  rewrite Hs. reflexivity.
Qed.

(** X20: a read, with either value of [datagram], unlinks buffers from the
    front of the chain only and leaves the others as they were, in order;
    it gives back exactly the buffers it unlinked, never asks the allocator
    for a page, and returns [ZX_OK] or the status of the copy that failed. *)
Theorem Read_unlinks_front_only (c : MBufChain) (dst : user_out_ptr) (len : Z)
  (datagram : bool) :
  chain_inv c -> len < 2 ^ 64 ->
  exists r,
    Read c dst len datagram = Done r
    /\ (exists k, buffers_ (r_chain r) = skipn k (buffers_ c))
    /\ pages_held (r_trace r)
       = Z.of_nat (length (buffers_ (r_chain r))) - Z.of_nat (length (buffers_ c))
    /\ existsb is_alloc (r_trace r) = false
    /\ status_from dst (r_status r).
Proof.
  intros Hinv Hlen.
  destruct (Read_general c dst len datagram Hinv Hlen) as (r & Hr & _ & H).
  exists r; split; [exact Hr | exact H].
Qed.

End Chain.

(** * Concrete runs, with 4 KiB pages *)

Lemma page_4096_ok : page_size_ok 4096.
Proof. unfold page_size_ok, kSizeMax, kPayloadSize, kHeaderSize; lia. Qed.

Lemma chain_A_written :
  WriteDatagram 4096 pmm_plenty (user_src x41) 3 empty_chain
  = Done (mkResult chain_A 3 ZX_OK [] [EvAllocPages 1 true; EvCopyFromUser 0 3 ZX_OK]).
Proof. vm_compute. reflexivity. Qed.

Lemma chain_AB_written :
  WriteDatagram 4096 pmm_plenty (user_src x42) 5 chain_A
  = Done (mkResult chain_AB 5 ZX_OK [] [EvAllocPages 1 true; EvCopyFromUser 0 5 ZX_OK]).
Proof. vm_compute. reflexivity. Qed.

Lemma chain_A_dgram : dgram_chain 4096 chain_A [[x41; x41; x41]].
Proof.
  apply (WriteDatagram_dgram_chain 4096 page_4096_ok pmm_plenty (user_src x41) 3
           empty_chain [] _ (empty_chain_dgram 4096 page_4096_ok) ltac:(lia)
           chain_A_written eq_refl).
Qed.

Lemma chain_AB_dgram :
  dgram_chain 4096 chain_AB [[x41; x41; x41]; [x42; x42; x42; x42; x42]].
Proof.
  apply (WriteDatagram_dgram_chain 4096 page_4096_ok pmm_plenty (user_src x42) 5
           chain_A [[x41; x41; x41]] _ chain_A_dgram ltac:(lia)
           chain_AB_written eq_refl).
Qed.

Lemma chain_hello_inv : chain_inv 4096 chain_hello.
Proof.
  apply (WriteStream_inv 4096 page_4096_ok pmm_plenty
           (mkUserIn (fun _ _ => ZX_OK)
              (fun i => nth (Z.to_nat i) [x68; x65; x6c; x6c; x6f] x00))
           5 empty_chain (empty_chain_inv 4096 page_4096_ok) ltac:(lia)).
Qed.

Lemma chain_AB_inv : chain_inv 4096 chain_AB.
Proof.
  unfold chain_inv, cursor_inv, cell_ok, chain_AB, kSizeMax, kPayloadSize, kHeaderSize.
  cbn [buffers_ read_cursor_off_ size_ head_len len_ data_ length].
  split_ands; try discriminate; try reflexivity; try lia.
  repeat constructor; cbn; lia.
Qed.

(** ** C1: a datagram whose second page faults *)

Example WriteDatagram_second_page_faults :
  WriteDatagram 4096 pmm_plenty (user_src_mapped 4064 x41) 5000 chain_A
  = Done (mkResult chain_A 0 ZX_ERR_INVALID_ARGS []
            [EvAllocPages 2 true; EvCopyFromUser 0 4064 ZX_OK;
             EvCopyFromUser 4064 936 ZX_ERR_INVALID_ARGS; EvFreeList 2]).
Proof. vm_compute. reflexivity. Qed.

Lemma WriteDatagram_failure_leaves_chain_witness :
  exists r,
    WriteDatagram 4096 pmm_plenty (user_src_mapped 4064 x41) 5000 chain_A = Done r
    /\ (r_status r <> ZX_OK ->
        r_chain r = chain_A /\ r_count r = 0 /\ pages_held (r_trace r) = 0).
Proof.
  apply (WriteDatagram_failure_leaves_chain 4096 page_4096_ok); lia.
Defined.

(** ** C2: a stream write whose source faults after the tail was filled *)

Example WriteStream_faults_after_tail :
  let r := WriteStream 4096 pmm_plenty (user_src_mapped 4059 x41) 5000 chain_hello in
  r_count r = 4059 /\ r_status r = ZX_ERR_INVALID_ARGS
  /\ size_ (r_chain r) = 4064 /\ length (buffers_ (r_chain r)) = 1%nat
  /\ r_trace r = [EvCopyFromUser 0 4059 ZX_OK; EvAllocPages 1 true;
                  EvCopyFromUser 4059 941 ZX_ERR_INVALID_ARGS; EvFreeList 1].
Proof. vm_compute. repeat split. Qed.

Lemma WriteStream_fault_commits_prefix_witness :
  let r := WriteStream 4096 pmm_plenty (user_src_mapped 4059 x41) 5000 chain_hello in
  (exists count, fails_at (r_trace r) (r_count r) count (r_status r))
  /\ r_count r = copied_in (r_trace r)
  /\ size_ (r_chain r) = size_ chain_hello + r_count r
  /\ sum_len (buffers_ (r_chain r)) = sum_len (buffers_ chain_hello) + r_count r
  /\ payload (buffers_ (r_chain r))
     = payload (buffers_ chain_hello)
       ++ user_bytes (user_src_mapped 4059 x41) 0 (r_count r)
  /\ read_cursor_off_ (r_chain r) = read_cursor_off_ chain_hello
  /\ pages_held (r_trace r)
     = Z.of_nat (length (buffers_ (r_chain r)))
       - Z.of_nat (length (buffers_ chain_hello)).
Proof.
  apply (WriteStream_fault_commits_prefix 4096 page_4096_ok pmm_plenty
           (user_src_mapped 4059 x41) 5000 chain_hello chain_hello_inv);
    [lia | vm_compute; reflexivity].
Defined.

(** ** C3: [ZX_OK] with less than the capped length, and nothing written
    with a status other than [ZX_ERR_SHOULD_WAIT] *)

Lemma WriteStream_ok_short_of_clamp :
  (let r := WriteStream 4096 pmm_exhausted (user_src x42) 5000 chain_hello in
   r_status r = ZX_OK
   /\ r_count r = 4059
   /\ r_count r <> Z.min 5000 (kSizeMax 4096 - size_ chain_hello))
  /\ (let r := WriteStream 4096 pmm_plenty user_src_bad 5 chain_hello in
      r_count r = 0 /\ r_status r <> ZX_ERR_SHOULD_WAIT).
Proof. vm_compute. repeat split; discriminate. Qed.

Lemma WriteStream_result_witness :
  let r := WriteStream 4096 pmm_plenty (user_src x42) 100 chain_hello in
  (r_status r = ZX_OK ->
   0 < r_count r <= Z.min 100 (kSizeMax 4096 - size_ chain_hello)
   /\ (existsb is_failed_alloc (r_trace r) = false ->
       r_count r = Z.min 100 (kSizeMax 4096 - size_ chain_hello)))
  /\ (existsb is_failed_copy (r_trace r) = false ->
      (r_status r = ZX_ERR_SHOULD_WAIT <-> r_count r = 0)).
Proof.
  apply (WriteStream_result 4096 page_4096_ok pmm_plenty (user_src x42) 100
           chain_hello chain_hello_inv); lia.
Defined.

(** ** C4: a successful read of no bytes leaves the datagram in the chain *)

Lemma Read_datagram_zero_len_keeps_datagram :
  exists r,
    Read chain_A user_dst 0 true = Done r
    /\ r_status r = ZX_OK
    /\ r_user r = []
    /\ r_chain r = chain_A
    /\ size (r_chain r) true = Done 3.
Proof. eexists. vm_compute. repeat split. Qed.

Lemma Read_datagram_framing_witness :
  exists r,
    Read chain_AB user_dst 2 true = Done r
    /\ prefix_of (r_user r) [x41; x41; x41]
    /\ r_count r = Z.of_nat (length (r_user r))
    /\ (r_status r = ZX_OK -> r_user r = firstn (Z.to_nat 2) [x41; x41; x41])
    /\ dgram_chain 4096 (r_chain r) [[x42; x42; x42; x42; x42]]
    /\ pages_held (r_trace r)
       = Z.of_nat (length (buffers_ (r_chain r)))
         - Z.of_nat (length (buffers_ chain_AB)).
Proof.
  apply (Read_datagram_framing 4096 page_4096_ok chain_AB user_dst 2
           [x41; x41; x41] [[x42; x42; x42; x42; x42]] chain_AB_dgram); lia.
Defined.

Example Read_datagram_truncated :
  Read chain_AB user_dst 2 true
  = Done (mkResult (mkChain [mkMBuf 5 5 [x42; x42; x42; x42; x42]] 0 5) 2 ZX_OK
            [x41; x41] [EvCopyToUser 0 2 ZX_OK; EvFreeList 1]).
Proof. vm_compute. reflexivity. Qed.

Example Read_datagram_dropped_on_fault :
  Read chain_AB user_dst_bad 3 true
  = Done (mkResult (mkChain [mkMBuf 5 5 [x42; x42; x42; x42; x42]] 0 5) 0
            ZX_ERR_INVALID_ARGS []
            [EvCopyToUser 0 3 ZX_ERR_INVALID_ARGS; EvFreeList 1]).
Proof. vm_compute. reflexivity. Qed.

(** ** C5: a datagram larger than the capacity is refused with
    [ZX_ERR_OUT_OF_RANGE] *)

Lemma WriteDatagram_oversize_not_should_wait :
  let len := kSizeMax 4096 + 1 in
  0 <= len < 2 ^ 64
  /\ len + size_ empty_chain > kSizeMax 4096
  /\ exists r,
       WriteDatagram 4096 pmm_plenty (user_src x41) len empty_chain = Done r
       /\ r_status r = ZX_ERR_OUT_OF_RANGE
       /\ r_status r <> ZX_ERR_SHOULD_WAIT.
Proof.
  vm_compute. split; [split; [discriminate | reflexivity]|].
  split; [reflexivity|]. eexists; repeat split. discriminate.
Qed.

Lemma sample_ops_ok : Forall op_ok sample_ops.
Proof. repeat constructor; unfold op_ok; simpl; lia. Qed.

Lemma capacity_bound_witness :
  exists rs,
    run 4096 sample_ops empty_chain = Done rs
    /\ length rs = length sample_ops
    /\ Forall (fun r => size_ (r_chain r) <= kSizeMax 4096) rs
    /\ let c := final_chain empty_chain rs in
       (forall pmm src len,
           0 <= len < 2 ^ 64 ->
           let r := WriteStream 4096 pmm src len c in
           0 <= r_count r <= Z.min len (kSizeMax 4096 - size_ c)
           /\ size_ (r_chain r) = size_ c + r_count r
           /\ (size_ c = kSizeMax 4096 ->
               existsb is_failed_copy (r_trace r) = false ->
               r_count r = 0 /\ r_status r = ZX_ERR_SHOULD_WAIT))
       /\ (forall pmm src len,
              0 <= len < 2 ^ 64 -> len + size_ c > kSizeMax 4096 ->
              WriteDatagram 4096 pmm src len c
              = Done (mkResult c 0
                        (if len >? kSizeMax 4096 then ZX_ERR_OUT_OF_RANGE
                         else ZX_ERR_SHOULD_WAIT) [] [])).
Proof.
  apply (capacity_bound 4096 page_4096_ok sample_ops). exact sample_ops_ok.
Defined.

(** ** C6 *)

Lemma size_counts_unread_witness :
  exists rs,
    run 4096 sample_ops empty_chain = Done rs
    /\ length rs = length sample_ops
    /\ Forall (fun r =>
                 size_ (r_chain r)
                 = sum_len (buffers_ (r_chain r)) - read_cursor_off_ (r_chain r))
              rs.
Proof.
  apply (size_counts_unread 4096 page_4096_ok sample_ops). exact sample_ops_ok.
Defined.

(** ** C7 *)

Lemma Peek_no_mutation_witness :
  exists r,
    Peek chain_AB user_dst_bad 4 true = Done r
    /\ r_chain r = chain_AB
    /\ existsb is_free (r_trace r) = false
    /\ existsb is_alloc (r_trace r) = false
    /\ Peek (r_chain r) user_dst_bad 4 true = Done r.
Proof.
  apply (Peek_no_mutation chain_AB user_dst_bad 4 true).
  intros _; discriminate.
Defined.

Example Peek_spans_buffers :
  Peek chain_AB user_dst 8 false
  = Done (mkResult chain_AB 8 ZX_OK [x41; x41; x41; x42; x42; x42; x42; x42]
            [EvCopyToUser 0 3 ZX_OK; EvCopyToUser 3 5 ZX_OK]).
Proof. vm_compute. reflexivity. Qed.

(** ** C8 *)

Lemma WriteDatagram_pre_admission_witness :
  (0 = 0 ->
   WriteDatagram 4096 pmm_plenty (user_src x41) 0 chain_A
   = Done (mkResult chain_A 0 ZX_ERR_INVALID_ARGS [] []))
  /\ (0 <> 0 -> 0 > kSizeMax 4096 ->
      WriteDatagram 4096 pmm_plenty (user_src x41) 0 chain_A
      = Done (mkResult chain_A 0 ZX_ERR_OUT_OF_RANGE [] []))
  /\ (0 <> 0 -> 0 <= kSizeMax 4096 -> 0 + size_ chain_A > kSizeMax 4096 ->
      WriteDatagram 4096 pmm_plenty (user_src x41) 0 chain_A
      = Done (mkResult chain_A 0 ZX_ERR_SHOULD_WAIT [] [])).
Proof.
  apply (WriteDatagram_pre_admission 4096 page_4096_ok pmm_plenty (user_src x41)
           0 chain_A); [lia|].
  unfold kSizeMax, kPayloadSize, kHeaderSize; simpl; lia.
Defined.

Example WriteDatagram_would_overflow :
  WriteDatagram 4096 pmm_plenty (user_src x41) (kSizeMax 4096 - 2) chain_A
  = Done (mkResult chain_A 0 ZX_ERR_SHOULD_WAIT [] []).
Proof. vm_compute. reflexivity. Qed.

(** ** C9 *)

Lemma size_accessor_witness :
  (forall b l, buffers_ chain_AB = b :: l -> size chain_AB true = Done (pkt_len_ b))
  /\ (buffers_ chain_AB = [] -> size chain_AB true = Done 0)
  /\ (Forall (fun b => pkt_len_ b = 0) (buffers_ chain_AB) ->
      size chain_AB true = Done 0)
  /\ size chain_AB false = Done (size_ chain_AB)
  /\ size_ chain_AB = sum_len (buffers_ chain_AB) - read_cursor_off_ chain_AB.
Proof. exact (size_accessor 4096 chain_AB chain_AB_inv). Defined.

Example size_of_stream_chain :
  size chain_hello true = Done 0 /\ size chain_hello false = Done 5
  /\ size chain_AB true = Done 3 /\ size chain_AB false = Done 8
  /\ size empty_chain true = Done 0.
Proof. vm_compute. repeat split. Qed.

(** ** C10 *)

Lemma Read_datagram_zero_len_witness :
  Read chain_AB user_dst 0 true = Done (mkResult chain_AB 0 ZX_OK [] []).
Proof.
  apply (Read_datagram_zero_len 4096 chain_AB user_dst
           [[x41; x41; x41]; [x42; x42; x42; x42; x42]] chain_AB_dgram).
  discriminate.
Defined.

(** * Concrete runs for the further properties *)

Lemma stream_ops_ok : Forall op_ok stream_ops.
Proof. repeat constructor; unfold op_ok; simpl; lia. Qed.

Lemma stream_ops_stream : Forall stream_op stream_ops.
Proof. repeat constructor. Qed.

Lemma user_dst_accepts : forall off count, uout_status user_dst off count = ZX_OK.
Proof. intros; reflexivity. Qed.

Lemma run_leaks_no_page_witness :
  exists rs,
    run 4096 sample_ops empty_chain = Done rs
    /\ pages_held (run_trace rs)
       = Z.of_nat (length (buffers_ (final_chain empty_chain rs)))
    /\ pages_held (run_trace rs ++ MBufChain_dtor (final_chain empty_chain rs)) = 0.
Proof.
  apply (run_leaks_no_page 4096 page_4096_ok sample_ops). exact sample_ops_ok.
Defined.

Lemma WriteStream_appends_to_unread_witness :
  let r := WriteStream 4096 pmm_exhausted (user_src x42) 5000 chain_hello in
  unread (r_chain r) = unread chain_hello ++ user_bytes (user_src x42) 0 (r_count r)
  /\ size_ (r_chain r) = size_ chain_hello + r_count r
  /\ 0 <= r_count r <= 5000.
Proof.
  apply (WriteStream_appends_to_unread 4096 page_4096_ok pmm_exhausted
           (user_src x42) 5000 chain_hello chain_hello_inv); lia.
Defined.

Lemma Read_stream_fifo_witness :
  exists r,
    Read chain_hello user_dst 3 false = Done r
    /\ r_user r = firstn (Z.to_nat (r_count r)) (unread chain_hello)
    /\ unread (r_chain r) = skipn (Z.to_nat (r_count r)) (unread chain_hello)
    /\ size_ (r_chain r) = size_ chain_hello - r_count r
    /\ 0 <= r_count r <= Z.min 3 (size_ chain_hello)
    /\ (r_status r = ZX_OK -> r_count r = Z.min 3 (size_ chain_hello))
    /\ status_from user_dst (r_status r).
Proof.
  apply (Read_stream_fifo 4096 page_4096_ok chain_hello user_dst 3 chain_hello_inv).
  lia.
Defined.

Example Read_stream_leaves_cursor :
  Read chain_hello user_dst 3 false
  = Done (mkResult (mkChain [mkMBuf 5 0 [x68; x65; x6c; x6c; x6f]] 3 2) 3 ZX_OK
            [x68; x65; x6c] [EvCopyToUser 0 3 ZX_OK]).
Proof. vm_compute. reflexivity. Qed.

Lemma Peek_stream_content_witness :
  exists r,
    Peek chain_AB user_dst 6 false = Done r
    /\ r_user r = firstn (Z.to_nat (r_count r)) (unread chain_AB)
    /\ 0 <= r_count r <= Z.min 6 (size_ chain_AB)
    /\ (r_status r = ZX_OK -> r_count r = Z.min 6 (size_ chain_AB))
    /\ status_from user_dst (r_status r).
Proof.
  apply (Peek_stream_content 4096 page_4096_ok chain_AB user_dst 6 chain_AB_inv).
  lia.
Defined.

Lemma Peek_then_Read_agree_witness :
  exists p r,
    Peek chain_hello user_dst 3 false = Done p
    /\ Read chain_hello user_dst 3 false = Done r
    /\ r_status p = ZX_OK /\ r_status r = ZX_OK
    /\ r_count r = r_count p
    /\ r_user r = r_user p
    /\ unread chain_hello = r_user r ++ unread (r_chain r).
Proof.
  apply (Peek_then_Read_agree 4096 page_4096_ok chain_hello user_dst 3
           chain_hello_inv); [lia | exact user_dst_accepts].
Defined.

Lemma stream_round_trip_witness :
  let w := WriteStream 4096 pmm_plenty (user_src x42) 5000 empty_chain in
  r_status w = ZX_OK /\ r_count w = 5000
  /\ exists r,
       Read (r_chain w) user_dst 5000 false = Done r
       /\ r_status r = ZX_OK
       /\ r_count r = 5000
       /\ r_user r = user_bytes (user_src x42) 0 5000
       /\ r_chain r = empty_chain.
Proof.
  apply (stream_round_trip 4096 page_4096_ok pmm_plenty (user_src x42) user_dst 5000).
  - unfold kSizeMax, kPayloadSize, kHeaderSize; lia.
  - vm_compute; reflexivity.
  - vm_compute; reflexivity.
  - exact user_dst_accepts.
Defined.

Lemma Read_datagram_on_stream_drops_all_witness :
  Read chain_hello user_dst 5 true
  = Done (mkResult empty_chain 0 ZX_OK [] [EvFreeList (length (buffers_ chain_hello))]).
Proof.
  apply (Read_datagram_on_stream_drops_all 4096 page_4096_ok chain_hello user_dst 5
           chain_hello_inv).
  - repeat constructor.
  - discriminate.
  - lia.
Defined.

Lemma chain_A_size_ok : 0 <= size_ chain_A <= kSizeMax 4096.
Proof. unfold kSizeMax, kPayloadSize, kHeaderSize; simpl; lia. Qed.

Lemma empty_size_ok : 0 <= size_ empty_chain <= kSizeMax 4096.
Proof. unfold kSizeMax, kPayloadSize, kHeaderSize; simpl; lia. Qed.

Lemma WriteDatagram_ok_layout_witness :
  let r := mkResult chain_AB 5 ZX_OK []
             [EvAllocPages 1 true; EvCopyFromUser 0 5 ZX_OK] in
  0 < 5 /\ 5 + size_ chain_A <= kSizeMax 4096
  /\ r_count r = 5
  /\ size_ (r_chain r) = size_ chain_A + 5
  /\ read_cursor_off_ (r_chain r) = read_cursor_off_ chain_A
  /\ existsb is_failed_alloc (r_trace r) = false
  /\ existsb is_failed_copy (r_trace r) = false
  /\ exists h t,
       buffers_ (r_chain r) = buffers_ chain_A ++ h :: t
       /\ Z.of_nat (length (h :: t)) = NumBuffersForPayload 4096 5
       /\ pages_held (r_trace r) = Z.of_nat (length (h :: t))
       /\ Forall (cell_ok 4096) (h :: t)
       /\ packed 4096 (h :: t)
       /\ payload (h :: t) = user_bytes (user_src x42) 0 5
       /\ pkt_len_ h = 5
       /\ Forall (fun b => pkt_len_ b = 0) t.
Proof.
  apply (WriteDatagram_ok_layout 4096 page_4096_ok pmm_plenty (user_src x42) 5
           chain_A _ chain_A_size_ok ltac:(lia) chain_AB_written eq_refl).
Defined.

Lemma WriteDatagram_statuses_witness :
  exists r,
    WriteDatagram 4096 pmm_plenty (user_src_mapped 4064 x41) 5000 chain_A = Done r
    /\ (r_status r = ZX_OK \/ r_status r = ZX_ERR_INVALID_ARGS
        \/ r_status r = ZX_ERR_OUT_OF_RANGE \/ r_status r = ZX_ERR_SHOULD_WAIT)
    /\ (existsb is_failed_copy (r_trace r) = true ->
        r_status r = ZX_ERR_INVALID_ARGS)
    /\ (existsb is_failed_alloc (r_trace r) = true ->
        r_status r = ZX_ERR_SHOULD_WAIT
        /\ existsb is_failed_copy (r_trace r) = false)
    /\ (r_status r = ZX_OK <->
        0 < 5000 /\ 5000 + size_ chain_A <= kSizeMax 4096
        /\ existsb is_failed_alloc (r_trace r) = false
        /\ existsb is_failed_copy (r_trace r) = false).
Proof.
  apply (WriteDatagram_statuses 4096 page_4096_ok pmm_plenty
           (user_src_mapped 4064 x41) 5000 chain_A chain_A_size_ok).
  lia.
Defined.

Lemma WriteDatagram_enqueues_witness :
  dgram_chain 4096 chain_AB ([[x41; x41; x41]] ++ [user_bytes (user_src x42) 0 5]).
Proof.
  apply (WriteDatagram_enqueues 4096 page_4096_ok pmm_plenty (user_src x42) 5
           chain_A [[x41; x41; x41]] _ chain_A_dgram ltac:(lia)
           chain_AB_written eq_refl).
Defined.

Lemma Peek_datagram_content_witness :
  exists p,
    Peek chain_AB user_dst 7 true = Done p
    /\ r_chain p = chain_AB
    /\ prefix_of (r_user p) [x41; x41; x41]
    /\ r_count p = Z.of_nat (length (r_user p))
    /\ (r_status p = ZX_OK -> r_user p = firstn (Z.to_nat 7) [x41; x41; x41]).
Proof.
  apply (Peek_datagram_content 4096 page_4096_ok chain_AB user_dst 7
           [x41; x41; x41] [[x42; x42; x42; x42; x42]] chain_AB_dgram).
  lia.
Defined.

Example Peek_datagram_stops_at_boundary :
  Peek chain_AB user_dst 7 true
  = Done (mkResult chain_AB 3 ZX_OK [x41; x41; x41] [EvCopyToUser 0 3 ZX_OK]).
Proof. vm_compute. reflexivity. Qed.

Lemma Peek_then_Read_datagram_agree_witness :
  exists p r,
    Peek chain_AB user_dst 2 true = Done p
    /\ Read (r_chain p) user_dst 2 true = Done r
    /\ r_status p = ZX_OK /\ r_status r = ZX_OK
    /\ r_user p = firstn (Z.to_nat 2) [x41; x41; x41]
    /\ r_user r = r_user p
    /\ r_count r = r_count p
    /\ dgram_chain 4096 (r_chain r) [[x42; x42; x42; x42; x42]].
Proof.
  apply (Peek_then_Read_datagram_agree 4096 page_4096_ok chain_AB user_dst 2
           [x41; x41; x41] [[x42; x42; x42; x42; x42]] chain_AB_dgram);
    [lia | exact user_dst_accepts].
Defined.

Lemma datagram_queue_drains_witness :
  exists rs,
    run 4096 (repeat (OpRead user_dst 4 true)
                (length [[x41; x41; x41]; [x42; x42; x42; x42; x42]])) chain_AB
    = Done rs
    /\ map r_user rs
       = map (firstn (Z.to_nat 4)) [[x41; x41; x41]; [x42; x42; x42; x42; x42]]
    /\ Forall (fun r => r_status r = ZX_OK) rs
    /\ final_chain chain_AB rs = empty_chain.
Proof.
  apply (datagram_queue_drains 4096 page_4096_ok user_dst 4
           [[x41; x41; x41]; [x42; x42; x42; x42; x42]] ltac:(lia)
           user_dst_accepts chain_AB chain_AB_dgram).
Defined.

Lemma stream_buffers_packed_witness :
  exists rs,
    run 4096 stream_ops empty_chain = Done rs
    /\ Forall (fun r =>
                 let c := r_chain r in
                 let n := Z.of_nat (length (buffers_ c)) in
                 packed 4096 (buffers_ c)
                 /\ Forall (fun b => pkt_len_ b = 0) (buffers_ c)
                 /\ n <= 129
                 /\ (buffers_ c = []
                     \/ (n - 1) * kPayloadSize 4096 < size_ c + read_cursor_off_ c
                        <= n * kPayloadSize 4096))
              rs.
Proof.
  apply (stream_buffers_packed 4096 page_4096_ok stream_ops stream_ops_ok
           stream_ops_stream).
Defined.

Lemma NumBuffersForPayload_ceiling_witness :
  let n := NumBuffersForPayload 4096 5000 in
  (0 < 5000 ->
   1 <= n /\ (n - 1) * kPayloadSize 4096 < 5000 <= n * kPayloadSize 4096)
  /\ (5000 = 0 -> 1 < kPayloadSize 4096 ->
      n = 1 + (2 ^ 64 - 1) / kPayloadSize 4096 /\ 1 < n).
Proof.
  apply (NumBuffersForPayload_ceiling 4096 page_4096_ok 5000). lia.
Defined.

Example NumBuffersForPayload_values :
  NumBuffersForPayload 4096 1 = 1 /\ NumBuffersForPayload 4096 4064 = 1
  /\ NumBuffersForPayload 4096 4065 = 2
  /\ NumBuffersForPayload 4096 (kSizeMax 4096) = 128
  /\ NumBuffersForPayload 4096 0 = 4539061041759241.
Proof. vm_compute. repeat split. Qed.

Lemma is_empty_is_full_witness :
  exists rs,
    run 4096 sample_ops empty_chain = Done rs
    /\ Forall (fun r =>
                 (is_empty (r_chain r) = true <-> r_chain r = empty_chain)
                 /\ (is_full 4096 (r_chain r) = true
                     <-> size_ (r_chain r) = kSizeMax 4096))
              rs.
Proof.
  apply (is_empty_is_full 4096 page_4096_ok sample_ops). exact sample_ops_ok.
Defined.

Lemma PhysToPtr_argument_checks_witness :
  (0 = 0 \/ 18446744073709551615 = 0 ->
   PhysToPtr sample_macros sample_env [mapping_1] 18446744073709551615 0
   = mkPhys (inl ZX_ERR_INVALID_ARGS) [mapping_1] [])
  /\ (0 <> 0 -> 18446744073709551615 <> 0 ->
      18446744073709551615 + (0 - 1) >= 2 ^ 64 ->
      PhysToPtr sample_macros sample_env [mapping_1] 18446744073709551615 0
      = mkPhys (inl ZX_ERR_OUT_OF_RANGE) [mapping_1] []).
Proof.
  apply (PhysToPtr_argument_checks sample_macros sample_env [mapping_1]
           18446744073709551615 0); lia.
Defined.

Example PhysToPtr_wraps_address_space :
  PhysToPtr sample_macros sample_env [mapping_1] 18446744073709551615 2
  = mkPhys (inl ZX_ERR_OUT_OF_RANGE) [mapping_1] [].
Proof. vm_compute. reflexivity. Qed.

Example PhysToPtr_maps_new_range :
  PhysToPtr sample_macros sample_env [mapping_1] 200000 16
  = mkPhys (inr (1099496947712 + (200000 - 196608)))
           [mkVmMapping 1099496947712 4096; mapping_1]
           [VmQuery 1099494850560; VmNewMapping true; VmoCreate 196608 4096;
            VmCreateMapping 4096;
            VmMapRange (mkVmMapping 1099496947712 4096) 4096].
Proof. vm_compute. reflexivity. Qed.

Lemma PhysToPtr_hit_witness :
  PhysToPtr sample_macros sample_env ([mapping_1] ++ mapping_2 :: []) 135000 100
  = mkPhys (inr (u64 (vm_base mapping_2 + u64 (135000 - 131072))))
           ([mapping_1] ++ mapping_2 :: [])
           (map (fun x => VmQuery (vm_base x)) ([mapping_1] ++ [mapping_2])).
Proof.
  apply (PhysToPtr_hit sample_macros sample_env [mapping_1] [] mapping_2
           135000 100 131072); try lia.
  - constructor; [|constructor].
    exists 65536. split; vm_compute; reflexivity.
  - reflexivity.
  - vm_compute; reflexivity.
Defined.

Lemma Read_unlinks_front_only_witness :
  exists r,
    Read chain_AB user_dst_bad 2 true = Done r
    /\ (exists k, buffers_ (r_chain r) = skipn k (buffers_ chain_AB))
    /\ pages_held (r_trace r)
       = Z.of_nat (length (buffers_ (r_chain r)))
         - Z.of_nat (length (buffers_ chain_AB))
    /\ existsb is_alloc (r_trace r) = false
    /\ status_from user_dst_bad (r_status r).
Proof.
  apply (Read_unlinks_front_only 4096 page_4096_ok chain_AB user_dst_bad 2 true
           chain_AB_inv).
  lia.
Defined.

